(** * Pump.fun trading bot: pricing engine, instruction encoder,
      trade orchestrator and stream client

    A shallow embedding of [solana-trader.ts] (class [SolanaTrader]) and of
    [websocket-monitor.ts] (class [PumpFunWebSocket]), with the properties
    of the trade-execution and market-data-streaming subsystem stated over
    it.

    TypeScript's [number] is an IEEE-754 binary64 value.  It is modelled by
    [spec_float], the executable specification of binary floating point of
    the standard library, at precision 53 and maximal exponent 1024, so the
    arithmetic of the model rounds exactly where the program's does. *)

From Stdlib Require Import ZArith List Bool Lia.
From Stdlib Require Import Strings.Byte.
From Stdlib Require Import Floats.SpecFloat.
From stdpp Require Import gmap strings pretty.
Import ListNotations.

Local Open Scope Z_scope.

(** ** JavaScript numbers *)

Module Number.

Definition prec : Z := 53.
Definition emax : Z := 1024.

Definition number : Type := spec_float.

Definition mul : number -> number -> number := SFmul prec emax.
Definition add : number -> number -> number := SFadd prec emax.
Definition sub : number -> number -> number := SFsub prec emax.
Definition div : number -> number -> number := SFdiv prec emax.

(** [x < y], [x <= y] and [x > y]: false as soon as one side is NaN. *)
Definition ltb : number -> number -> bool := SFltb.
Definition leb : number -> number -> bool := SFleb.
Definition gtb (x y : number) : bool := SFltb y x.

Definition valid : number -> bool := valid_binary prec emax.

(** The number denoted by an integer literal (the nearest double). *)
Definition of_Z (n : Z) : number := binary_normalize prec emax n 0 false.

(** [Math.floor].  A finite value with a negative exponent is cut at the
    binary point, towards minus infinity; the integer part has at most 53
    bits, so turning it back into a number is exact. *)
Definition floor (x : number) : number :=
  match x with
  | S754_finite s m e =>
      if 0 <=? e then x
      else binary_normalize prec emax
             (cond_Zopp s (Zpos m) / 2 ^ (- e)) 0 s
  | _ => x
  end.

(** The integer a number denotes, when it denotes one: the argument check
    of [BigInt(x)], which throws a RangeError on NaN, on the infinities
    and on a value with a fractional part. *)
Definition to_integer (x : number) : option Z :=
  match x with
  | S754_zero _ => Some 0
  | S754_finite s m e =>
      if 0 <=? e then Some (cond_Zopp s (Zpos m * 2 ^ e))
      else if Zpos m mod 2 ^ (- e) =? 0
           then Some (cond_Zopp s (Zpos m / 2 ^ (- e)))
           else None
  | _ => None
  end.

(** A finite number above zero. *)
Definition is_finite_pos (x : number) : bool :=
  match x with S754_finite false _ _ => true | _ => false end.

(** A zero, or a finite number above zero. *)
Definition is_finite_nonneg (x : number) : bool :=
  match x with
  | S754_zero _ | S754_finite false _ _ => true
  | _ => false
  end.

End Number.

Import Number.

(** ** Pricing engine ([SolanaTrader.calculateExpectedTokens],
       [SolanaTrader.calculateExpectedSol]) *)

Definition calculateExpectedTokens
    (solLamports virtualSolReserves virtualTokenReserves : number) : number :=
  let k := mul virtualSolReserves virtualTokenReserves in
  let newSolReserves := add virtualSolReserves solLamports in
  let newTokenReserves := div k newSolReserves in
  sub virtualTokenReserves newTokenReserves.

Definition calculateExpectedSol
    (tokenLamports virtualSolReserves virtualTokenReserves : number) : number :=
  let k := mul virtualSolReserves virtualTokenReserves in
  let newTokenReserves := add virtualTokenReserves tokenLamports in
  let newSolReserves := div k newTokenReserves in
  sub virtualSolReserves newSolReserves.

(** ** Exceptions

    What a [throw] carries, as far as the program looks at it: the trade
    orchestrator's [catch] only asks whether the value is an [Error] and,
    when it is, reads its [message].  The two RangeErrors are raised by the
    runtime inside the instruction encoder; everything else comes from the
    Solana client libraries and the RPC node. *)

Inductive exn : Type :=
| RangeError_not_an_integer (x : number)
| RangeError_out_of_range (what : string)
| Thrown (is_Error : bool) (message : string).

Definition result (A : Type) : Type := exn + A.

Definition BigInt (x : number) : result Z :=
  match to_integer x with
  | Some n => inr n
  | None => inl (RangeError_not_an_integer x)
  end.

(** ** Byte buffers *)

Definition Buffer : Type := list byte.

Definition byte_of_Z (z : Z) : byte :=
  match Byte.of_N (Z.to_N (z mod 256)) with
  | Some b => b
  | None => x00
  end.

Definition byte_to_Z (b : byte) : Z := Z.of_N (Byte.to_N b).

Definition Buffer_from (l : list Z) : Buffer := map byte_of_Z l.

Definition Buffer_alloc (size : nat) : Buffer := repeat x00 size.

(** [source.copy(target, targetStart)]: as many bytes as fit. *)
Definition Buffer_copy (source target : Buffer) (targetStart : nat) : Buffer :=
  let n := Nat.min (length source) (length target - targetStart) in
  firstn targetStart target ++ firstn n source ++ skipn (targetStart + n) target.

(** The [n] low bytes of [v], least significant first. *)
Fixpoint le_bytes (n : nat) (v : Z) : list byte :=
  match n with
  | O => []
  | S n' => byte_of_Z v :: le_bytes n' (Z.shiftr v 8)
  end.

(** The unsigned integer a little-endian byte string denotes. *)
Fixpoint le_value (bs : list byte) : Z :=
  match bs with
  | [] => 0
  | b :: bs' => byte_to_Z b + 256 * le_value bs'
  end.

(** [buf.writeBigUInt64LE(value, offset)]: a RangeError when the value is
    not an unsigned 64-bit integer or the eight bytes do not fit. *)
Definition writeBigUInt64LE (buf : Buffer) (value : Z) (offset : nat)
  : result Buffer :=
  if negb ((0 <=? value) && (value <? 2 ^ 64)) then
    inl (RangeError_out_of_range "value")
  else if negb (offset + 8 <=? length buf)%nat then
    inl (RangeError_out_of_range "offset")
  else
    inr (firstn offset buf ++ le_bytes 8 value ++ skipn (offset + 8) buf).

(** Bytes [from], ..., [to - 1] of a buffer. *)
Definition slice (buf : Buffer) (from to : nat) : Buffer :=
  firstn (to - from) (skipn from buf).

(** ** Instruction encoder ([SolanaTrader.buildBuyInstruction],
       [SolanaTrader.buildSellInstruction]) *)

Record PublicKey : Type := { toBase58 : string }.

Record AccountMeta : Type :=
  { pubkey : PublicKey; isSigner : bool; isWritable : bool }.

Record TransactionInstruction : Type :=
  { programId : PublicKey; keys : list AccountMeta; data : Buffer }.

Definition PUMP_FUN_PROGRAM_ID : PublicKey :=
  {| toBase58 := "6EF8rrecthR5Dkzon8Nwu78hRvfCKubJ14M5uBEwF6P" |}.
Definition PUMP_FUN_FEE_RECIPIENT : PublicKey :=
  {| toBase58 := "CebN5WGQ4jvEPvsVU4EoHEpgzq1VV7AbCJtGpGYKLXYi" |}.
Definition PUMP_GLOBAL_STATE : PublicKey :=
  {| toBase58 := "4wTV1YmiEkRvAtNtsSGPtUrqRYQMe5SKy2uB4Jjaxnjf" |}.

Definition BUY_DISCRIMINATOR : Buffer :=
  Buffer_from [102; 6; 61; 18; 1; 218; 235; 234].
Definition SELL_DISCRIMINATOR : Buffer :=
  Buffer_from [51; 230; 133; 164; 1; 127; 131; 173].

(** Sequencing of computations that may throw. *)
Definition bind {A B : Type} (c : result A) (k : A -> result B) : result B :=
  match c with
  | inl e => inl e
  | inr a => k a
  end.

Notation "'try!' x ':=' c 'in' k" := (bind c (fun x => k))
  (at level 10, x name, c at level 100, k at level 200).

Section Encoder.

(** [SystemProgram.programId] of web3.js and [TOKEN_PROGRAM_ID] of
    spl-token: two addresses the encoder imports. *)
Variables SystemProgram_programId TOKEN_PROGRAM_ID : PublicKey.

Definition buildBuyInstruction
    (buyer mint bondingCurve associatedBondingCurve buyerAta : PublicKey)
    (solAmount minTokens : number) : result TransactionInstruction :=
  let discriminator := BUY_DISCRIMINATOR in
  let data := Buffer_alloc 24 in
  let data := Buffer_copy discriminator data 0 in
  try! minTokens' := BigInt minTokens in
  try! data := writeBigUInt64LE data minTokens' 8 in
  try! solAmount' := BigInt solAmount in
  try! data := writeBigUInt64LE data solAmount' 16 in
  inr {| programId := PUMP_FUN_PROGRAM_ID;
         keys :=
           [ {| pubkey := PUMP_GLOBAL_STATE; isSigner := false; isWritable := false |};
             {| pubkey := PUMP_FUN_FEE_RECIPIENT; isSigner := false; isWritable := true |};
             {| pubkey := mint; isSigner := false; isWritable := false |};
             {| pubkey := bondingCurve; isSigner := false; isWritable := true |};
             {| pubkey := associatedBondingCurve; isSigner := false; isWritable := true |};
             {| pubkey := buyerAta; isSigner := false; isWritable := true |};
             {| pubkey := buyer; isSigner := true; isWritable := true |};
             {| pubkey := SystemProgram_programId; isSigner := false; isWritable := false |};
             {| pubkey := TOKEN_PROGRAM_ID; isSigner := false; isWritable := false |} ];
         data := data |}.

Definition buildSellInstruction
    (seller mint bondingCurve associatedBondingCurve sellerAta : PublicKey)
    (tokenAmount minSol : number) : result TransactionInstruction :=
  let discriminator := SELL_DISCRIMINATOR in
  let data := Buffer_alloc 24 in
  let data := Buffer_copy discriminator data 0 in
  try! tokenAmount' := BigInt tokenAmount in
  try! data := writeBigUInt64LE data tokenAmount' 8 in
  try! minSol' := BigInt minSol in
  try! data := writeBigUInt64LE data minSol' 16 in
  inr {| programId := PUMP_FUN_PROGRAM_ID;
         keys :=
           [ {| pubkey := PUMP_GLOBAL_STATE; isSigner := false; isWritable := false |};
             {| pubkey := PUMP_FUN_FEE_RECIPIENT; isSigner := false; isWritable := true |};
             {| pubkey := mint; isSigner := false; isWritable := false |};
             {| pubkey := bondingCurve; isSigner := false; isWritable := true |};
             {| pubkey := associatedBondingCurve; isSigner := false; isWritable := true |};
             {| pubkey := sellerAta; isSigner := false; isWritable := true |};
             {| pubkey := seller; isSigner := true; isWritable := true |};
             {| pubkey := SystemProgram_programId; isSigner := false; isWritable := false |};
             {| pubkey := TOKEN_PROGRAM_ID; isSigner := false; isWritable := false |} ];
         data := data |}.

End Encoder.

(** ** Trade orchestrator ([SolanaTrader.buyToken], [SolanaTrader.sellToken]) *)

(** The fields of [PumpFunToken] that the orchestrator reads. *)
Record PumpFunToken : Type :=
  { mint : string;
    bonding_curve : string;
    associated_bonding_curve : string;
    virtual_sol_reserves : number;
    virtual_token_reserves : number }.

Record TradeResult : Type :=
  { success : bool;
    signature : option string;
    error : option string;
    amountIn : number;
    amountOut : option number }.

(** The trading part of [config]. *)
Record Config : Type := { maxBuyAmount : number; slippageBps : number }.

Record Keypair : Type := { publicKey : PublicKey }.

Record Transaction : Type :=
  { instructions : list TransactionInstruction;
    recentBlockhash : option string;
    feePayer : option PublicKey }.

(** Requests sent to the RPC node, in the order they are issued. *)
Inductive NetworkCall : Type :=
| getAccountInfo (address : PublicKey)
| getLatestBlockhash
| sendAndConfirmTransaction (tx : Transaction) (signers : list Keypair).

(** What the RPC node answers: a value or a rejected promise. *)
Record RpcNode : Type :=
  { answer_getAccountInfo : PublicKey -> result (option unit);
    answer_getLatestBlockhash : result string;
    answer_sendAndConfirmTransaction :
      Transaction -> list Keypair -> result string }.

(** An asynchronous computation: it may throw (reject), and it extends the
    log of network calls issued so far. *)
Definition Async (A : Type) : Type :=
  list NetworkCall -> result A * list NetworkCall.

Definition ret {A : Type} (a : A) : Async A := fun log => (inr a, log).

Definition await {A B : Type} (c : Async A) (k : A -> Async B) : Async B :=
  fun log =>
    match c log with
    | (inl e, log') => (inl e, log')
    | (inr a, log') => k a log'
    end.

Definition lift {A : Type} (r : result A) : Async A := fun log => (r, log).

Definition request {A : Type} (call : NetworkCall) (answer : result A)
  : Async A :=
  fun log => (answer, log ++ [call]).

Definition try_catch {A : Type} (body : Async A) (handler : exn -> Async A)
  : Async A :=
  fun log =>
    match body log with
    | (inl e, log') => handler e log'
    | (inr a, log') => (inr a, log')
    end.

Notation "'let!' x ':=' c 'in' k" := (await c (fun x => k))
  (at level 10, x name, c at level 100, k at level 200).

Section Trader.

Variables SystemProgram_programId TOKEN_PROGRAM_ID : PublicKey.

(** [LAMPORTS_PER_SOL] of web3.js. *)
Variable LAMPORTS_PER_SOL : number.

Variable config : Config.

(** How a number prints inside a template literal. *)
Variable number_toString : number -> string.

(** The [message] of a RangeError raised by the runtime. *)
Variable RangeError_message : exn -> string.

(** [new PublicKey(s)]: throws on a string that is no valid address. *)
Variable new_PublicKey : string -> result PublicKey.

(** [getAssociatedTokenAddress(mint, owner)] of spl-token: a local
    derivation (no request is sent), which throws for an owner that is
    off the curve. *)
Variable getAssociatedTokenAddress : PublicKey -> PublicKey -> result PublicKey.

(** [createAssociatedTokenAccountInstruction(payer, ata, owner, mint)]. *)
Variable createAssociatedTokenAccountInstruction :
  PublicKey -> PublicKey -> PublicKey -> PublicKey -> TransactionInstruction.

Variable connection : RpcNode.

(** [error instanceof Error ? error.message : "Unknown error"] *)
Definition error_message (e : exn) : string :=
  match e with
  | Thrown true message => message
  | Thrown false _ => "Unknown error"
  | _ => RangeError_message e
  end.

Definition buyToken (wallet : option Keypair)
    (token : PumpFunToken) (solAmount : number) : Async TradeResult :=
  match wallet with
  | None =>
      ret {| success := false; signature := None;
             error := Some "Wallet not initialized";
             amountIn := solAmount; amountOut := None |}
  | Some wallet =>
      if gtb solAmount (maxBuyAmount config) then
        ret {| success := false; signature := None;
               error := Some ("Amount exceeds max buy limit of "
                                +:+ number_toString (maxBuyAmount config)
                                +:+ " SOL");
               amountIn := solAmount; amountOut := None |}
      else
        try_catch
          (let! mint := lift (new_PublicKey (mint token)) in
           let! bondingCurve := lift (new_PublicKey (bonding_curve token)) in
           let! associatedBondingCurve :=
             lift (new_PublicKey (associated_bonding_curve token)) in
           let! ata :=
             lift (getAssociatedTokenAddress mint (publicKey wallet)) in
           let! ataInfo :=
             request (getAccountInfo ata) (answer_getAccountInfo connection ata) in
           let instructions :=
             match ataInfo with
             | None =>
                 [createAssociatedTokenAccountInstruction
                    (publicKey wallet) ata (publicKey wallet) mint]
             | Some _ => []
             end in
           let lamports := floor (mul solAmount LAMPORTS_PER_SOL) in
           let expectedTokens :=
             calculateExpectedTokens lamports
               (virtual_sol_reserves token) (virtual_token_reserves token) in
           let minTokens :=
             floor (mul expectedTokens
                      (sub (of_Z 1) (div (slippageBps config) (of_Z 10000)))) in
           let! buyInstruction :=
             lift (buildBuyInstruction SystemProgram_programId TOKEN_PROGRAM_ID
                     (publicKey wallet) mint bondingCurve
                     associatedBondingCurve ata lamports minTokens) in
           let instructions := instructions ++ [buyInstruction] in
           let! blockhash :=
             request getLatestBlockhash (answer_getLatestBlockhash connection) in
           let transaction :=
             {| instructions := instructions;
                recentBlockhash := Some blockhash;
                feePayer := Some (publicKey wallet) |} in
           let! signature :=
             request (sendAndConfirmTransaction transaction [wallet])
               (answer_sendAndConfirmTransaction connection transaction [wallet]) in
           ret {| success := true; signature := Some signature; error := None;
                  amountIn := solAmount;
                  amountOut := Some (div expectedTokens (of_Z 1000000)) |})
          (fun e =>
             ret {| success := false; signature := None;
                    error := Some (error_message e);
                    amountIn := solAmount; amountOut := None |})
  end.

Definition sellToken (wallet : option Keypair)
    (token : PumpFunToken) (tokenAmount : number) : Async TradeResult :=
  match wallet with
  | None =>
      ret {| success := false; signature := None;
             error := Some "Wallet not initialized";
             amountIn := tokenAmount; amountOut := None |}
  | Some wallet =>
      try_catch
        (let! mint := lift (new_PublicKey (mint token)) in
         let! bondingCurve := lift (new_PublicKey (bonding_curve token)) in
         let! associatedBondingCurve :=
           lift (new_PublicKey (associated_bonding_curve token)) in
         let! ata :=
           lift (getAssociatedTokenAddress mint (publicKey wallet)) in
         let tokenLamports := floor (mul tokenAmount (of_Z 1000000)) in
         let expectedSol :=
           calculateExpectedSol tokenLamports
             (virtual_sol_reserves token) (virtual_token_reserves token) in
         let minSol :=
           floor (mul expectedSol
                    (sub (of_Z 1) (div (slippageBps config) (of_Z 10000)))) in
         let! sellInstruction :=
           lift (buildSellInstruction SystemProgram_programId TOKEN_PROGRAM_ID
                   (publicKey wallet) mint bondingCurve
                   associatedBondingCurve ata tokenLamports minSol) in
         let! blockhash :=
           request getLatestBlockhash (answer_getLatestBlockhash connection) in
         let transaction :=
           {| instructions := [sellInstruction];
              recentBlockhash := Some blockhash;
              feePayer := Some (publicKey wallet) |} in
         let! signature :=
           request (sendAndConfirmTransaction transaction [wallet])
             (answer_sendAndConfirmTransaction connection transaction [wallet]) in
         ret {| success := true; signature := Some signature; error := None;
                amountIn := tokenAmount;
                amountOut := Some (div expectedSol LAMPORTS_PER_SOL) |})
        (fun e =>
           ret {| success := false; signature := None;
                  error := Some (error_message e);
                  amountIn := tokenAmount; amountOut := None |})
  end.

End Trader.

(** ** Stream client ([PumpFunWebSocket]) *)

(** A parsed inbound frame, as far as the client inspects it: [null] (on
    which reading a property throws), or a value whose [txType] property is
    a given string or is missing. *)
Inductive JsonValue : Type :=
| Json_null
| Json_with (txType : option string) (raw : string).

(** A registered handler.  Only whether a call returns or throws matters to
    the client; what the handler does with the event is the caller's
    business, and handlers do not reach back into the client. *)
Definition EventCallback : Type := JsonValue -> option exn.

(** Sockets are told apart by the order in which they were opened. *)
Definition Socket : Type := nat.

Inductive ControlFrame : Type :=
| subscribeNewToken
| subscribeTokenTrade (keys : list string)
| unsubscribeTokenTrade (keys : list string).

(** What the client does to the outside world.  [ws_send sock frame] is a
    call [sock.send(frame)] that returned; [throws e] is an exception that
    leaves the method and reaches its caller. *)
Inductive Effect : Type :=
| console_log (line : string)
| console_error (line : string)
| new_WebSocket (sock : Socket)
| ws_send (sock : Socket) (frame : ControlFrame)
| ws_close (sock : Socket)
| setTimeout_connect (delay : Z)
| call_onNewToken (event : JsonValue)
| call_onTrade (event : JsonValue)
| promise_resolve
| promise_reject
| throws (error : exn).

(** [send] of the socket library: [None] when the call returns, [Some e]
    when it throws [e], as it does on a socket that is still connecting. *)
Definition Send : Type := Socket -> ControlFrame -> option exn.

Definition hasSocketClose (e : Effect) : bool :=
  match e with ws_close _ => true | _ => false end.

Definition hasSend (e : Effect) : bool :=
  match e with ws_send _ _ => true | _ => false end.

(** The fields of the class.  [reconnectAttempts] only ever holds 0..5,
    where arithmetic on doubles is exact, so it is kept as an integer.
    [maxReconnectAttempts] is initialised to 5 and never assigned. *)
Record PumpFunWebSocket : Type :=
  { ws : option Socket;
    reconnectAttempts : Z;
    onNewToken : option EventCallback;
    onTrade : option EventCallback;
    subscribedTokens : gset string;
    isConnected : bool }.

Definition maxReconnectAttempts : Z := 5.

Definition new_PumpFunWebSocket : PumpFunWebSocket :=
  {| ws := None; reconnectAttempts := 0; onNewToken := None; onTrade := None;
     subscribedTokens := ∅; isConnected := false |}.

Definition set_ws (v : option Socket) (c : PumpFunWebSocket) :=
  {| ws := v; reconnectAttempts := reconnectAttempts c;
     onNewToken := onNewToken c; onTrade := onTrade c;
     subscribedTokens := subscribedTokens c; isConnected := isConnected c |}.

Definition set_reconnectAttempts (v : Z) (c : PumpFunWebSocket) :=
  {| ws := ws c; reconnectAttempts := v;
     onNewToken := onNewToken c; onTrade := onTrade c;
     subscribedTokens := subscribedTokens c; isConnected := isConnected c |}.

Definition set_onNewToken (v : option EventCallback) (c : PumpFunWebSocket) :=
  {| ws := ws c; reconnectAttempts := reconnectAttempts c;
     onNewToken := v; onTrade := onTrade c;
     subscribedTokens := subscribedTokens c; isConnected := isConnected c |}.

Definition set_onTrade (v : option EventCallback) (c : PumpFunWebSocket) :=
  {| ws := ws c; reconnectAttempts := reconnectAttempts c;
     onNewToken := onNewToken c; onTrade := v;
     subscribedTokens := subscribedTokens c; isConnected := isConnected c |}.

Definition set_subscribedTokens (v : gset string) (c : PumpFunWebSocket) :=
  {| ws := ws c; reconnectAttempts := reconnectAttempts c;
     onNewToken := onNewToken c; onTrade := onTrade c;
     subscribedTokens := v; isConnected := isConnected c |}.

Definition set_isConnected (v : bool) (c : PumpFunWebSocket) :=
  {| ws := ws c; reconnectAttempts := reconnectAttempts c;
     onNewToken := onNewToken c; onTrade := onTrade c;
     subscribedTokens := subscribedTokens c; isConnected := v |}.

(** A method: the object after the call and what the call did. *)
Definition Method : Type := PumpFunWebSocket -> PumpFunWebSocket * list Effect.

(** [Math.min(1000 * Math.pow(2, attempts), 30000)] *)
Definition backoff_delay (attempts : Z) : Z :=
  Z.min (1000 * 2 ^ attempts) 30000.

Definition attemptReconnect : Method := fun c =>
  if maxReconnectAttempts <=? reconnectAttempts c then
    (c, [console_error "Max reconnection attempts reached"])
  else
    let c := set_reconnectAttempts (reconnectAttempts c + 1) c in
    let delay := backoff_delay (reconnectAttempts c) in
    (c, [console_log ("Attempting to reconnect in "
                        +:+ pretty (delay / 1000) +:+ "s...");
         setTimeout_connect delay]).

(** [connect()], up to the registration of the four listeners; [sock] is
    the socket that [new WebSocket(url)] returns. *)
Definition connect (sock : Socket) : Method := fun c =>
  (set_ws (Some sock) c, [new_WebSocket sock]).

(** The ["open"] listener. *)
Definition on_open : Method := fun c =>
  let c := set_isConnected true c in
  let c := set_reconnectAttempts 0 c in
  (c, [console_log "Connected to pump.fun WebSocket"; promise_resolve]).

(** The ["close"] listener. *)
Definition on_close : Method := fun c =>
  let c := set_isConnected false c in
  let '(c, effects) := attemptReconnect c in
  (c, console_log "WebSocket connection closed" :: effects).

(** The ["error"] listener. *)
Definition on_error : Method := fun c =>
  (c, console_error "WebSocket error:"
        :: (if negb (isConnected c) then [promise_reject] else [])).

(** Calling a handler: the call is recorded, and it may throw. *)
Definition invoke (record : JsonValue -> Effect) (handler : EventCallback)
    (event : JsonValue) : list Effect * option exn :=
  ([record event], handler event).

Definition txType_is (tag : string) (txType : option string) : bool :=
  match txType with
  | Some s => bool_decide (s = tag)
  | None => false
  end.

Definition handleMessage (c : PumpFunWebSocket) (message : JsonValue)
  : list Effect * option exn :=
  match message with
  | Json_null => ([], Some (Thrown true "Cannot read properties of null"))
  | Json_with txType _ =>
      match txType_is "create" txType, onNewToken c with
      | true, Some handler => invoke call_onNewToken handler message
      | _, _ =>
          match txType_is "buy" txType || txType_is "sell" txType, onTrade c with
          | true, Some handler => invoke call_onTrade handler message
          | _, _ => ([], None)
          end
      end
  end.

Section Stream.

(** [JSON.parse(data.toString())]: throws on text that is not JSON. *)
Variable JSON_parse : string -> result JsonValue.

(** The ["message"] listener. *)
Definition on_message (data : string) : Method := fun c =>
  match JSON_parse data with
  | inl _ => (c, [console_error "Error parsing WebSocket message:"])
  | inr message =>
      match handleMessage c message with
      | (effects, Some _) =>
          (c, effects ++ [console_error "Error parsing WebSocket message:"])
      | (effects, None) => (c, effects)
      end
  end.

(** [this.ws.send(frame); console.log(line)]: when [send] throws, the
    exception leaves the method before the line is logged.  The fields
    assigned before the call keep their new values either way. *)
Definition send_and_log (send : Send) (sock : Socket) (frame : ControlFrame)
    (line : string) : list Effect :=
  match send sock frame with
  | None => [ws_send sock frame; console_log line]
  | Some e => [throws e]
  end.

Definition subscribeToNewTokens (send : Send) (callback : EventCallback)
  : Method := fun c =>
  let c := set_onNewToken (Some callback) c in
  match ws c, isConnected c with
  | Some sock, true =>
      (c, send_and_log send sock subscribeNewToken
            "Subscribed to new token events")
  | _, _ => (c, [])
  end.

Definition subscribeToToken (send : Send) (mintAddress : string)
    (callback : option EventCallback) : Method := fun c =>
  let c := match callback with
           | Some _ => set_onTrade callback c
           | None => c
           end in
  let c := set_subscribedTokens ({[ mintAddress ]} ∪ subscribedTokens c) c in
  match ws c, isConnected c with
  | Some sock, true =>
      (c, send_and_log send sock (subscribeTokenTrade [mintAddress])
            ("Subscribed to trades for token: " +:+ mintAddress))
  | _, _ => (c, [])
  end.

Definition unsubscribeFromToken (send : Send) (mintAddress : string)
  : Method := fun c =>
  let c := set_subscribedTokens (subscribedTokens c ∖ {[ mintAddress ]}) c in
  match ws c, isConnected c with
  | Some sock, true =>
      (c, send_and_log send sock (unsubscribeTokenTrade [mintAddress])
            ("Unsubscribed from token: " +:+ mintAddress))
  | _, _ => (c, [])
  end.

Definition disconnect : Method := fun c =>
  match ws c with
  | Some sock =>
      let c := set_ws None c in
      let c := set_isConnected false c in
      (c, [ws_close sock; console_log "Disconnected from WebSocket"])
  | None => (c, [])
  end.

(** The callback of [this.connect().catch(...)] in [attemptReconnect]. *)
Definition on_reconnect_rejected : Method := fun c =>
  (c, [console_error "Reconnection failed:"]).

(** *** The client inside the event loop

    The object, the reconnect timers that [setTimeout] has armed and that
    have not fired yet, the number of sockets opened so far, and
    everything the client has done.  Nothing in the class keeps the handle
    of a timer, and nothing calls [clearTimeout]: a timer leaves [timers]
    only by firing. *)
Record Loop : Type :=
  { self : PumpFunWebSocket;
    timers : list Z;
    opened : nat;
    trace : list Effect }.

(** What [send] does on a socket depends on the state the library has
    that socket in, which the client does not record: it is given for
    every moment of the run. *)
Variable socket_send : Loop -> Send.

(** The events of the loop: the four listeners, a reconnect timer that
    fires, and the calls of the owner.  The callback of a firing timer is
    [this.connect().catch(...)]: when the promise of that [connect()] is
    rejected, the [.catch] callback runs as an event of its own,
    [reconnect_rejected], once the listener that rejected the promise
    has returned. *)
Inductive Event : Type :=
| socket_open
| socket_message (data : string)
| socket_close
| socket_error
| timer_fires
| reconnect_rejected
| call_connect
| call_subscribeToNewTokens (callback : EventCallback)
| call_subscribeToToken (mintAddress : string) (callback : option EventCallback)
| call_unsubscribeFromToken (mintAddress : string)
| call_disconnect.

Definition armed (effects : list Effect) : list Z :=
  omap (fun e => match e with setTimeout_connect d => Some d | _ => None end)
       effects.

Definition run (m : Method) (l : Loop) : Loop :=
  let '(c, effects) := m (self l) in
  {| self := c; timers := timers l ++ armed effects;
     opened := opened l; trace := trace l ++ effects |}.

Definition run_connect (l : Loop) : Loop :=
  let l := run (connect (opened l)) l in
  {| self := self l; timers := timers l;
     opened := S (opened l); trace := trace l |}.

Definition dispatch (l : Loop) (ev : Event) : Loop :=
  match ev with
  | socket_open => run on_open l
  | socket_message data => run (on_message data) l
  | socket_close => run on_close l
  | socket_error => run on_error l
  | timer_fires =>
      match timers l with
      | [] => l
      | _ :: rest =>
          run_connect {| self := self l; timers := rest;
                         opened := opened l; trace := trace l |}
      end
  | reconnect_rejected => run on_reconnect_rejected l
  | call_connect => run_connect l
  | call_subscribeToNewTokens callback =>
      run (subscribeToNewTokens (socket_send l) callback) l
  | call_subscribeToToken mintAddress callback =>
      run (subscribeToToken (socket_send l) mintAddress callback) l
  | call_unsubscribeFromToken mintAddress =>
      run (unsubscribeFromToken (socket_send l) mintAddress) l
  | call_disconnect => run disconnect l
  end.

Definition dispatch_all (l : Loop) (evs : list Event) : Loop :=
  fold_left dispatch evs l.

Definition boot : Loop :=
  {| self := new_PumpFunWebSocket; timers := []; opened := 0; trace := [] |}.

End Stream.

(** * The rest of the program: configuration, wallet, REST client and
      token analysis *)

(** ** Promises

    An asynchronous computation over any record of what was done: it may
    reject, and it extends the record. *)

Definition Promise (E A : Type) : Type := list E -> result A * list E.

Definition resolve {E A : Type} (a : A) : Promise E A :=
  fun done => (inr a, done).

Definition reject {E A : Type} (e : exn) : Promise E A :=
  fun done => (inl e, done).

Definition settle {E A : Type} (r : result A) : Promise E A :=
  fun done => (r, done).

Definition perform {E A : Type} (effect : E) (answer : result A)
  : Promise E A :=
  fun done => (answer, done ++ [effect]).

Definition and_then {E A B : Type} (c : Promise E A) (k : A -> Promise E B)
  : Promise E B :=
  fun done =>
    match c done with
    | (inl e, done') => (inl e, done')
    | (inr a, done') => k a done'
    end.

Definition catching {E A : Type} (body : Promise E A)
    (handler : exn -> Promise E A) : Promise E A :=
  fun done =>
    match body done with
    | (inl e, done') => handler e done'
    | (inr a, done') => (inr a, done')
    end.

Notation "'wait!' x ':=' c 'in' k" := (and_then c (fun x => k))
  (at level 10, x name, c at level 100, k at level 200).

(** ** Configuration ([config.ts]) *)

(** The two credentials of [config].  A variable that is not set in the
    environment reads as the empty string. *)
Record Credentials : Type :=
  { anthropicApiKey : string; solanaPrivateKey : string }.

Definition validateConfig (config : Credentials) : result unit :=
  if bool_decide (anthropicApiKey config = EmptyString) then
    inl (Thrown true "ANTHROPIC_API_KEY is required")
  else inr tt.

Definition validateTradingConfig (config : Credentials) : result unit :=
  try! checked := validateConfig config in
  if bool_decide (solanaPrivateKey config = EmptyString) then
    inl (Thrown true "SOLANA_PRIVATE_KEY is required for trading")
  else inr tt.

(** ** The wallet ([SolanaTrader.initializeWallet], [getBalance],
       [getTokenBalance]) *)

(** Requests of the balance queries. *)
Inductive BalanceCall : Type :=
| rpc_getBalance (address : PublicKey)
| rpc_getTokenAccountBalance (address : PublicKey).

(** What the node answers to them: the lamports of an account, and the
    [value.uiAmountString] of a token account, which may be missing. *)
Record BalanceNode : Type :=
  { answer_getBalance : PublicKey -> result number;
    answer_getTokenAccountBalance : PublicKey -> result (option string) }.

Section Wallet.

(** [bs58.decode] and [Keypair.fromSecretKey]: both throw on bad input. *)
Variable bs58_decode : string -> result Buffer.
Variable Keypair_fromSecretKey : Buffer -> result Keypair.

Variable LAMPORTS_PER_SOL : number.
Variable new_PublicKey : string -> result PublicKey.
Variable getAssociatedTokenAddress : PublicKey -> PublicKey -> result PublicKey.
Variable parseFloat : string -> number.
Variable connection : BalanceNode.

(** The method on the [wallet] field: the outcome, the field afterwards
    and the lines written to the console. *)
Definition initializeWallet (config : Credentials) (wallet : option Keypair)
  : result unit * option Keypair * list string :=
  if bool_decide (solanaPrivateKey config = EmptyString) then
    (inl (Thrown true "SOLANA_PRIVATE_KEY not configured"), wallet, [])
  else
    match
      (try! secretKey := bs58_decode (solanaPrivateKey config) in
       Keypair_fromSecretKey secretKey)
    with
    | inr keypair =>
        (inr tt, Some keypair,
         ["Wallet initialized: " +:+ toBase58 (publicKey keypair)])
    | inl _ => (inl (Thrown true "Invalid private key format"), wallet, [])
    end.

Definition getBalance (wallet : option Keypair) : Promise BalanceCall number :=
  match wallet with
  | None => reject (Thrown true "Wallet not initialized")
  | Some wallet =>
      wait! balance :=
        perform (rpc_getBalance (publicKey wallet))
          (answer_getBalance connection (publicKey wallet)) in
      resolve (div balance LAMPORTS_PER_SOL)
  end.

Definition getTokenBalance (wallet : option Keypair) (mintAddress : string)
  : Promise BalanceCall number :=
  match wallet with
  | None => reject (Thrown true "Wallet not initialized")
  | Some wallet =>
      catching
        (wait! mint := settle (new_PublicKey mintAddress) in
         wait! ata :=
           settle (getAssociatedTokenAddress mint (publicKey wallet)) in
         wait! balance :=
           perform (rpc_getTokenAccountBalance ata)
             (answer_getTokenAccountBalance connection ata) in
         resolve (parseFloat
                    match balance with
                    | Some uiAmountString =>
                        if bool_decide (uiAmountString = EmptyString)
                        then "0" else uiAmountString
                    | None => "0"
                    end))
        (fun _ => resolve (of_Z 0))
  end.

End Wallet.

(** ** REST client ([PumpFunAPI]) *)

(** What [fetch] resolves with, as far as the client reads it; [json] is
    the outcome of [response.json()]. *)
Record Response (Body : Type) : Type :=
  { ok : bool; status : Z; statusText : string; json : result Body }.

Arguments ok {Body} _.
Arguments status {Body} _.
Arguments statusText {Body} _.
Arguments json {Body} _.

(** What the client does: requests, and lines on the error console with
    the value that was caught. *)
Inductive ApiEffect : Type :=
| api_fetch (url : string)
| api_console_error (line : string) (error : exn).

(** [new Error(`HTTP ${response.status}: ${response.statusText}`)] *)
Definition http_error {Body : Type} (response : Response Body) : exn :=
  Thrown true
    ("HTTP " +:+ pretty (status response) +:+ ": " +:+ statusText response).

(** A [PumpFunToken] together with the further field that the client's
    price helpers read. *)
Record ListedToken : Type :=
  { listed :> PumpFunToken; total_supply : number }.

(** The double-quote character (code 34), which a message puts around the
    query. *)
Definition double_quote : string :=
  String (Ascii.Ascii false true false false false true false false)
    EmptyString.

Section Api.

(** A parsed response body.  The client casts it to the type it expects
    and checks nothing; [empty_array] is the body [[]]. *)
Variable Body : Type.
Variable empty_array : Body.

(** [config.pumpfunApiUrl] *)
Variable baseUrl : string.

Variable number_toString : number -> string.

(** [encodeURIComponent]: throws a URIError on a lone surrogate. *)
Variable encodeURIComponent : string -> result string.

(** The network: what [fetch(url)] settles with. *)
Variable http : string -> result (Response Body).

Definition fetch (url : string) : Promise ApiEffect (Response Body) :=
  perform (api_fetch url) (http url).

Definition console_error_with {A : Type} (line : string) (error : exn) (a : A)
  : Promise ApiEffect A :=
  wait! logged := perform (api_console_error line error) (inr tt) in
  resolve a.

Definition getToken (mintAddress : string) : Promise ApiEffect (option Body) :=
  catching
    (wait! response := fetch (baseUrl +:+ "/coins/" +:+ mintAddress) in
     if negb (ok response) then
       if status response =? 404 then resolve None
       else reject (http_error response)
     else
       wait! body := settle (json response) in
       resolve (Some body))
    (fun error =>
       console_error_with ("Error fetching token " +:+ mintAddress +:+ ":")
         error None).

Definition getLatestTokens (limit offset : option number)
  : Promise ApiEffect Body :=
  let limit := default (of_Z 50) limit in
  let offset := default (of_Z 0) offset in
  catching
    (wait! response :=
       fetch (baseUrl +:+ "/coins?offset=" +:+ number_toString offset
                +:+ "&limit=" +:+ number_toString limit
                +:+ "&sort=created_timestamp&order=DESC&includeNsfw=false") in
     if negb (ok response) then reject (http_error response)
     else settle (json response))
    (fun error =>
       console_error_with "Error fetching latest tokens:" error empty_array).

Definition getKingOfTheHill : Promise ApiEffect (option Body) :=
  catching
    (wait! response := fetch (baseUrl +:+ "/coins/king-of-the-hill") in
     if negb (ok response) then reject (http_error response)
     else
       wait! body := settle (json response) in
       resolve (Some body))
    (fun error =>
       console_error_with "Error fetching king of the hill:" error None).

Definition searchTokens (query : string) : Promise ApiEffect Body :=
  catching
    (wait! encoded := settle (encodeURIComponent query) in
     wait! response :=
       fetch (baseUrl +:+ "/coins?searchTerm=" +:+ encoded +:+ "&limit=20") in
     if negb (ok response) then reject (http_error response)
     else settle (json response))
    (fun error =>
       console_error_with
         ("Error searching tokens for " +:+ double_quote +:+ query
            +:+ double_quote +:+ ":")
         error empty_array).

Definition getTokensByCreator (creatorAddress : string)
  : Promise ApiEffect Body :=
  catching
    (wait! response :=
       fetch (baseUrl +:+ "/coins?creator=" +:+ creatorAddress
                +:+ "&limit=50") in
     if negb (ok response) then reject (http_error response)
     else settle (json response))
    (fun error =>
       console_error_with
         ("Error fetching tokens by creator " +:+ creatorAddress +:+ ":")
         error empty_array).

Definition getGraduatedTokens (limit : option number)
  : Promise ApiEffect Body :=
  let limit := default (of_Z 20) limit in
  catching
    (wait! response :=
       fetch (baseUrl +:+ "/coins?complete=true&limit="
                +:+ number_toString limit
                +:+ "&sort=usd_market_cap&order=DESC") in
     if negb (ok response) then reject (http_error response)
     else settle (json response))
    (fun error =>
       console_error_with "Error fetching graduated tokens:" error empty_array).

End Api.

(** [x === 0] on numbers: true of both zeros, false of NaN. *)
Definition is_zero (x : number) : bool := SFeqb x (of_Z 0).

Definition calculatePrice (token : PumpFunToken) : number :=
  if is_zero (virtual_token_reserves token) then of_Z 0
  else div (virtual_sol_reserves token) (virtual_token_reserves token).

Definition calculateMarketCapSol (token : ListedToken) : number :=
  let price := calculatePrice token in
  mul price (total_supply token).

(** ** Token analysis ([ClaudeAnalyzer]) *)

(** A block of [response.content], as far as the analyzer reads it. *)
Record ContentBlock : Type := { type : string; text : string }.

(** The one request of the analyzer: [client.messages.create]. *)
Inductive AnalyzerCall : Type :=
| messages_create (model : string) (max_tokens : Z) (prompt : string).

(** A property value of the object that [analyzeToken] returns; [Json]
    is the type of parsed JSON values. *)
Inductive Field (Json : Type) : Type :=
| of_token (token : PumpFunToken)
| of_json (value : Json)
| of_number (x : number)
| of_string (s : string)
| of_strings (l : list string).

Arguments of_token {Json} _.
Arguments of_json {Json} _.
Arguments of_number {Json} _.
Arguments of_string {Json} _.
Arguments of_strings {Json} _.

Section Analyzer.

(** Parsed JSON, [JSON.parse], and the own enumerable properties of a
    parsed value, which are what an object spread copies. *)
Variable Json : Type.
Variable JSON_parse : string -> result Json.
Variable own_properties : Json -> gmap string Json.

(** The texts of the three prompts, built around [formatTokenData]. *)
Variable analysis_prompt : PumpFunToken -> string.
Variable question_prompt : PumpFunToken -> string -> string.
Variable comparison_prompt : list PumpFunToken -> string.

(** What the API answers: the [content] of the message, or a rejection. *)
Variable client : AnalyzerCall -> result (list ContentBlock).

(** [response.content[0]], read for a property: a TypeError when the list
    is empty. *)
Definition first_block (content : list ContentBlock) : result ContentBlock :=
  match content with
  | block :: _ => inr block
  | [] => inl (Thrown true "Cannot read properties of undefined")
  end.

Definition fallback_analysis (token : PumpFunToken)
  : gmap string (Field Json) :=
  {[ "token" := of_token token;
     "riskScore" := of_number (of_Z 5);
     "sentiment" := of_string "neutral";
     "summary" :=
       of_string "Unable to parse analysis. Manual review recommended.";
     "redFlags" := of_strings ["Analysis parsing failed"];
     "greenFlags" := of_strings [];
     "recommendation" := of_string "Proceed with extreme caution" ]}.

Definition analyzeToken (token : PumpFunToken)
  : Promise AnalyzerCall (gmap string (Field Json)) :=
  let request :=
    messages_create "claude-sonnet-4-20250514" 1500 (analysis_prompt token) in
  wait! response := perform request (client request) in
  catching
    (wait! content := settle (first_block response) in
     if negb (bool_decide (type content = "text")) then
       reject (Thrown true "Unexpected response type")
     else
       wait! analysis := settle (JSON_parse (text content)) in
       resolve ((of_json <$> own_properties analysis)
                  ∪ {[ "token" := of_token token ]}))
    (fun _ => resolve (fallback_analysis token)).

Definition askAboutToken (token : PumpFunToken) (question : string)
  : Promise AnalyzerCall string :=
  let request :=
    messages_create "claude-sonnet-4-20250514" 1000
      (question_prompt token question) in
  wait! response := perform request (client request) in
  wait! content := settle (first_block response) in
  if negb (bool_decide (type content = "text")) then
    resolve "Unable to generate response"
  else resolve (text content).

Definition compareTokens (tokens : list PumpFunToken)
  : Promise AnalyzerCall string :=
  let request :=
    messages_create "claude-sonnet-4-20250514" 2000
      (comparison_prompt tokens) in
  wait! response := perform request (client request) in
  wait! content := settle (first_block response) in
  if negb (bool_decide (type content = "text")) then
    resolve "Unable to generate comparison"
  else resolve (text content).

End Analyzer.

(** * Notions used in the statements *)

(** ** Instruction encoder *)

(** The payload of a direction: its discriminator, then two 8-byte
    little-endian words. *)
Definition payload (discriminator : Buffer) (first second : Z) : Buffer :=
  discriminator ++ le_bytes 8 first ++ le_bytes 8 second.

(** The three kinds of entry of an account list. *)
Definition read_only (key : PublicKey) : AccountMeta :=
  {| pubkey := key; isSigner := false; isWritable := false |}.
Definition writable (key : PublicKey) : AccountMeta :=
  {| pubkey := key; isSigner := false; isWritable := true |}.
Definition writable_signer (key : PublicKey) : AccountMeta :=
  {| pubkey := key; isSigner := true; isWritable := true |}.

(** ** Trade orchestrator *)

(** The two classifications that the guards of [buyToken] produce. *)
Definition wallet_not_initialized : string := "Wallet not initialized".

Definition limit_exceeded (number_toString : number -> string)
    (limit : number) : string :=
  "Amount exceeds max buy limit of " +:+ number_toString limit +:+ " SOL".

Definition failed (message : string) (amount : number) : TradeResult :=
  {| success := false; signature := None; error := Some message;
     amountIn := amount; amountOut := None |}.

(** ** Stream client *)

(** One failed reconnect attempt, as the socket library reports it: the
    timer fires and [connect()] opens a socket, which emits ["error"] and
    then ["close"]. *)
Definition failed_attempt : list Event :=
  [timer_fires; socket_error; socket_close].

(** Events that are not a successful connection and not a call by the
    owner of the client. *)
Definition no_success (ev : Event) : bool :=
  match ev with
  | socket_message _ | socket_close | socket_error | timer_fires
  | reconnect_rejected => true
  | _ => false
  end.

(** Events that are a call of a public method by the owner of the client. *)
Definition owner_call (ev : Event) : bool :=
  match ev with
  | socket_open | socket_message _ | socket_close | socket_error
  | timer_fires | reconnect_rejected => false
  | _ => true
  end.

(** C6 as stated: after [disconnect()] no reconnect timer is armed, and no
    event other than a call by the owner makes the client open a socket. *)
Definition disconnect_is_final : Prop :=
  forall JSON_parse socket_send l evs,
    let l' := dispatch JSON_parse socket_send l call_disconnect in
    timers l' = []
    /\ (forallb (fun ev => negb (owner_call ev)) evs = true ->
        opened (dispatch_all JSON_parse socket_send l' evs) = opened l').

(** ** Pricing engine *)

(** The reading of the pricing rule over the integers: the new token
    reserve is the integer quotient of [k] by the new SOL reserve. *)
Definition ExpectedOut_buy_integer (amountIn solReserve tokenReserve : Z) : Z :=
  tokenReserve - (solReserve * tokenReserve) / (solReserve + amountIn).

(** C1 as stated: on integer arguments the buy output is the integer that
    the rule with integer division gives. *)
Definition buy_output_is_integer_quotient : Prop :=
  forall amountIn solReserve tokenReserve : Z,
    0 <= amountIn -> 0 < solReserve -> 0 < tokenReserve ->
    calculateExpectedTokens (of_Z amountIn) (of_Z solReserve) (of_Z tokenReserve)
    = of_Z (ExpectedOut_buy_integer amountIn solReserve tokenReserve).

(** The scenario of the specification: reserves of 30 SOL and 10^12 token
    units, a buy of 1 SOL.  The three arguments are exact as doubles, and so
    is their product 3 * 10^22; the quotient by 31 * 10^9 is rounded. *)
Definition scenario_out : number :=
  calculateExpectedTokens
    (of_Z 1000000000) (of_Z 30000000000) (of_Z 1000000000000).

(** The number of bits of an integer, and the exponent that binary64 wants
    for a number of a given magnitude. *)
Definition digits (m : Z) : Z := Zdigits2 m.

Definition fexp64 (e : Z) : Z := fexp prec emax e.

(** The rounded product of two finite numbers denotes their exact product:
    its mantissa, moved back to the exponent of the exact product, is the
    product of the two mantissas. *)
Definition product_is_exact (x y : number) : bool :=
  match x, y, mul x y with
  | S754_finite _ mx ex, S754_finite _ my ey, S754_finite _ mz ez =>
      (ex + ey <=? ez) && (Zpos mz * 2 ^ (ez - (ex + ey)) =? Zpos mx * Zpos my)
  | _, _, _ => false
  end.

(** C7 as stated: on integer arguments with positive reserves the buy
    output is never below zero, and it is strictly below the token reserve
    for a positive amount. *)
Definition buy_output_is_bounded : Prop :=
  forall amountIn solReserve tokenReserve : Z,
    0 <= amountIn -> 0 < solReserve -> 0 < tokenReserve ->
    let out := calculateExpectedTokens
                 (of_Z amountIn) (of_Z solReserve) (of_Z tokenReserve) in
    leb (of_Z 0) out = true
    /\ (0 < amountIn -> ltb out (of_Z tokenReserve) = true).

(** ** Concrete inputs *)

Module Examples.

Definition system_program : PublicKey :=
  {| toBase58 := "11111111111111111111111111111111" |}.
Definition token_program : PublicKey :=
  {| toBase58 := "TokenkegQfeZyiNwAJbNbGKPFXCWuBvf9Ss623VQ5DA" |}.
Definition trader : PublicKey := {| toBase58 := "trader" |}.
Definition coin : PublicKey := {| toBase58 := "coin" |}.
Definition curve : PublicKey := {| toBase58 := "curve" |}.
Definition curve_ata : PublicKey := {| toBase58 := "curve-ata" |}.
Definition trader_ata : PublicKey := {| toBase58 := "trader-ata" |}.

Definition the_config : Config :=
  {| maxBuyAmount := of_Z 1; slippageBps := of_Z 500 |}.

Definition the_token : PumpFunToken :=
  {| mint := "coin"; bonding_curve := "curve";
     associated_bonding_curve := "curve-ata";
     virtual_sol_reserves := of_Z 30000000000;
     virtual_token_reserves := of_Z 1000000000000 |}.

Definition the_wallet : Keypair := {| publicKey := trader |}.

Definition show (x : number) : string := "1".
Definition range_message (e : exn) : string := "out of range".
Definition parse_key (s : string) : result PublicKey := inr {| toBase58 := s |}.
Definition derive_ata (mint owner : PublicKey) : result PublicKey := inr trader_ata.
Definition create_ata (payer ata owner mint : PublicKey) : TransactionInstruction :=
  {| programId := token_program; keys := []; data := [] |}.
Definition node : RpcNode :=
  {| answer_getAccountInfo := fun _ => inr None;
     answer_getLatestBlockhash := inr "blockhash";
     answer_sendAndConfirmTransaction := fun _ _ => inr "signature" |}.

Definition the_buy :=
  buyToken system_program token_program (of_Z 1000000000) the_config show
    range_message parse_key derive_ata create_ata node.

Definition the_sell :=
  sellToken system_program token_program (of_Z 1000000000) the_config
    range_message parse_key derive_ata node.

(** A stand-in for [JSON.parse] that knows two frames and throws on
    every other text. *)
Definition parse (frame : string) : result JsonValue :=
  if bool_decide (frame = "{txType:create}"%string) then
    inr (Json_with (Some "create") frame)
  else if bool_decide (frame = "{txType:migrate}"%string) then
    inr (Json_with (Some "migrate") frame)
  else inl (Thrown true "Unexpected token").

(** A library in which every socket that is sent on is open, and one in
    which the third socket of the run is still connecting. *)
Definition open_sockets (l : Loop) : Send := fun _ _ => None.

Definition third_socket_connecting (l : Loop) : Send := fun sock _ =>
  if (sock =? 2)%nat
  then Some (Thrown true "WebSocket is not open: readyState 0 (CONNECTING)")
  else None.

Definition run_events : Loop -> list Event -> Loop :=
  dispatch_all parse open_sockets.

End Examples.

(** ** Further notions *)

(** *** Stream client *)

(** The control frames among what the client did. *)
Definition sent (effects : list Effect) : list Effect :=
  List.filter hasSend effects.

(** The handler calls among what the client did. *)
Definition hasHandlerCall (e : Effect) : bool :=
  match e with call_onNewToken _ | call_onTrade _ => true | _ => false end.

Definition handler_calls (effects : list Effect) : list Effect :=
  List.filter hasHandlerCall effects.

(** The owner subscribes to, or unsubscribes from, the trades of a mint. *)
Definition subscribes (mintAddress : string) (ev : Event) : bool :=
  match ev with
  | call_subscribeToToken m _ => bool_decide (m = mintAddress)
  | _ => false
  end.

Definition unsubscribes (mintAddress : string) (ev : Event) : bool :=
  match ev with
  | call_unsubscribeFromToken m => bool_decide (m = mintAddress)
  | _ => false
  end.

(** The handler that a parsed frame is routed to, if any. *)
Definition routed (c : PumpFunWebSocket) (message : JsonValue) : list Effect :=
  match message with
  | Json_null => []
  | Json_with txType _ =>
      if txType_is "create" txType then
        match onNewToken c with
        | Some _ => [call_onNewToken message]
        | None =>  []
        end
      else if txType_is "buy" txType || txType_is "sell" txType then
        match onTrade c with
        | Some _ => [call_onTrade message]
        | None => []
        end
      else []
  end.

(** The owner registers a handler or changes a subscription. *)
Definition subscription_call (ev : Event) : bool :=
  match ev with
  | call_subscribeToNewTokens _ | call_subscribeToToken _ _
  | call_unsubscribeFromToken _ => true
  | _ => false
  end.

(** *** Trade orchestrator *)

(** A number that denotes an unsigned 64-bit integer. *)
Definition is_u64 (x : number) : bool :=
  match to_integer x with
  | Some n => (0 <=? n) && (n <? 2 ^ 64)
  | None => false
  end.

(** [Math.floor(expected * (1 - slippageBps / 10000))]: the least output
    that [buyToken] and [sellToken] ask the program to enforce. *)
Definition minimum_out (slippageBps expected : number) : number :=
  floor (mul expected (sub (of_Z 1) (div slippageBps (of_Z 10000)))).

(** A result that is either a success with a signature and an output, or
    a failure with a message. *)
Definition well_formed (r : TradeResult) : Prop :=
  if success r
  then signature r <> None /\ error r = None /\ amountOut r <> None
  else signature r = None /\ error r <> None /\ amountOut r = None.

(** *** REST client *)

(** A number that is not NaN, and a number that is zero or finite. *)
Definition is_nan (x : number) : bool :=
  match x with S754_nan => true | _ => false end.

Definition is_finite (x : number) : bool :=
  match x with S754_zero _ | S754_finite _ _ _ => true | _ => false end.

(** A listing: it never rejects, it sends at most one request, and it
    resolves with the parsed body of a response that was [ok], or else
    with the empty array after one line on the error console. *)
Definition falls_back_to_empty {Body : Type} (empty_array : Body)
    (http : string -> result (Response Body))
    (p : Promise ApiEffect Body) : Prop :=
  forall done,
    exists r effects,
      p done = (inr r, done ++ effects)
      /\ ((exists url response,
              effects = [api_fetch url]
              /\ http url = inr response /\ ok response = true
              /\ json response = inr r)
          \/ (r = empty_array
              /\ exists line error,
                   effects = [api_console_error line error]
                   \/ exists url, effects = [api_fetch url;
                                             api_console_error line error])).


(** * Properties *)

(** ** Bytes and little-endian words *)

Lemma byte_to_of_Z (z : Z) : byte_to_Z (byte_of_Z z) = z mod 256.
Proof.
  unfold byte_to_Z, byte_of_Z.
  assert (Hr : 0 <= z mod 256 < 256) by (apply Z.mod_pos_bound; lia).
  destruct (Byte.of_N (Z.to_N (z mod 256))) as [b|] eqn:E.
  - apply Byte.to_of_N in E. rewrite E. apply Z2N.id. lia.
  - exfalso.
    pose proof (Byte.to_of_N_option_map (Z.to_N (z mod 256))) as H.
    rewrite E in H. simpl in H.
    destruct (N.leb_spec (Z.to_N (z mod 256)) 255) as [_|Hgt]; [discriminate|].
    lia.
Qed.

Lemma length_le_bytes (n : nat) (v : Z) : length (le_bytes n v) = n.
Proof. revert v. induction n as [|n IH]; intros v; simpl; [|rewrite IH]; reflexivity. Qed.

Lemma le_value_le_bytes (n : nat) (v : Z) :
  le_value (le_bytes n v) = v mod 2 ^ (8 * Z.of_nat n).
Proof.
  revert v. induction n as [|n IH]; intros v.
  - simpl. now rewrite Z.mod_1_r.
  - cbn [le_bytes le_value]. rewrite byte_to_of_Z, IH, Z.shiftr_div_pow2 by lia.
    replace (8 * Z.of_nat (S n)) with (8 + 8 * Z.of_nat n) by lia.
    rewrite Z.pow_add_r by lia.
    change (2 ^ 8) with 256.
    rewrite (Z.rem_mul_r v 256 (2 ^ (8 * Z.of_nat n))) by lia.
    reflexivity.
Qed.

Lemma le_value_le_bytes_8 (v : Z) :
  0 <= v < 2 ^ 64 -> le_value (le_bytes 8 v) = v.
Proof.
  intros Hv. rewrite le_value_le_bytes.
  change (8 * Z.of_nat 8) with 64. now apply Z.mod_small.
Qed.

Lemma writeBigUInt64LE_in_range (buf : Buffer) (v : Z) (offset : nat) :
  0 <= v < 2 ^ 64 -> (offset + 8 <= length buf)%nat ->
  writeBigUInt64LE buf v offset
  = inr (firstn offset buf ++ le_bytes 8 v ++ skipn (offset + 8) buf).
Proof.
  intros Hv Hoff. unfold writeBigUInt64LE.
  destruct (Z.leb_spec 0 v); [|lia].
  destruct (Z.ltb_spec v (2 ^ 64)); [|lia].
  destruct (Nat.leb_spec (offset + 8) (length buf)); [|lia].
  reflexivity.
Qed.

Lemma writeBigUInt64LE_out_of_range (buf : Buffer) (v : Z) (offset : nat) :
  v < 0 \/ 2 ^ 64 <= v ->
  writeBigUInt64LE buf v offset = inl (RangeError_out_of_range "value").
Proof.
  intros Hv. unfold writeBigUInt64LE.
  destruct (Z.leb_spec 0 v), (Z.ltb_spec v (2 ^ 64)); try reflexivity; lia.
Qed.

(** An 8-byte little-endian word is determined by its eight bytes. *)
Lemma le_bytes_8_shape (v : Z) :
  exists b0 b1 b2 b3 b4 b5 b6 b7,
    le_bytes 8 v = [b0; b1; b2; b3; b4; b5; b6; b7].
Proof. repeat eexists. Qed.

(** ** Instruction encoder *)

Section EncoderProperties.

Variables SystemProgram_programId TOKEN_PROGRAM_ID : PublicKey.

Abbreviation buildBuy := (buildBuyInstruction SystemProgram_programId TOKEN_PROGRAM_ID).
Abbreviation buildSell := (buildSellInstruction SystemProgram_programId TOKEN_PROGRAM_ID).

Lemma buildBuyInstruction_data
    (buyer mint bondingCurve associatedBondingCurve buyerAta : PublicKey)
    (solAmount minTokens : number) (x y : Z) :
  to_integer minTokens = Some x -> to_integer solAmount = Some y ->
  0 <= x < 2 ^ 64 -> 0 <= y < 2 ^ 64 ->
  exists ins,
    buildBuy buyer mint bondingCurve associatedBondingCurve buyerAta
      solAmount minTokens = inr ins
    /\ data ins = payload BUY_DISCRIMINATOR x y.
Proof.
  intros Hx Hy Rx Ry. unfold buildBuyInstruction, BigInt.
  rewrite Hx, Hy. cbn [bind].
  rewrite writeBigUInt64LE_in_range by (trivial; cbn; lia). cbn [bind].
  rewrite writeBigUInt64LE_in_range
    by (trivial; rewrite !length_app, length_le_bytes; cbn; lia).
  cbn [bind]. eexists. split; [reflexivity|].
  unfold payload.
  destruct (le_bytes_8_shape x) as (? & ? & ? & ? & ? & ? & ? & ? & ->).
  destruct (le_bytes_8_shape y) as (? & ? & ? & ? & ? & ? & ? & ? & ->).
  reflexivity.
Qed.

Lemma buildSellInstruction_data
    (seller mint bondingCurve associatedBondingCurve sellerAta : PublicKey)
    (tokenAmount minSol : number) (x y : Z) :
  to_integer tokenAmount = Some x -> to_integer minSol = Some y ->
  0 <= x < 2 ^ 64 -> 0 <= y < 2 ^ 64 ->
  exists ins,
    buildSell seller mint bondingCurve associatedBondingCurve sellerAta
      tokenAmount minSol = inr ins
    /\ data ins = payload SELL_DISCRIMINATOR x y.
Proof.
  intros Hx Hy Rx Ry. unfold buildSellInstruction, BigInt.
  rewrite Hx, Hy. cbn [bind].
  rewrite writeBigUInt64LE_in_range by (trivial; cbn; lia). cbn [bind].
  rewrite writeBigUInt64LE_in_range
    by (trivial; rewrite !length_app, length_le_bytes; cbn; lia).
  cbn [bind]. eexists. split; [reflexivity|].
  unfold payload.
  destruct (le_bytes_8_shape x) as (? & ? & ? & ? & ? & ? & ? & ? & ->).
  destruct (le_bytes_8_shape y) as (? & ? & ? & ? & ? & ? & ? & ? & ->).
  reflexivity.
Qed.

Lemma slice_prefix (a rest : Buffer) : slice (a ++ rest) 0 (length a) = a.
Proof.
  unfold slice. rewrite Nat.sub_0_r. cbn [skipn]. apply take_app_length.
Qed.

Lemma slice_middle (a b rest : Buffer) :
  slice (a ++ b ++ rest) (length a) (length a + length b) = b.
Proof.
  unfold slice. rewrite drop_app_length.
  replace (length a + length b - length a)%nat with (length b) by lia.
  apply take_app_length.
Qed.

Lemma payload_fields (discriminator : Buffer) (x y : Z) :
  length discriminator = 8%nat -> 0 <= x < 2 ^ 64 -> 0 <= y < 2 ^ 64 ->
  length (payload discriminator x y) = 24%nat
  /\ slice (payload discriminator x y) 0 8 = discriminator
  /\ slice (payload discriminator x y) 8 16 = le_bytes 8 x
  /\ slice (payload discriminator x y) 16 24 = le_bytes 8 y
  /\ le_value (slice (payload discriminator x y) 8 16) = x
  /\ le_value (slice (payload discriminator x y) 16 24) = y.
Proof.
  intros Hd Rx Ry.
  assert (S0 : slice (payload discriminator x y) 0 8 = discriminator).
  { pose proof (slice_prefix discriminator (le_bytes 8 x ++ le_bytes 8 y)) as H.
    now rewrite Hd in H. }
  assert (S1 : slice (payload discriminator x y) 8 16 = le_bytes 8 x).
  { pose proof (slice_middle discriminator (le_bytes 8 x) (le_bytes 8 y)) as H.
    now rewrite Hd, length_le_bytes in H. }
  assert (S2 : slice (payload discriminator x y) 16 24 = le_bytes 8 y).
  { pose proof (slice_middle (discriminator ++ le_bytes 8 x) (le_bytes 8 y) []) as H.
    rewrite length_app, Hd, !length_le_bytes, app_nil_r, <- app_assoc in H.
    exact H. }
  repeat split; trivial.
  - unfold payload. rewrite !length_app, !length_le_bytes. lia.
  - rewrite S1. now apply le_value_le_bytes_8.
  - rewrite S2. now apply le_value_le_bytes_8.
Qed.

(** C2.  For amounts that are unsigned 64-bit integers, each direction's
    encoder returns an instruction whose payload is exactly 24 bytes:
    bytes 0-7 are the direction's discriminator, bytes 8-15 and 16-23 are
    the little-endian encodings of (minTokens, solAmount) for a buy and of
    (tokenAmount, minSol) for a sell; the two discriminators are 8 bytes
    each and differ. *)
Theorem payload_is_24_bytes
    (trader mint bondingCurve associatedBondingCurve ata : PublicKey)
    (first second : number) (x y : Z) :
  to_integer first = Some x -> to_integer second = Some y ->
  0 <= x < 2 ^ 64 -> 0 <= y < 2 ^ 64 ->
  (exists ins,
      buildBuy trader mint bondingCurve associatedBondingCurve ata
        second first = inr ins
      /\ length (data ins) = 24%nat
      /\ slice (data ins) 0 8 = BUY_DISCRIMINATOR
      /\ slice (data ins) 8 16 = le_bytes 8 x
      /\ slice (data ins) 16 24 = le_bytes 8 y
      /\ le_value (slice (data ins) 8 16) = x
      /\ le_value (slice (data ins) 16 24) = y)
  /\ (exists ins,
      buildSell trader mint bondingCurve associatedBondingCurve ata
        first second = inr ins
      /\ length (data ins) = 24%nat
      /\ slice (data ins) 0 8 = SELL_DISCRIMINATOR
      /\ slice (data ins) 8 16 = le_bytes 8 x
      /\ slice (data ins) 16 24 = le_bytes 8 y
      /\ le_value (slice (data ins) 8 16) = x
      /\ le_value (slice (data ins) 16 24) = y)
  /\ length BUY_DISCRIMINATOR = 8%nat
  /\ length SELL_DISCRIMINATOR = 8%nat
  /\ BUY_DISCRIMINATOR <> SELL_DISCRIMINATOR.
Proof.
  intros Hx Hy Rx Ry. split; [|split].
  - destruct (buildBuyInstruction_data trader mint bondingCurve
                associatedBondingCurve ata second first x y Hx Hy Rx Ry)
      as (ins & E & D).
    exists ins. rewrite D. split; [exact E|].
    now apply payload_fields.
  - destruct (buildSellInstruction_data trader mint bondingCurve
                associatedBondingCurve ata first second x y Hx Hy Rx Ry)
      as (ins & E & D).
    exists ins. rewrite D. split; [exact E|].
    now apply payload_fields.
  - repeat split. discriminate.
Qed.

(** An amount that is not an unsigned 64-bit integer makes the encoder
    throw: no instruction is produced. *)
Lemma buildBuyInstruction_throws
    (buyer mint bondingCurve associatedBondingCurve buyerAta : PublicKey)
    (solAmount minTokens : number) :
  to_integer minTokens = None ->
  buildBuy buyer mint bondingCurve associatedBondingCurve buyerAta
    solAmount minTokens = inl (RangeError_not_an_integer minTokens).
Proof. intros H. unfold buildBuyInstruction, BigInt. now rewrite H. Qed.

Lemma encoders_list_the_same_accounts
    (trader mint bondingCurve associatedBondingCurve ata : PublicKey)
    (a b : number) (ins : TransactionInstruction) :
  buildBuy trader mint bondingCurve associatedBondingCurve ata a b = inr ins
  \/ buildSell trader mint bondingCurve associatedBondingCurve ata a b = inr ins ->
  keys ins =
    [ read_only PUMP_GLOBAL_STATE;
      writable PUMP_FUN_FEE_RECIPIENT;
      read_only mint;
      writable bondingCurve;
      writable associatedBondingCurve;
      writable ata;
      writable_signer trader;
      read_only SystemProgram_programId;
      read_only TOKEN_PROGRAM_ID ].
Proof.
  unfold buildBuyInstruction, buildSellInstruction.
  intros [H|H];
    destruct (BigInt a) as [?|a']; try discriminate;
    destruct (BigInt b) as [?|b']; try discriminate;
    cbn [bind] in H;
    repeat match type of H with
           | context [writeBigUInt64LE ?buf ?v ?o] =>
               destruct (writeBigUInt64LE buf v o); try discriminate;
               cbn [bind] in H
           end;
    injection H as <-; reflexivity.
Qed.

(** C3.  Every instruction either encoder returns lists exactly nine
    accounts, in the same positions for both directions: global state
    (read-only), fee recipient (writable), mint (read-only), bonding curve
    (writable), associated bonding curve (writable), the trader's token
    account (writable), the trader's wallet (writable, signer), the system
    program (read-only), the token program (read-only).  Both encoders do
    return such an instruction: the buy encoder and the sell encoder each
    emit one, with this list, for every pair of amounts that are unsigned
    64-bit integers. *)
Theorem account_list_is_fixed
    (trader mint bondingCurve associatedBondingCurve ata : PublicKey) :
  let accounts :=
    [ read_only PUMP_GLOBAL_STATE;
      writable PUMP_FUN_FEE_RECIPIENT;
      read_only mint;
      writable bondingCurve;
      writable associatedBondingCurve;
      writable ata;
      writable_signer trader;
      read_only SystemProgram_programId;
      read_only TOKEN_PROGRAM_ID ] in
  length accounts = 9%nat
  /\ (forall (a b : number) (ins : TransactionInstruction),
        buildBuy trader mint bondingCurve associatedBondingCurve ata a b
        = inr ins
        \/ buildSell trader mint bondingCurve associatedBondingCurve ata a b
           = inr ins ->
        keys ins = accounts /\ length (keys ins) = 9%nat)
  /\ (forall (first second : number) (x y : Z),
        to_integer first = Some x -> to_integer second = Some y ->
        0 <= x < 2 ^ 64 -> 0 <= y < 2 ^ 64 ->
        (exists ins,
            buildBuy trader mint bondingCurve associatedBondingCurve ata
              second first = inr ins
            /\ keys ins = accounts)
        /\ (exists ins,
            buildSell trader mint bondingCurve associatedBondingCurve ata
              first second = inr ins
            /\ keys ins = accounts)).
Proof.
  cbn zeta. split; [reflexivity|]. split.
  - intros a b ins H.
    rewrite (encoders_list_the_same_accounts _ _ _ _ _ _ _ _ H).
    split; reflexivity.
  - intros first second x y Hx Hy Rx Ry. split.
    + destruct (buildBuyInstruction_data trader mint bondingCurve
                  associatedBondingCurve ata second first x y Hx Hy Rx Ry)
        as (ins & E & _).
      exists ins. split; [exact E|].
      exact (encoders_list_the_same_accounts _ _ _ _ _ _ _ _ (or_introl E)).
    + destruct (buildSellInstruction_data trader mint bondingCurve
                  associatedBondingCurve ata first second x y Hx Hy Rx Ry)
        as (ins & E & _).
      exists ins. split; [exact E|].
      exact (encoders_list_the_same_accounts _ _ _ _ _ _ _ _ (or_intror E)).
Qed.

End EncoderProperties.

(** ** Trade orchestrator *)

Section TraderProperties.

Variables SystemProgram_programId TOKEN_PROGRAM_ID : PublicKey.
Variable LAMPORTS_PER_SOL : number.
Variable config : Config.
Variable number_toString : number -> string.
Variable RangeError_message : exn -> string.
Variable new_PublicKey : string -> result PublicKey.
Variable getAssociatedTokenAddress : PublicKey -> PublicKey -> result PublicKey.
Variable createAssociatedTokenAccountInstruction :
  PublicKey -> PublicKey -> PublicKey -> PublicKey -> TransactionInstruction.
Variable connection : RpcNode.

Abbreviation buy :=
  (buyToken SystemProgram_programId TOKEN_PROGRAM_ID LAMPORTS_PER_SOL config
     number_toString RangeError_message new_PublicKey
     getAssociatedTokenAddress createAssociatedTokenAccountInstruction
     connection).
Abbreviation sell :=
  (sellToken SystemProgram_programId TOKEN_PROGRAM_ID LAMPORTS_PER_SOL config
     RangeError_message new_PublicKey getAssociatedTokenAddress connection).

(** [try_catch] with a handler that returns never rejects. *)
Lemma try_catch_fulfils {A : Type} (body : Async A) (recover : exn -> A)
    (log : list NetworkCall) :
  exists a log', try_catch body (fun e => ret (recover e)) log = (inr a, log').
Proof.
  unfold try_catch. destruct (body log) as [[e|a] log']; eauto.
Qed.

(** Neither operation ever rejects: every path ends in a [TradeResult]. *)
Lemma buyToken_fulfils wallet token solAmount log :
  exists r log', buy wallet token solAmount log = (inr r, log').
Proof.
  unfold buyToken. destruct wallet as [w|]; [|unfold ret; eauto].
  destruct (gtb solAmount (maxBuyAmount config)); [unfold ret; eauto|].
  apply try_catch_fulfils.
Qed.

Lemma sellToken_fulfils wallet token tokenAmount log :
  exists r log', sell wallet token tokenAmount log = (inr r, log').
Proof.
  unfold sellToken. destruct wallet as [w|]; [|unfold ret; eauto].
  apply try_catch_fulfils.
Qed.

(** C4.  With a wallet loaded, for every token and every amount strictly
    greater than the configured maximum, [buyToken] returns (does not
    throw) a failed result that carries the limit-exceeded message and
    echoes the amount, and it sends no request at all: the record of
    network calls is returned as it was. *)
Theorem buy_over_limit_fails_offline
    (wallet : Keypair) (token : PumpFunToken) (solAmount : number)
    (log : list NetworkCall) :
  gtb solAmount (maxBuyAmount config) = true ->
  buy (Some wallet) token solAmount log
  = (inr {| success := false; signature := None;
            error := Some (limit_exceeded number_toString
                             (maxBuyAmount config));
            amountIn := solAmount; amountOut := None |},
     log).
Proof.
  intros Hgt. unfold buyToken. now rewrite Hgt.
Qed.

(** C9.  With no wallet loaded, [buyToken] and [sellToken] return (do not
    throw) a failed result whose error is the uninitialized-wallet message
    and whose [amountIn] is the requested amount, and send no request. *)
Theorem no_wallet_fails_offline
    (token : PumpFunToken) (amount : number) (log : list NetworkCall) :
  buy None token amount log
    = (inr {| success := false; signature := None;
              error := Some "Wallet not initialized";
              amountIn := amount; amountOut := None |}, log)
  /\ sell None token amount log
    = (inr {| success := false; signature := None;
              error := Some "Wallet not initialized";
              amountIn := amount; amountOut := None |}, log).
Proof. split; reflexivity. Qed.

End TraderProperties.

(** ** Stream client *)

Lemma attemptReconnect_schedules (c : PumpFunWebSocket) :
  reconnectAttempts c < maxReconnectAttempts ->
  attemptReconnect c
  = (set_reconnectAttempts (reconnectAttempts c + 1) c,
     [console_log ("Attempting to reconnect in "
                     +:+ pretty (backoff_delay (reconnectAttempts c + 1) / 1000)
                     +:+ "s...");
      setTimeout_connect (backoff_delay (reconnectAttempts c + 1))]).
Proof.
  intros Hlt. unfold attemptReconnect.
  destruct (Z.leb_spec maxReconnectAttempts (reconnectAttempts c)); [lia|].
  reflexivity.
Qed.

Lemma attemptReconnect_gives_up (c : PumpFunWebSocket) :
  maxReconnectAttempts <= reconnectAttempts c ->
  attemptReconnect c = (c, [console_error "Max reconnection attempts reached"]).
Proof.
  intros Hge. unfold attemptReconnect.
  destruct (Z.leb_spec maxReconnectAttempts (reconnectAttempts c)); [|lia].
  reflexivity.
Qed.

(** The delay is the doubling one below the cap and the cap from the fifth
    attempt on. *)
Lemma backoff_delay_below_cap (n : Z) :
  0 <= n <= 4 -> backoff_delay n = 1000 * 2 ^ n.
Proof.
  intros Hn. unfold backoff_delay. apply Z.min_l.
  assert (2 ^ n <= 2 ^ 4) by (apply Z.pow_le_mono_r; lia).
  change (2 ^ 4) with 16 in *. lia.
Qed.

Lemma backoff_delay_capped (n : Z) : 5 <= n -> backoff_delay n = 30000.
Proof.
  intros Hn. unfold backoff_delay. apply Z.min_r.
  assert (2 ^ 5 <= 2 ^ n) by (apply Z.pow_le_mono_r; lia).
  change (2 ^ 5) with 32 in *. lia.
Qed.

Section StreamProperties.

Variable JSON_parse : string -> result JsonValue.
Variable socket_send : Loop -> Send.

Abbreviation step := (dispatch JSON_parse socket_send).
Abbreviation steps := (dispatch_all JSON_parse socket_send).

Lemma steps_app (l : Loop) (evs evs' : list Event) :
  steps l (evs ++ evs') = steps (steps l evs) evs'.
Proof. unfold dispatch_all. apply fold_left_app. Qed.

Lemma on_message_keeps_client (data : string) (c : PumpFunWebSocket) :
  fst (on_message JSON_parse data c) = c.
Proof.
  unfold on_message. destruct (JSON_parse data); [reflexivity|].
  destruct (handleMessage c j) as [effects [e|]]; reflexivity.
Qed.

Lemma armed_app (xs ys : list Effect) : armed (xs ++ ys) = armed xs ++ armed ys.
Proof. unfold armed. apply omap_app. Qed.

Lemma handleMessage_arms_nothing (c : PumpFunWebSocket) (m : JsonValue) :
  armed (fst (handleMessage c m)) = [].
Proof.
  unfold handleMessage. destruct m as [|t raw]; [reflexivity|].
  destruct (txType_is "create" t), (onNewToken c);
    destruct (txType_is "buy" t || txType_is "sell" t), (onTrade c);
    reflexivity.
Qed.

Lemma on_message_arms_nothing (data : string) (c : PumpFunWebSocket) :
  armed (snd (on_message JSON_parse data c)) = [].
Proof.
  unfold on_message. destruct (JSON_parse data) as [e|m]; [reflexivity|].
  pose proof (handleMessage_arms_nothing c m) as H.
  destruct (handleMessage c m) as [effects [e|]]; cbn [fst snd] in *.
  - now rewrite armed_app, H.
  - exact H.
Qed.

(** Once the attempts are used up and no timer is armed, nothing short of
    a successful connection or a call by the owner arms a timer or opens
    a socket again. *)
Lemma abandoned_is_stable (evs : list Event) (l : Loop) :
  forallb no_success evs = true ->
  maxReconnectAttempts <= reconnectAttempts (self l) ->
  timers l = [] ->
  let l' := steps l evs in
  timers l' = [] /\ opened l' = opened l
  /\ reconnectAttempts (self l') = reconnectAttempts (self l).
Proof.
  revert l. induction evs as [|ev evs IH]; intros l Hall Hmax Hno; cbn zeta.
  - auto.
  - cbn [forallb] in Hall. apply andb_true_iff in Hall as [Hev Hall].
    cbn [dispatch_all fold_left].
    assert (Hstep : timers (step l ev) = [] /\ opened (step l ev) = opened l
                    /\ reconnectAttempts (self (step l ev))
                       = reconnectAttempts (self l)).
    { destruct ev as [|frame| | | | | | | | |];
        try discriminate Hev; cbn [dispatch]; unfold run.
      - pose proof (on_message_keeps_client frame (self l)) as Hc.
        pose proof (on_message_arms_nothing frame (self l)) as Ha.
        destruct (on_message JSON_parse frame (self l)) as [c effects].
        cbn [fst snd] in *. subst c. cbn. now rewrite Hno, Ha.
      - unfold on_close.
        rewrite attemptReconnect_gives_up by exact Hmax. cbn. now rewrite Hno.
      - unfold on_error. cbn. rewrite Hno.
        now destruct (negb (isConnected (self l))).
      - now rewrite Hno.
      - cbn. now rewrite Hno. }
    destruct Hstep as (Ht & Ho & Hr).
    destruct (IH (step l ev) Hall) as (Ht' & Ho' & Hr'); [lia|exact Ht|].
    unfold dispatch_all in *. rewrite Ht', Ho', Hr'. auto.
Qed.

Lemma step_close_counts (l : Loop) :
  reconnectAttempts (self l) < 5 ->
  timers (step l socket_close)
    = timers l ++ [backoff_delay (reconnectAttempts (self l) + 1)]
  /\ reconnectAttempts (self (step l socket_close))
     = reconnectAttempts (self l) + 1
  /\ opened (step l socket_close) = opened l.
Proof.
  intros Hlt. cbn [dispatch]. unfold run, on_close.
  rewrite attemptReconnect_schedules by exact Hlt. repeat split.
Qed.

Lemma step_close_gives_up (l : Loop) :
  5 <= reconnectAttempts (self l) ->
  timers (step l socket_close) = timers l ++ []
  /\ reconnectAttempts (self (step l socket_close)) = reconnectAttempts (self l)
  /\ opened (step l socket_close) = opened l.
Proof.
  intros Hge. cbn [dispatch]. unfold run, on_close.
  rewrite attemptReconnect_gives_up by exact Hge. repeat split.
Qed.

Lemma step_error_keeps (l : Loop) :
  timers (step l socket_error) = timers l
  /\ reconnectAttempts (self (step l socket_error)) = reconnectAttempts (self l)
  /\ opened (step l socket_error) = opened l.
Proof.
  cbn [dispatch]. unfold run, on_error. cbn [self timers opened].
  destruct (negb (isConnected (self l))); cbn [armed omap];
    rewrite ?app_nil_r; repeat split.
Qed.

Lemma step_timer_connects (l : Loop) (d : Z) (rest : list Z) :
  timers l = d :: rest ->
  timers (step l timer_fires) = rest
  /\ reconnectAttempts (self (step l timer_fires)) = reconnectAttempts (self l)
  /\ opened (step l timer_fires) = S (opened l)
  /\ ws (self (step l timer_fires)) = Some (opened l).
Proof.
  intros Ht. cbn [dispatch]. rewrite Ht. unfold run_connect, run, connect.
  cbn [self timers opened armed omap]. rewrite app_nil_r. repeat split.
Qed.

(** A failed attempt consumes the armed timer, opens one socket, and arms
    the next timer unless the attempts are used up. *)
Lemma failed_attempt_counts (l : Loop) (d : Z) :
  timers l = [d] ->
  let l' := steps l failed_attempt in
  opened l' = S (opened l)
  /\ (reconnectAttempts (self l) < 5 ->
      timers l' = [backoff_delay (reconnectAttempts (self l) + 1)]
      /\ reconnectAttempts (self l') = reconnectAttempts (self l) + 1)
  /\ (5 <= reconnectAttempts (self l) ->
      timers l' = []
      /\ reconnectAttempts (self l') = reconnectAttempts (self l)).
Proof.
  intros Ht. cbn zeta. unfold failed_attempt, dispatch_all. cbn [fold_left].
  destruct (step_timer_connects l d [] Ht) as (T1 & R1 & O1 & _).
  destruct (step_error_keeps (step l timer_fires)) as (T2 & R2 & O2).
  set (l2 := step (step l timer_fires) socket_error) in *.
  split; [|split].
  - destruct (Z.lt_ge_cases (reconnectAttempts (self l2)) 5) as [H|H].
    + destruct (step_close_counts l2 H) as (_ & _ & ->). congruence.
    + destruct (step_close_gives_up l2 H) as (_ & _ & ->). congruence.
  - intros Hlt.
    destruct (step_close_counts l2) as (-> & -> & _); [lia|].
    rewrite T2, T1, R2, R1. split; reflexivity.
  - intros Hge.
    destruct (step_close_gives_up l2) as (-> & -> & _); [lia|].
    rewrite T2, T1, R2, R1. split; reflexivity.
Qed.

(** C5.  The delays before attempts 1 to 5 are 2000, 4000, 8000, 16000 and
    30000 ms, that is [min (1000 * 2^n) 30000] with the cap first reached
    at n = 5.  A close with fewer than five attempts used arms exactly
    that timer and counts the attempt; a close with five attempts used
    arms nothing.  So from a fresh counter, a dropped connection followed
    by five failed attempts arms exactly those five timers, and afterwards
    no timer is armed and no socket is opened until the owner calls
    [connect()] again; a successful connection puts the counter back to
    zero. *)
Theorem reconnect_backoff :
  map backoff_delay [1; 2; 3; 4; 5] = [2000; 4000; 8000; 16000; 30000]
  /\ (forall n, 0 <= n <= 4 -> backoff_delay n = 1000 * 2 ^ n)
  /\ (forall n, 5 <= n -> backoff_delay n = 30000)
  /\ (forall c, reconnectAttempts c < 5 ->
        armed (snd (on_close c)) = [backoff_delay (reconnectAttempts c + 1)]
        /\ reconnectAttempts (fst (on_close c)) = reconnectAttempts c + 1)
  /\ (forall c, 5 <= reconnectAttempts c ->
        armed (snd (on_close c)) = []
        /\ reconnectAttempts (fst (on_close c)) = reconnectAttempts c)
  /\ (forall c, reconnectAttempts (fst (on_open c)) = 0)
  /\ (forall l, reconnectAttempts (self l) = 0 -> timers l = [] ->
        let dropped := step l socket_close in
        let l1 := steps dropped failed_attempt in
        let l2 := steps l1 failed_attempt in
        let l3 := steps l2 failed_attempt in
        let l4 := steps l3 failed_attempt in
        let l5 := steps l4 failed_attempt in
        timers dropped = [2000] /\ timers l1 = [4000] /\ timers l2 = [8000]
        /\ timers l3 = [16000] /\ timers l4 = [30000] /\ timers l5 = []
        /\ reconnectAttempts (self l5) = 5
        /\ opened l5 = (opened l + 5)%nat
        /\ forall evs, forallb no_success evs = true ->
             timers (steps l5 evs) = [] /\ opened (steps l5 evs) = opened l5).
Proof.
  split; [reflexivity|].
  split; [exact backoff_delay_below_cap|].
  split; [exact backoff_delay_capped|].
  split; [|split; [|split]].
  - intros c Hlt. unfold on_close.
    rewrite attemptReconnect_schedules by exact Hlt. split; reflexivity.
  - intros c Hge. unfold on_close.
    rewrite attemptReconnect_gives_up by exact Hge. split; reflexivity.
  - reflexivity.
  - intros l Hc Ht. cbn zeta.
    destruct (step_close_counts l) as (T0 & R0 & O0); [lia|].
    rewrite Ht, Hc in T0. rewrite Hc in R0.
    change ([] ++ [backoff_delay (0 + 1)]) with [2000] in T0.
    change (0 + 1) with 1 in R0.
    set (l0 := step l socket_close) in *.
    destruct (failed_attempt_counts l0 _ T0) as (O1 & H1 & _).
    destruct H1 as (T1 & R1); [lia|]. rewrite R0 in T1, R1.
    change (backoff_delay (1 + 1)) with 4000 in T1. change (1 + 1) with 2 in R1.
    set (l1 := steps l0 failed_attempt) in *.
    destruct (failed_attempt_counts l1 _ T1) as (O2 & H2 & _).
    destruct H2 as (T2 & R2); [lia|]. rewrite R1 in T2, R2.
    change (backoff_delay (2 + 1)) with 8000 in T2. change (2 + 1) with 3 in R2.
    set (l2 := steps l1 failed_attempt) in *.
    destruct (failed_attempt_counts l2 _ T2) as (O3 & H3 & _).
    destruct H3 as (T3 & R3); [lia|]. rewrite R2 in T3, R3.
    change (backoff_delay (3 + 1)) with 16000 in T3. change (3 + 1) with 4 in R3.
    set (l3 := steps l2 failed_attempt) in *.
    destruct (failed_attempt_counts l3 _ T3) as (O4 & H4 & _).
    destruct H4 as (T4 & R4); [lia|]. rewrite R3 in T4, R4.
    change (backoff_delay (4 + 1)) with 30000 in T4. change (4 + 1) with 5 in R4.
    set (l4 := steps l3 failed_attempt) in *.
    destruct (failed_attempt_counts l4 _ T4) as (O5 & _ & H5).
    destruct H5 as (T5 & R5); [lia|]. rewrite R4 in R5.
    set (l5 := steps l4 failed_attempt) in *.
    repeat split; try assumption.
    + lia.
    + now apply (abandoned_is_stable evs l5); [|rewrite R5|].
    + now apply (abandoned_is_stable evs l5); [|rewrite R5|].
Qed.

(** C8.  A frame that fails to parse is logged and dropped: the client is
    left as it was (socket and connected flag included), no handler is
    called and the socket is not closed.  A parsed frame whose [txType] is
    none of ["create"], ["buy"], ["sell"] is dropped without any effect at
    all.  In the event loop neither frame arms a timer or opens a
    socket. *)
Theorem bad_frames_are_dropped (frame : string) (c : PumpFunWebSocket) :
  (forall e, JSON_parse frame = inl e ->
     on_message JSON_parse frame c
     = (c, [console_error "Error parsing WebSocket message:"]))
  /\ (forall txType raw,
        JSON_parse frame = inr (Json_with txType raw) ->
        txType_is "create" txType = false ->
        txType_is "buy" txType = false ->
        txType_is "sell" txType = false ->
        on_message JSON_parse frame c = (c, []))
  /\ fst (on_message JSON_parse frame c) = c
  /\ existsb hasSocketClose (snd (on_message JSON_parse frame c)) = false
  /\ forall l,
       self (step l (socket_message frame)) = self l
       /\ timers (step l (socket_message frame)) = timers l
       /\ opened (step l (socket_message frame)) = opened l.
Proof.
  split; [|split; [|split; [|split]]].
  - intros e He. unfold on_message. now rewrite He.
  - intros t raw Hp Hc Hb Hs. unfold on_message, handleMessage.
    rewrite Hp, Hc, Hb, Hs. reflexivity.
  - apply on_message_keeps_client.
  - unfold on_message. destruct (JSON_parse frame) as [e|m]; [reflexivity|].
    assert (H : existsb hasSocketClose (fst (handleMessage c m)) = false).
    { unfold handleMessage. destruct m as [|t raw]; [reflexivity|].
      destruct (txType_is "create" t), (onNewToken c);
        destruct (txType_is "buy" t || txType_is "sell" t), (onTrade c);
        reflexivity. }
    destruct (handleMessage c m) as [effects [e|]]; cbn [fst snd] in *.
    + rewrite existsb_app, H. reflexivity.
    + exact H.
  - intros l. cbn [dispatch]. unfold run.
    pose proof (on_message_keeps_client frame (self l)) as Hc.
    pose proof (on_message_arms_nothing frame (self l)) as Ha.
    destruct (on_message JSON_parse frame (self l)) as [c' effects].
    cbn [fst snd] in *. subst c'. cbn [self timers opened].
    rewrite Ha, app_nil_r. repeat split.
Qed.

(** C6, as amended.  [disconnect()] on a client that holds a socket closes
    that socket, drops it and marks the client as not connected;
    on a client that holds none it does nothing, so a second call changes
    nothing and has no effect.  It leaves every other field alone and it
    does not touch the reconnect timers: the ones that are armed stay
    armed. *)
Theorem disconnect_drops_the_socket (l : Loop) :
  let c := self l in
  let c' := fst (disconnect c) in
  ws c' = None
  /\ (forall sock, ws c = Some sock ->
        isConnected c' = false
        /\ snd (disconnect c)
           = [ws_close sock; console_log "Disconnected from WebSocket"])
  /\ (ws c = None -> disconnect c = (c, []))
  /\ disconnect c' = (c', [])
  /\ reconnectAttempts c' = reconnectAttempts c
  /\ onNewToken c' = onNewToken c /\ onTrade c' = onTrade c
  /\ subscribedTokens c' = subscribedTokens c
  /\ self (step l call_disconnect) = c'
  /\ timers (step l call_disconnect) = timers l
  /\ opened (step l call_disconnect) = opened l.
Proof.
  cbn zeta. cbn [dispatch]. unfold run, disconnect.
  destruct (ws (self l)) as [sock|] eqn:Hw;
    cbn [fst snd ws isConnected set_ws set_isConnected reconnectAttempts
         onNewToken onTrade subscribedTokens self timers opened armed omap];
    rewrite ?app_nil_r, ?Hw.
  - split; [reflexivity|]. split.
    { intros s [= <-]. split; reflexivity. }
    split; [discriminate|]. repeat split.
  - split; [reflexivity|]. split; [discriminate|]. repeat split.
Qed.

End StreamProperties.

Lemma subscribeToToken_without_handler (send : Send) (mintAddress : string)
    (c : PumpFunWebSocket) :
  subscribeToToken send mintAddress None c
  = (set_subscribedTokens ({[ mintAddress ]} ∪ subscribedTokens c) c,
     match ws c, isConnected c with
     | Some sock, true =>
         send_and_log send sock (subscribeTokenTrade [mintAddress])
           ("Subscribed to trades for token: " +:+ mintAddress)
     | _, _ => []
     end).
Proof.
  unfold subscribeToToken. cbn [set_subscribedTokens ws isConnected].
  destruct (ws c) as [sock|], (isConnected c); reflexivity.
Qed.

(** C10.  [subscribeToToken] without a handler adds the mint to the
    subscription set and leaves the registered trade handler, like every
    other field, as it was, whatever the socket does.  The control frame
    is sent only when a socket is held and the client is connected, and
    then to that socket and for that mint: without a socket or with the
    flag down the call has no effect at all.  With a socket and the flag
    up the client calls [send]; the frame is sent and the line logged
    when that call returns, and when it throws, which the library does on
    a socket that is still connecting, the exception reaches the caller
    and nothing is logged. *)
Theorem subscribe_without_handler (send : Send) (mintAddress : string)
    (c : PumpFunWebSocket) :
  let c' := fst (subscribeToToken send mintAddress None c) in
  let effects := snd (subscribeToToken send mintAddress None c) in
  let frame := subscribeTokenTrade [mintAddress] in
  mintAddress ∈ subscribedTokens c'
  /\ subscribedTokens c' = {[ mintAddress ]} ∪ subscribedTokens c
  /\ onTrade c' = onTrade c
  /\ onNewToken c' = onNewToken c
  /\ ws c' = ws c /\ isConnected c' = isConnected c
  /\ reconnectAttempts c' = reconnectAttempts c
  /\ (existsb hasSend effects = true -> ws c <> None /\ isConnected c = true)
  /\ (ws c = None \/ isConnected c = false -> effects = [])
  /\ (forall sock, ws c = Some sock -> isConnected c = true ->
        (send sock frame = None ->
           effects
           = [ws_send sock frame;
              console_log ("Subscribed to trades for token: " +:+ mintAddress)])
        /\ (forall e, send sock frame = Some e -> effects = [throws e])).
Proof.
  cbn zeta. rewrite subscribeToToken_without_handler. cbn [fst snd].
  split; [cbn; set_solver|].
  do 6 (split; [reflexivity|]).
  unfold send_and_log.
  destruct (ws c) as [sock|] eqn:Hw, (isConnected c) eqn:Hc.
  - split; [intros _; split; [discriminate|reflexivity]|].
    split; [intros [H|H]; discriminate H|].
    intros s [= <-] _. split.
    + intros ->. reflexivity.
    + intros e ->. reflexivity.
  - split; [discriminate|]. split; [reflexivity|]. discriminate.
  - split; [discriminate|]. split; [reflexivity|]. discriminate.
  - split; [discriminate|]. split; [reflexivity|]. discriminate.
Qed.

(** ** Pricing engine *)

Lemma mul_comm (x y : number) : mul x y = mul y x.
Proof.
  unfold mul.
  destruct x as [sx|sx| |sx mx ex], y as [sy|sy| |sy my ey]; cbn [SFmul];
    rewrite ?(xorb_comm sx sy); try reflexivity.
  now rewrite Pos.mul_comm, Z.add_comm.
Qed.

(** Counterexample to C1 as stated: in the scenario the integer rule gives
    32258064517, while the program returns a number with a fractional
    part, 8456258064516128 / 2^18 = 32258064516.129... *)
Lemma scenario_is_not_an_integer_quotient :
  scenario_out = S754_finite false 8456258064516128 (-18)
  /\ of_Z (ExpectedOut_buy_integer 1000000000 30000000000 1000000000000)
     = S754_finite false 8456258064744448 (-18)
  /\ ~ buy_output_is_integer_quotient.
Proof.
  split; [vm_compute; reflexivity|]. split; [vm_compute; reflexivity|].
  intros H.
  pose proof (H 1000000000 30000000000 1000000000000
                ltac:(lia) ltac:(lia) ltac:(lia)) as E.
  vm_compute in E. discriminate E.
Qed.

(** C1, as amended.  The buy output is
    [tokenReserve - (solReserve * tokenReserve) / (solReserve + amountIn)]
    with every operation a binary64 operation, rounded to nearest, and the
    sell output is the same expression with the roles of the two reserves
    exchanged.  In the scenario the output is the double
    8456258064516128 * 2^-18, which lies strictly between 32258064516 and
    32258064517, has integer part 32258064516 and is no integer. *)
Theorem expected_out_is_binary64 :
  (forall amountIn solReserve tokenReserve : number,
     calculateExpectedTokens amountIn solReserve tokenReserve
     = sub tokenReserve
         (div (mul solReserve tokenReserve) (add solReserve amountIn)))
  /\ (forall amountIn solReserve tokenReserve : number,
        calculateExpectedSol amountIn solReserve tokenReserve
        = calculateExpectedTokens amountIn tokenReserve solReserve)
  /\ scenario_out = S754_finite false 8456258064516128 (-18)
  /\ ltb (of_Z 32258064516) scenario_out = true
  /\ ltb scenario_out (of_Z 32258064517) = true
  /\ floor scenario_out = of_Z 32258064516
  /\ to_integer scenario_out = None
  /\ ExpectedOut_buy_integer 1000000000 30000000000 1000000000000 = 32258064517.
Proof.
  split; [reflexivity|]. split.
  - intros a s t. unfold calculateExpectedSol, calculateExpectedTokens.
    now rewrite (mul_comm s t).
  - repeat split; vm_compute; reflexivity.
Qed.

(** ** Binary64 rounding *)

Lemma fexp64_eq (e : Z) : fexp64 e = Z.max (e - 53) (-1074).
Proof. reflexivity. Qed.

Lemma fexp64_mono (e e' : Z) : e <= e' -> fexp64 e <= fexp64 e'.
Proof. rewrite !fexp64_eq. lia. Qed.

Lemma digits_pos_log2 (p : positive) :
  Zpos (digits2_pos p) = Z.log2 (Zpos p) + 1.
Proof.
  induction p as [p IH|p IH|].
  - cbn [digits2_pos]. rewrite Pos2Z.inj_succ, IH.
    change (Zpos p~1) with (2 * Zpos p + 1).
    rewrite Z.log2_succ_double by lia. lia.
  - cbn [digits2_pos]. rewrite Pos2Z.inj_succ, IH.
    change (Zpos p~0) with (2 * Zpos p).
    rewrite Z.log2_double by lia. lia.
  - reflexivity.
Qed.

Lemma digits_log2 (m : Z) : 0 < m -> digits m = Z.log2 m + 1.
Proof. destruct m; try lia. intros _. apply digits_pos_log2. Qed.

Lemma digits_0 : digits 0 = 0.
Proof. reflexivity. Qed.

Lemma digits_nonneg (m : Z) : 0 <= digits m.
Proof. destruct m; cbn; lia. Qed.

Lemma digits_bounds (m : Z) :
  0 < m -> 2 ^ (digits m - 1) <= m < 2 ^ digits m.
Proof.
  intros Hm. rewrite digits_log2 by exact Hm.
  replace (Z.log2 m + 1 - 1) with (Z.log2 m) by lia.
  pose proof (Z.log2_spec m Hm). unfold Z.succ in *. lia.
Qed.

Lemma digits_mono (a b : Z) : 0 <= a <= b -> digits a <= digits b.
Proof.
  intros [Ha Hab]. destruct (Z.eq_dec a 0) as [->|Hne].
  - apply digits_nonneg.
  - rewrite !digits_log2 by lia.
    pose proof (Z.log2_le_mono a b Hab). lia.
Qed.

Lemma digits_shift (m k : Z) :
  0 < m -> 0 <= k -> digits (m * 2 ^ k) = digits m + k.
Proof.
  intros Hm Hk.
  assert (0 < 2 ^ k) by (apply Z.pow_pos_nonneg; lia).
  rewrite !digits_log2 by nia.
  rewrite Z.log2_mul_pow2 by lia. lia.
Qed.

Lemma digits_div_pow2 (m n : Z) :
  0 < m -> 0 <= n < digits m -> digits (m / 2 ^ n) = digits m - n.
Proof.
  intros Hm Hn.
  pose proof (digits_bounds m Hm) as [Hlo _].
  assert (Hq : 0 < m / 2 ^ n).
  { apply Z.div_str_pos. split; [apply Z.pow_pos_nonneg; lia|].
    eapply Z.le_trans; [|exact Hlo]. apply Z.pow_le_mono_r; lia. }
  rewrite (digits_log2 _ Hq), (digits_log2 _ Hm).
  rewrite <- Z.shiftr_div_pow2 by lia.
  rewrite Z.log2_shiftr by lia.
  rewrite (digits_log2 _ Hm) in Hn. lia.
Qed.

(** A value below a power of two has at most that many digits. *)
Lemma digits_le_of_lt_pow2 (m d : Z) : 0 <= m < 2 ^ d -> 0 <= d -> digits m <= d.
Proof.
  intros [Hm Hlt] Hd. destruct (Z.eq_dec m 0) as [->|Hne]; [cbn; lia|].
  rewrite digits_log2 by lia.
  assert (Z.log2 m < d) by (apply Z.log2_lt_pow2; lia). lia.
Qed.

Lemma digits_ge_of_ge_pow2 (m d : Z) : 2 ^ d <= m -> 0 <= d -> d + 1 <= digits m.
Proof.
  intros Hle Hd.
  assert (0 < 2 ^ d) by (apply Z.pow_pos_nonneg; lia).
  rewrite digits_log2 by lia.
  assert (d <= Z.log2 m) by (apply Z.log2_le_pow2; lia). lia.
Qed.

(** *** Shifting right *)

Lemma shr_1_m (mrs : shr_record) :
  0 <= shr_m mrs -> shr_m (shr_1 mrs) = shr_m mrs / 2 /\ 0 <= shr_m (shr_1 mrs).
Proof.
  destruct mrs as [m r s]. cbn [shr_m]. intros Hm.
  destruct m as [|p|p]; [cbn; split; [reflexivity|lia]| |lia].
  destruct p as [p|p|]; cbn [shr_1 shr_m].
  - change (Zpos p~1) with (2 * Zpos p + 1). split; [|lia].
    apply Z.div_unique with 1; lia.
  - change (Zpos p~0) with (2 * Zpos p). split; [|lia].
    apply Z.div_unique with 0; lia.
  - split; [reflexivity|lia].
Qed.

Lemma shr_1_exact (mrs : shr_record) :
  0 <= shr_m mrs -> shr_r mrs = false -> shr_s mrs = false ->
  shr_m mrs mod 2 = 0 ->
  shr_r (shr_1 mrs) = false /\ shr_s (shr_1 mrs) = false.
Proof.
  destruct mrs as [m r s]. cbn [shr_m shr_r shr_s]. intros Hm -> -> Hev.
  destruct m as [|p|p]; [split; reflexivity| |lia].
  destruct p as [p|p|]; cbn [shr_1 shr_r shr_s orb].
  - change (Zpos p~1) with (2 * Zpos p + 1) in Hev.
    rewrite Z.add_comm, Z.mul_comm, Z.mod_add in Hev by lia. discriminate.
  - split; reflexivity.
  - discriminate.
Qed.

Lemma iter_shr_1 (n : positive) :
  forall mrs : shr_record,
    0 <= shr_m mrs ->
    shr_m (SpecFloat.iter_pos shr_1 n mrs) = shr_m mrs / 2 ^ Zpos n
    /\ 0 <= shr_m (SpecFloat.iter_pos shr_1 n mrs)
    /\ (shr_r mrs = false -> shr_s mrs = false ->
        shr_m mrs mod 2 ^ Zpos n = 0 ->
        shr_r (SpecFloat.iter_pos shr_1 n mrs) = false
        /\ shr_s (SpecFloat.iter_pos shr_1 n mrs) = false).
Proof.
  induction n as [n IH|n IH|]; intros mrs Hm; cbn [SpecFloat.iter_pos].
  - destruct (shr_1_m mrs Hm) as [E1 P1].
    destruct (IH (shr_1 mrs) P1) as (E2 & P2 & X2).
    destruct (IH (SpecFloat.iter_pos shr_1 n (shr_1 mrs)) P2) as (E3 & P3 & X3).
    assert (Hp : 0 < 2 ^ Zpos n) by (apply Z.pow_pos_nonneg; lia).
    assert (Hpow : 2 ^ Zpos n~1 = 2 * 2 ^ Zpos n * 2 ^ Zpos n).
    { rewrite Pos2Z.inj_xI.
      replace (2 * Zpos n + 1) with (1 + Zpos n + Zpos n) by lia.
      rewrite !Z.pow_add_r by lia. reflexivity. }
    split; [|split].
    + rewrite E3, E2, E1, Hpow, !Z.div_div by lia.
      f_equal. ring.
    + exact P3.
    + intros Hr Hs Hmod.
      rewrite Hpow in Hmod.
      assert (Hd : shr_m mrs = 2 * 2 ^ Zpos n * 2 ^ Zpos n * (shr_m mrs / (2 * 2 ^ Zpos n * 2 ^ Zpos n))).
      { apply Z.div_exact in Hmod; [exact Hmod|lia]. }
      set (k := shr_m mrs / (2 * 2 ^ Zpos n * 2 ^ Zpos n)) in *.
      destruct (shr_1_exact mrs Hm Hr Hs) as [R1 S1].
      { rewrite Hd. replace (2 * 2 ^ Zpos n * 2 ^ Zpos n * k) with ((2 ^ Zpos n * 2 ^ Zpos n * k) * 2) by ring.
        apply Z.mod_mul. lia. }
      assert (M1 : shr_m (shr_1 mrs) = 2 ^ Zpos n * 2 ^ Zpos n * k).
      { rewrite E1, Hd. replace (2 * 2 ^ Zpos n * 2 ^ Zpos n * k) with ((2 ^ Zpos n * 2 ^ Zpos n * k) * 2) by ring.
        apply Z.div_mul. lia. }
      destruct (X2 R1 S1) as [R2 S2].
      { rewrite M1. replace (2 ^ Zpos n * 2 ^ Zpos n * k) with ((2 ^ Zpos n * k) * 2 ^ Zpos n) by ring.
        apply Z.mod_mul. lia. }
      apply (X3 R2 S2).
      rewrite E2, M1.
      replace (2 ^ Zpos n * 2 ^ Zpos n * k) with ((2 ^ Zpos n * k) * 2 ^ Zpos n) by ring.
      rewrite Z.div_mul by lia. rewrite Z.mul_comm. apply Z.mod_mul. lia.
  - destruct (IH mrs Hm) as (E2 & P2 & X2).
    destruct (IH (SpecFloat.iter_pos shr_1 n mrs) P2) as (E3 & P3 & X3).
    assert (Hp : 0 < 2 ^ Zpos n) by (apply Z.pow_pos_nonneg; lia).
    assert (Hpow : 2 ^ Zpos n~0 = 2 ^ Zpos n * 2 ^ Zpos n).
    { rewrite Pos2Z.inj_xO. rewrite <- Z.pow_add_r by lia. f_equal. lia. }
    split; [|split].
    + rewrite E3, E2, Hpow, Z.div_div by lia. reflexivity.
    + exact P3.
    + intros Hr Hs Hmod. rewrite Hpow in Hmod.
      assert (Hd : shr_m mrs = 2 ^ Zpos n * 2 ^ Zpos n * (shr_m mrs / (2 ^ Zpos n * 2 ^ Zpos n))).
      { apply Z.div_exact in Hmod; [exact Hmod|lia]. }
      set (k := shr_m mrs / (2 ^ Zpos n * 2 ^ Zpos n)) in *.
      destruct (X2 Hr Hs) as [R2 S2].
      { rewrite Hd. replace (2 ^ Zpos n * 2 ^ Zpos n * k) with ((2 ^ Zpos n * k) * 2 ^ Zpos n) by ring.
        apply Z.mod_mul. lia. }
      apply (X3 R2 S2).
      rewrite E2, Hd.
      replace (2 ^ Zpos n * 2 ^ Zpos n * k) with ((2 ^ Zpos n * k) * 2 ^ Zpos n) by ring.
      rewrite Z.div_mul by lia. rewrite Z.mul_comm. apply Z.mod_mul. lia.
  - destruct (shr_1_m mrs Hm) as [E1 P1].
    split; [|split].
    + rewrite E1. reflexivity.
    + exact P1.
    + intros Hr Hs Hmod. apply (shr_1_exact mrs Hm Hr Hs).
      exact Hmod.
Qed.

Lemma loc_of_shr_record_of_loc (m : Z) (l : location) :
  loc_of_shr_record (shr_record_of_loc m l) = l.
Proof. destruct l as [|[| |]]; reflexivity. Qed.

Lemma shr_m_of_loc (m : Z) (l : location) : shr_m (shr_record_of_loc m l) = m.
Proof. destruct l as [|[| |]]; reflexivity. Qed.

Lemma loc_exact_flags (mrs : shr_record) :
  shr_r mrs = false -> shr_s mrs = false -> loc_of_shr_record mrs = loc_Exact.
Proof. destruct mrs as [m r s]. cbn. now intros -> ->. Qed.

(** What [shr_fexp] returns: nothing moves when the exponent is already the
    one the format wants or a larger one; otherwise the mantissa loses
    [n] bits, and the position is still exact when it was and the bits
    lost are zero. *)
Lemma shr_fexp_spec (m e : Z) (l : location) :
  0 <= m ->
  let n := fexp64 (digits m + e) - e in
  0 <= shr_m (fst (shr_fexp prec emax m e l))
  /\ (n <= 0 ->
      shr_m (fst (shr_fexp prec emax m e l)) = m
      /\ snd (shr_fexp prec emax m e l) = e
      /\ loc_of_shr_record (fst (shr_fexp prec emax m e l)) = l)
  /\ (0 < n ->
      shr_m (fst (shr_fexp prec emax m e l)) = m / 2 ^ n
      /\ snd (shr_fexp prec emax m e l) = e + n
      /\ (l = loc_Exact -> m mod 2 ^ n = 0 ->
          loc_of_shr_record (fst (shr_fexp prec emax m e l)) = loc_Exact)).
Proof.
  intros Hm n. unfold shr_fexp. fold (digits m). fold (fexp64 (digits m + e)).
  fold n. unfold shr.
  destruct n as [|p|p] eqn:En.
  - cbn [fst snd]. rewrite shr_m_of_loc, loc_of_shr_record_of_loc.
    repeat split; try lia.
  - cbn [fst snd].
    destruct (iter_shr_1 p (shr_record_of_loc m l)) as (E & P & X);
      [now rewrite shr_m_of_loc|].
    rewrite shr_m_of_loc in E, X.
    split; [exact P|]. split; [lia|]. intros _.
    split; [exact E|]. split; [reflexivity|].
    intros -> Hmod. cbn [shr_record_of_loc shr_r shr_s] in X.
    destruct (X eq_refl eq_refl Hmod) as [R S]. now apply loc_exact_flags.
  - cbn [fst snd]. rewrite shr_m_of_loc, loc_of_shr_record_of_loc.
    repeat split; try lia.
Qed.

Lemma round_nearest_even_bounds (m : Z) (l : location) :
  m <= round_nearest_even m l <= m + 1
  /\ (l = loc_Exact -> round_nearest_even m l = m).
Proof.
  destruct l as [|[| |]]; cbn [round_nearest_even];
    try destruct (Z.even m); split; try reflexivity; try discriminate; lia.
Qed.

(** Dropping [n] bits of a mantissa that is at most a grid point. *)
Lemma div_pow2_le_grid (m N n : Z) :
  0 <= n -> 0 <= m <= N * 2 ^ n ->
  m / 2 ^ n <= N /\ (m / 2 ^ n = N -> m = N * 2 ^ n).
Proof.
  intros Hn [Hm Hle].
  assert (Hp : 0 < 2 ^ n) by (apply Z.pow_pos_nonneg; lia).
  pose proof (Z.div_mod m (2 ^ n) ltac:(lia)) as Hdm.
  pose proof (Z.mod_pos_bound m (2 ^ n) Hp) as Hr.
  split.
  - apply Z.div_le_upper_bound; lia.
  - intros E. rewrite E in Hdm. nia.
Qed.

(** A mantissa at most a grid point has at most its magnitude. *)
Lemma digits_le_grid (m : Z) (mt : positive) (et e : Z) :
  e <= et -> 0 <= m <= Zpos mt * 2 ^ (et - e) ->
  digits m + e <= digits (Zpos mt) + et.
Proof.
  intros He Hm.
  pose proof (digits_mono m (Zpos mt * 2 ^ (et - e)) Hm) as H.
  rewrite digits_shift in H by lia. lia.
Qed.

Lemma pow2_split (a b : Z) : 0 <= a -> 0 <= b -> 2 ^ (a + b) = 2 ^ a * 2 ^ b.
Proof. intros. apply Z.pow_add_r; assumption. Qed.

(** *** Rounding does not cross a representable number from below

    [mx * 2^ex] is what is known of the exact value: it lies in
    [[mx * 2^ex, (mx + 1) * 2^ex)], at the lower end exactly when [lx] is
    [loc_Exact].  If that value is at most [mt * 2^et], a number whose
    exponent is the one the format wants for it or a larger one, so is the
    rounded value. *)
Lemma binary_round_aux_le (sx : bool) (mx ex : Z) (lx : location)
    (mt : positive) (et : Z) :
  0 <= mx ->
  ex <= fexp64 (digits mx + ex) ->
  fexp64 (digits (Zpos mt) + et) <= et -> et <= emax - prec ->
  ex <= et ->
  mx <= Zpos mt * 2 ^ (et - ex) ->
  (mx = Zpos mt * 2 ^ (et - ex) -> lx = loc_Exact) ->
  match binary_round_aux prec emax sx mx ex lx with
  | S754_zero s => s = sx
  | S754_finite s m e =>
      s = sx /\ ex <= e <= et /\ Zpos m <= Zpos mt * 2 ^ (et - e)
  | _ => False
  end.
Proof.
  intros Hmx HP Hcan Hmax Hexet Hle Hex.
  unfold binary_round_aux.
  pose proof (shr_fexp_spec mx ex lx Hmx) as S1. cbn zeta in S1.
  destruct (shr_fexp prec emax mx ex lx) as [mrs1 e1]. cbn [fst snd] in S1.
  destruct S1 as (P1 & Z1 & N1).
  set (n1 := fexp64 (digits mx + ex) - ex) in *.
  set (m1 := shr_m mrs1) in *.
  assert (He1 : e1 = fexp64 (digits mx + ex) /\ ex <= e1).
  { destruct (Z.eq_dec n1 0) as [E0|NE].
    - destruct Z1 as (_ & -> & _); lia.
    - destruct N1 as (_ & -> & _); lia. }
  destruct He1 as [He1 Hexe1].
  assert (He1t : e1 <= et).
  { rewrite He1. eapply Z.le_trans; [|exact Hcan]. apply fexp64_mono.
    apply digits_le_grid; [exact Hexet|lia]. }
  assert (B1 : m1 <= Zpos mt * 2 ^ (et - e1)
               /\ (m1 = Zpos mt * 2 ^ (et - e1) -> loc_of_shr_record mrs1 = loc_Exact)).
  { destruct (Z.eq_dec n1 0) as [E0|NE].
    - destruct Z1 as (Em & Ee & El); [lia|]. fold m1 in Em.
      rewrite Em, El, Ee. split; assumption.
    - destruct N1 as (Em & Ee & El); [lia|]. fold m1 in Em.
      assert (Hsplit : Zpos mt * 2 ^ (et - ex) = Zpos mt * 2 ^ (et - e1) * 2 ^ n1).
      { replace (et - ex) with ((et - e1) + n1) by lia.
        rewrite pow2_split by lia. ring. }
      destruct (div_pow2_le_grid mx (Zpos mt * 2 ^ (et - e1)) n1) as [D1 D2];
        [lia|lia|].
      rewrite Em. split; [exact D1|].
      intros E. specialize (D2 E).
      apply El.
      + apply Hex. lia.
      + rewrite D2. apply Z.mod_mul.
        assert (0 < 2 ^ n1) by (apply Z.pow_pos_nonneg; lia). lia. }
  destruct B1 as [B1 B1x].
  pose proof (round_nearest_even_bounds m1 (loc_of_shr_record mrs1)) as [R2 R2x].
  set (m2 := round_nearest_even m1 (loc_of_shr_record mrs1)) in *.
  assert (Hm2 : 0 <= m2 <= Zpos mt * 2 ^ (et - e1)).
  { split; [lia|].
    destruct (Z.eq_dec m1 (Zpos mt * 2 ^ (et - e1))) as [E|NE].
    - rewrite R2x by (apply B1x; exact E). lia.
    - lia. }
  pose proof (shr_fexp_spec m2 e1 loc_Exact (proj1 Hm2)) as S2. cbn zeta in S2.
  destruct (shr_fexp prec emax m2 e1 loc_Exact) as [mrs2 e2]. cbn [fst snd] in S2.
  destruct S2 as (P2 & Z2 & N2).
  set (n2 := fexp64 (digits m2 + e1) - e1) in *.
  assert (B2 : e1 <= e2 <= et /\ shr_m mrs2 <= Zpos mt * 2 ^ (et - e2)).
  { destruct (Z_le_gt_dec n2 0) as [Hn|Hn].
    - destruct (Z2 Hn) as (-> & -> & _). lia.
    - destruct N2 as (-> & -> & _); [lia|].
      assert (He2 : e1 + n2 <= et).
      { unfold n2. replace (e1 + (fexp64 (digits m2 + e1) - e1))
          with (fexp64 (digits m2 + e1)) by lia.
        eapply Z.le_trans; [|exact Hcan]. apply fexp64_mono.
        apply digits_le_grid; [exact He1t|exact Hm2]. }
      split; [lia|].
      apply (div_pow2_le_grid m2 (Zpos mt * 2 ^ (et - (e1 + n2))) n2); [lia|].
      split; [lia|].
      replace (Zpos mt * 2 ^ (et - (e1 + n2)) * 2 ^ n2) with (Zpos mt * 2 ^ (et - e1)).
      + lia.
      + replace (et - e1) with ((et - (e1 + n2)) + n2) by lia.
        rewrite pow2_split by lia. ring. }
  destruct B2 as [He2 B2].
  destruct (shr_m mrs2) as [|m|m].
  - reflexivity.
  - destruct (Z.leb_spec e2 (emax - prec)); [|lia].
    split; [reflexivity|]. split; [lia|exact B2].
  - lia.
Qed.

Lemma digits_mul_le (a b : Z) : 0 < a -> 0 < b -> digits (a * b) <= digits a + digits b.
Proof.
  intros Ha Hb.
  pose proof (digits_bounds a Ha) as [_ Ua].
  pose proof (digits_bounds b Hb) as [_ Ub].
  pose proof (digits_nonneg a). pose proof (digits_nonneg b).
  apply digits_le_of_lt_pow2; [|lia].
  rewrite pow2_split by lia. nia.
Qed.

Lemma new_location_exact (n : Z) : new_location n 0 = loc_Exact.
Proof. unfold new_location. destruct (Z.even n); reflexivity. Qed.

(** *** Division does not cross a representable number from below

    If the exact quotient of two positive numbers is at most the canonical
    number [mt * 2^et], so is the rounded quotient.  The hypothesis says
    [mk * 2^ek <= (mt * 2^et) * (mn * 2^en)], over the integers. *)
Lemma div_le (mk mn mt : positive) (ek en et : Z) :
  fexp64 (digits (Zpos mt) + et) = et -> et <= emax - prec ->
  (forall b, b <= ek - en -> b <= et ->
     Zpos mk * 2 ^ (ek - en - b) <= Zpos mt * Zpos mn * 2 ^ (et - b)) ->
  match div (S754_finite false mk ek) (S754_finite false mn en) with
  | S754_zero s => s = false
  | S754_finite s m e => s = false /\ e <= et /\ Zpos m <= Zpos mt * 2 ^ (et - e)
  | _ => False
  end.
Proof.
  intros Hcan Hmax H. unfold div. cbn [SFdiv xorb].
  unfold SFdiv_core_binary. fold (digits (Zpos mk)). fold (digits (Zpos mn)).
  fold (fexp64 (digits (Zpos mk) + ek - (digits (Zpos mn) + en))).
  set (d := digits (Zpos mk) + ek - (digits (Zpos mn) + en)).
  set (e' := Z.min (fexp64 d) (ek - en)).
  set (s := ek - en - e').
  assert (Hs : 0 <= s) by (unfold s, e'; lia).
  set (m' := match s with Zpos _ => Z.shiftl (Zpos mk) s | 0 => Zpos mk | Zneg _ => 0 end).
  assert (Hm' : m' = Zpos mk * 2 ^ s).
  { unfold m'. destruct s as [|p|p] eqn:Es.
    - rewrite Z.pow_0_r. lia.
    - apply Z.shiftl_mul_pow2. lia.
    - lia. }
  clearbody m'.
  assert (Hp : 0 < 2 ^ s) by (apply Z.pow_pos_nonneg; lia).
  destruct (Z.div_eucl m' (Zpos mn)) as [q r] eqn:Hqr.
  assert (Hq : q = m' / Zpos mn) by (unfold Z.div; now rewrite Hqr).
  assert (Hr : r = m' mod Zpos mn) by (unfold Z.modulo; now rewrite Hqr).
  pose proof (Z.div_mod m' (Zpos mn) ltac:(lia)) as Hdm.
  pose proof (Z.mod_pos_bound m' (Zpos mn) ltac:(lia)) as Hrb.
  rewrite <- Hq, <- Hr in Hdm. rewrite <- Hr in Hrb.
  assert (Hq0 : 0 <= q) by (rewrite Hq; apply Z.div_pos; lia).
  (* the magnitudes *)
  pose proof (digits_bounds (Zpos mk) ltac:(lia)) as [Lk Uk].
  pose proof (digits_bounds (Zpos mn) ltac:(lia)) as [Ln Un].
  pose proof (digits_bounds (Zpos mt) ltac:(lia)) as [Lt Ut].
  assert (Dk : 1 <= digits (Zpos mk)) by (rewrite digits_log2 by lia; pose proof (Z.log2_nonneg (Zpos mk)); lia).
  assert (Dn : 1 <= digits (Zpos mn)) by (rewrite digits_log2 by lia; pose proof (Z.log2_nonneg (Zpos mn)); lia).
  assert (Dt : 1 <= digits (Zpos mt)) by (rewrite digits_log2 by lia; pose proof (Z.log2_nonneg (Zpos mt)); lia).
  assert (Hd : d <= digits (Zpos mt) + et).
  { set (b := Z.min (ek - en) et).
    pose proof (H b ltac:(lia) ltac:(lia)) as Hb.
    assert (D1 : digits (Zpos mk * 2 ^ (ek - en - b))
                 <= digits (Zpos mt * Zpos mn * 2 ^ (et - b))).
    { apply digits_mono. split; [|exact Hb].
      assert (0 < 2 ^ (ek - en - b)) by (apply Z.pow_pos_nonneg; lia). nia. }
    rewrite !digits_shift in D1 by lia.
    pose proof (digits_mul_le (Zpos mt) (Zpos mn) ltac:(lia) ltac:(lia)).
    unfold d. lia. }
  assert (He't : e' <= et).
  { unfold e'. rewrite <- Hcan.
    pose proof (fexp64_mono d (digits (Zpos mt) + et) Hd). lia. }
  pose proof (H e' ltac:(unfold e'; lia) He't) as Hb. fold s in Hb.
  rewrite <- Hm' in Hb.
  assert (Hqle : q <= Zpos mt * 2 ^ (et - e')
                 /\ (q = Zpos mt * 2 ^ (et - e') -> r = 0)).
  { assert (0 < 2 ^ (et - e')) by (apply Z.pow_pos_nonneg; lia).
    split; nia. }
  destruct Hqle as [Hqle Hqx].
  assert (HP : e' <= fexp64 (digits q + e')).
  { destruct (Z_le_gt_dec (digits (Zpos mk) + s - digits (Zpos mn)) 0) as [Hsmall|Hbig].
    - assert (d <= e') by (unfold d, s in *; lia).
      assert (e' <= fexp64 d) by (unfold e'; lia).
      rewrite fexp64_eq in *. lia.
    - assert (Hge : 2 ^ (digits (Zpos mk) - 1 + s - digits (Zpos mn)) <= q).
      { rewrite Hq. apply Z.div_le_lower_bound; [lia|].
        rewrite Hm'.
        assert (E : 2 ^ (digits (Zpos mk) - 1) * 2 ^ s
                    = 2 ^ (digits (Zpos mk) - 1 + s - digits (Zpos mn))
                      * 2 ^ digits (Zpos mn)).
        { rewrite <- !pow2_split by lia. f_equal. lia. }
        assert (0 < 2 ^ (digits (Zpos mk) - 1 + s - digits (Zpos mn)))
          by (apply Z.pow_pos_nonneg; lia).
        nia. }
      pose proof (digits_ge_of_ge_pow2 q _ Hge ltac:(lia)) as Hdq.
      assert (d <= digits q + e') by (unfold d, s in *; lia).
      pose proof (fexp64_mono d (digits q + e') ltac:(lia)).
      assert (e' <= fexp64 d) by (unfold e'; lia). lia. }
  pose proof (binary_round_aux_le false q e' (new_location (Zpos mn) r) mt et
                Hq0 HP (Z.eq_le_incl _ _ Hcan) Hmax He't Hqle) as RU.
  destruct (binary_round_aux prec emax false q e' (new_location (Zpos mn) r))
    as [sz|sz| |sz mz ez].
  - apply RU. intros E. rewrite (Hqx E). apply new_location_exact.
  - apply RU. intros E. rewrite (Hqx E). apply new_location_exact.
  - apply RU. intros E. rewrite (Hqx E). apply new_location_exact.
  - destruct RU as (Hsz & Hez & Hmz).
    + intros E. rewrite (Hqx E). apply new_location_exact.
    + split; [exact Hsz|]. split; [lia|exact Hmz].
Qed.

(** *** Aligning mantissas *)

Lemma pos_iter_xO (m d : positive) : Zpos (Pos.iter xO m d) = Zpos m * 2 ^ Zpos d.
Proof.
  induction d as [|d IH] using Pos.peano_ind.
  - cbn [Pos.iter]. change (2 ^ 1) with 2. lia.
  - rewrite Pos.iter_succ, Pos2Z.inj_succ, Z.pow_succ_r by lia.
    change (Zpos (Pos.iter xO m d)~0) with (2 * Zpos (Pos.iter xO m d)).
    rewrite IH. ring.
Qed.

Lemma shl_align_spec (m : positive) (e e' : Z) :
  (e' <= e ->
   Zpos (fst (shl_align m e e')) = Zpos m * 2 ^ (e - e')
   /\ snd (shl_align m e e') = e')
  /\ (e <= e' -> shl_align m e e' = (m, e)).
Proof.
  unfold shl_align. destruct (e' - e) as [|d|d] eqn:E.
  - split; intros _; [|reflexivity]. cbn [fst snd].
    replace (e - e') with 0 by lia. rewrite Z.pow_0_r. lia.
  - split; [lia|reflexivity].
  - split; [|lia]. intros _. cbn [fst snd].
    rewrite pos_iter_xO. replace (e - e') with (Zpos d) by lia. split; reflexivity.
Qed.

(** [binary_round] first aligns the mantissa to the exponent the format
    wants, when that one is smaller, so that no bit is lost before the
    rounding proper. *)
Lemma binary_round_aligned (sx : bool) (m : positive) (e : Z) :
  exists (mz : positive) (ez : Z),
    binary_round prec emax sx m e
    = binary_round_aux prec emax sx (Zpos mz) ez loc_Exact
    /\ ez = Z.min e (fexp64 (digits (Zpos m) + e))
    /\ Zpos mz = Zpos m * 2 ^ (e - ez)
    /\ digits (Zpos mz) + ez = digits (Zpos m) + e.
Proof.
  unfold binary_round.
  change (fexp prec emax (Zpos (digits2_pos m) + e))
    with (fexp64 (digits (Zpos m) + e)).
  set (f := fexp64 (digits (Zpos m) + e)).
  destruct (shl_align_spec m e f) as [Hlt Hge].
  destruct (Z_le_gt_dec e f) as [Hef|Hef].
  - rewrite (Hge Hef). exists m, e. split; [reflexivity|]. split; [lia|].
    rewrite Z.sub_diag, Z.pow_0_r. split; [lia|reflexivity].
  - destruct (Hlt ltac:(lia)) as [Hm He].
    destruct (shl_align m e f) as [mz ez]. cbn [fst snd] in Hm, He. subst ez.
    exists mz, f. split; [reflexivity|]. split; [lia|]. split; [exact Hm|].
    rewrite Hm, digits_shift by lia. lia.
Qed.

Lemma digits_pos_ge_1 (m : positive) : 1 <= digits (Zpos m).
Proof.
  rewrite digits_log2 by lia. pose proof (Z.log2_nonneg (Zpos m)). lia.
Qed.

(** *** Subtraction *)

Lemma leb_refl_finite (m : positive) (e : Z) :
  leb (S754_finite false m e) (S754_finite false m e) = true.
Proof.
  unfold leb, SFleb. cbn [SFcompare]. rewrite Z.compare_refl.
  rewrite Pos.compare_cont_refl. reflexivity.
Qed.

(** Subtracting from a canonical positive number a positive number that is
    not above it gives a number that is neither negative nor above it. *)
Lemma sub_le (mt mq : positive) (et eq : Z) :
  fexp64 (digits (Zpos mt) + et) = et -> et <= emax - prec ->
  eq <= et -> Zpos mq <= Zpos mt * 2 ^ (et - eq) ->
  let out := sub (S754_finite false mt et) (S754_finite false mq eq) in
  leb (S754_zero false) out = true
  /\ leb out (S754_finite false mt et) = true.
Proof.
  intros Hcan Hmax Heq Hle out. subst out. unfold sub. cbn [SFsub cond_Zopp].
  replace (Z.min et eq) with eq by lia.
  destruct (shl_align_spec mt et eq) as [At _]. destruct (At Heq) as [At1 _].
  destruct (shl_align_spec mq eq eq) as [_ Aq]. rewrite (Aq (Z.le_refl eq)).
  cbn [fst]. rewrite At1.
  set (D := Zpos mt * 2 ^ (et - eq) - Zpos mq).
  assert (HD : 0 <= D) by (unfold D; lia).
  destruct D as [|D'|D'] eqn:ED; [split; reflexivity| |lia].
  cbn [binary_normalize].
  destruct (binary_round_aligned false D' eq) as (mz & ez & -> & Hez' & Hmz & Hdz).
  assert (Hez : ez <= eq) by lia.
  assert (HP : ez <= fexp64 (digits (Zpos mz) + ez)) by (rewrite Hdz; lia).
  assert (Hbound : Zpos mz <= Zpos mt * 2 ^ (et - ez)).
  { rewrite Hmz. replace (et - ez) with ((et - eq) + (eq - ez)) by lia.
    rewrite pow2_split by lia.
    assert (0 < 2 ^ (eq - ez)) by (apply Z.pow_pos_nonneg; lia).
    assert (Zpos D' <= Zpos mt * 2 ^ (et - eq)) by lia. nia. }
  pose proof (binary_round_aux_le false (Zpos mz) ez loc_Exact mt et
                ltac:(lia) HP (Z.eq_le_incl _ _ Hcan) Hmax ltac:(lia) Hbound
                (fun _ => eq_refl)) as RU.
  destruct (binary_round_aux prec emax false (Zpos mz) ez loc_Exact)
    as [so|so| |so mo eo]; try contradiction.
  - subst so. split; reflexivity.
  - destruct RU as (-> & Heo & Hmo). split; [reflexivity|].
    unfold leb, SFleb. cbn [SFcompare].
    destruct (Z.compare_spec eo et) as [E|L|G]; [|reflexivity|lia].
    subst eo. rewrite Z.sub_diag, Z.pow_0_r, Z.mul_1_r in Hmo.
    rewrite Pos.compare_cont_spec. cbn [Pos.switch_Eq].
    destruct (Pos.compare_spec mo mt); try reflexivity. lia.
Qed.

(** *** Rounding does not cross a representable number from above *)

Lemma fexp64_lt_inv (e e' : Z) : fexp64 e < fexp64 e' -> e < e'.
Proof. rewrite !fexp64_eq. lia. Qed.

(** A positive mantissa of larger magnitude denotes a larger value. *)
Lemma above_by_magnitude (m : Z) (e : Z) (ms : positive) (es : Z) :
  0 < m -> es <= e -> digits (Zpos ms) + es < digits m + e ->
  Zpos ms <= m * 2 ^ (e - es).
Proof.
  intros Hm He Hmag.
  pose proof (digits_bounds m Hm) as [Lm _].
  pose proof (digits_bounds (Zpos ms) ltac:(lia)) as [_ Us].
  pose proof (digits_pos_ge_1 ms).
  assert (Hd : 1 <= digits m).
  { rewrite digits_log2 by lia. pose proof (Z.log2_nonneg m). lia. }
  assert (Hpow : 2 ^ digits (Zpos ms) <= 2 ^ (digits m - 1) * 2 ^ (e - es)).
  { rewrite <- pow2_split by lia. apply Z.pow_le_mono_r; lia. }
  assert (0 < 2 ^ (e - es)) by (apply Z.pow_pos_nonneg; lia).
  nia.
Qed.

Lemma binary_round_aux_ge (mx ex : Z) (lx : location) (ms : positive) (es : Z) :
  0 < mx ->
  ex <= fexp64 (digits mx + ex) ->
  fexp64 (digits (Zpos ms) + es) = es ->
  ex <= es ->
  Zpos ms * 2 ^ (es - ex) <= mx ->
  match binary_round_aux prec emax false mx ex lx with
  | S754_finite s m e => s = false /\ es <= e /\ Zpos ms <= Zpos m * 2 ^ (e - es)
  | S754_infinity s => s = false
  | _ => False
  end.
Proof.
  intros Hmx HP Hcan Hexes Hle.
  unfold binary_round_aux.
  pose proof (shr_fexp_spec mx ex lx ltac:(lia)) as S1. cbn zeta in S1.
  destruct (shr_fexp prec emax mx ex lx) as [mrs1 e1]. cbn [fst snd] in S1.
  destruct S1 as (P1 & Z1 & N1).
  set (n1 := fexp64 (digits mx + ex) - ex) in *.
  set (m1 := shr_m mrs1) in *.
  assert (Hp : 0 < 2 ^ (es - ex)) by (apply Z.pow_pos_nonneg; lia).
  assert (Hdig : digits (Zpos ms) + es <= digits mx + ex).
  { pose proof (digits_mono (Zpos ms * 2 ^ (es - ex)) mx ltac:(lia)) as H.
    rewrite digits_shift in H by lia. lia. }
  pose proof (fexp64_mono _ _ Hdig) as Hf. rewrite Hcan in Hf.
  pose proof (digits_bounds mx Hmx) as [Lx Ux].
  assert (I1 : 0 < m1 /\ es <= e1 /\ Zpos ms <= m1 * 2 ^ (e1 - es)).
  { destruct (Z.eq_dec n1 0) as [E0|NE].
    - destruct Z1 as (Em & Ee & _); [lia|]. fold m1 in Em.
      assert (E : e1 - es = 0) by lia. rewrite Em, E, Z.pow_0_r.
      replace (es - ex) with 0 in Hle by lia. rewrite Z.pow_0_r in Hle. lia.
    - destruct N1 as (Em & Ee & _); [lia|]. fold m1 in Em.
      assert (He1 : e1 = fexp64 (digits mx + ex)) by lia.
      destruct (Z.eq_dec e1 es) as [Eq|Ne].
      + assert (n1 = es - ex) by lia.
        assert (ms_le : Zpos ms <= m1).
        { rewrite Em. apply Z.div_le_lower_bound; [lia|].
          replace n1 with (es - ex) by lia. lia. }
        rewrite Eq, Z.sub_diag, Z.pow_0_r. lia.
      + assert (Hlt : es < e1) by lia.
        assert (Hmag : digits (Zpos ms) + es < digits mx + ex).
        { apply fexp64_lt_inv. rewrite Hcan. lia. }
        assert (He1' : e1 = digits mx + ex - 53).
        { pose proof He1 as A. pose proof Hcan as B.
          rewrite fexp64_eq in A, B. lia. }
        assert (Hn1 : 0 <= n1 < digits mx) by lia.
        pose proof (digits_div_pow2 mx n1 Hmx Hn1) as Hd1. rewrite <- Em in Hd1.
        assert (Hm1 : 0 < m1).
        { rewrite Em. apply Z.div_str_pos. split; [apply Z.pow_pos_nonneg; lia|].
          eapply Z.le_trans; [|exact Lx]. apply Z.pow_le_mono_r; lia. }
        split; [exact Hm1|]. split; [lia|].
        apply above_by_magnitude; lia. }
  destruct I1 as (Hm1 & He1 & B1).
  pose proof (round_nearest_even_bounds m1 (loc_of_shr_record mrs1)) as [R2 _].
  set (m2 := round_nearest_even m1 (loc_of_shr_record mrs1)) in *.
  assert (Hm2 : 0 < m2) by lia.
  assert (B2 : Zpos ms <= m2 * 2 ^ (e1 - es)).
  { assert (0 < 2 ^ (e1 - es)) by (apply Z.pow_pos_nonneg; lia). nia. }
  pose proof (shr_fexp_spec m2 e1 loc_Exact ltac:(lia)) as S2. cbn zeta in S2.
  destruct (shr_fexp prec emax m2 e1 loc_Exact) as [mrs2 e2]. cbn [fst snd] in S2.
  destruct S2 as (P2 & Z2 & N2).
  set (n2 := fexp64 (digits m2 + e1) - e1) in *.
  assert (I3 : 0 < shr_m mrs2 /\ es <= e2 /\ Zpos ms <= shr_m mrs2 * 2 ^ (e2 - es)).
  { destruct (Z_le_gt_dec n2 0) as [Hn|Hn].
    - destruct (Z2 Hn) as (-> & -> & _). lia.
    - destruct N2 as (Em & Ee & _); [lia|]. rewrite Em, Ee.
      assert (He2 : e1 + n2 = digits m2 + e1 - 53).
      { pose proof Hcan as B. unfold n2 in Hn |- *.
        rewrite fexp64_eq in B, Hn |- *. lia. }
      assert (Hn2 : 0 <= n2 < digits m2) by lia.
      pose proof (digits_bounds m2 Hm2) as [L2 _].
      pose proof (digits_div_pow2 m2 n2 Hm2 Hn2) as Hd3.
      assert (Hm3 : 0 < m2 / 2 ^ n2).
      { apply Z.div_str_pos. split; [apply Z.pow_pos_nonneg; lia|].
        eapply Z.le_trans; [|exact L2]. apply Z.pow_le_mono_r; lia. }
      split; [exact Hm3|]. split; [lia|].
      apply above_by_magnitude; [exact Hm3|lia|].
      assert (digits (Zpos ms) + es < digits m2 + e1).
      { apply fexp64_lt_inv. rewrite Hcan. unfold n2 in Hn. lia. }
      lia. }
  destruct I3 as (Hm3 & He2 & B3).
  destruct (shr_m mrs2) as [|m|m]; [lia| |lia].
  destruct (Z.leb_spec e2 (emax - prec)).
  - split; [reflexivity|]. split; assumption.
  - reflexivity.
Qed.

(** *** Addition *)

(** The sum of two positive numbers is not below a canonical number that
    their exact sum is not below, unless it overflows. *)
Lemma add_ge (ms ma mg : positive) (es ea eg : Z) :
  fexp64 (digits (Zpos mg) + eg) = eg ->
  Z.min es ea <= eg ->
  Zpos mg * 2 ^ (eg - Z.min es ea)
    <= Zpos ms * 2 ^ (es - Z.min es ea) + Zpos ma * 2 ^ (ea - Z.min es ea) ->
  match add (S754_finite false ms es) (S754_finite false ma ea) with
  | S754_finite s m e => s = false /\ eg <= e /\ Zpos mg <= Zpos m * 2 ^ (e - eg)
  | S754_infinity s => s = false
  | _ => False
  end.
Proof.
  intros Hcan Hezg Hle. unfold add. cbn [SFadd cond_Zopp].
  set (ez := Z.min es ea) in *.
  destruct (shl_align_spec ms es ez) as [As _].
  destruct (As ltac:(unfold ez; lia)) as [As1 _].
  destruct (shl_align_spec ma ea ez) as [Aa _].
  destruct (Aa ltac:(unfold ez; lia)) as [Aa1 _].
  rewrite As1, Aa1.
  set (S := Zpos ms * 2 ^ (es - ez) + Zpos ma * 2 ^ (ea - ez)) in *.
  assert (Hp : 0 < 2 ^ (eg - ez)) by (apply Z.pow_pos_nonneg; lia).
  assert (HS : 0 < S) by nia.
  destruct S as [|S'|S'] eqn:ES; [lia| |lia].
  cbn [binary_normalize].
  destruct (binary_round_aligned false S' ez) as (mz & ez' & -> & Hez' & Hmz & Hdz).
  assert (Hez : ez' <= ez) by lia.
  assert (HP : ez' <= fexp64 (digits (Zpos mz) + ez')) by (rewrite Hdz; lia).
  apply binary_round_aux_ge; try assumption; try lia.
  rewrite Hmz. replace (eg - ez') with ((eg - ez) + (ez - ez')) by lia.
  rewrite pow2_split by lia.
  assert (0 < 2 ^ (ez - ez')) by (apply Z.pow_pos_nonneg; lia).
  nia.
Qed.

(** *** The pricing rule *)

Lemma valid_finite (s : bool) (m : positive) (e : Z) :
  valid (S754_finite s m e) = true ->
  fexp64 (digits (Zpos m) + e) = e /\ e <= emax - prec.
Proof.
  unfold valid. cbn [valid_binary]. unfold bounded, canonical_mantissa.
  intros H. apply andb_true_iff in H as [H1 H2].
  apply Z.eqb_eq in H1. apply Z.leb_le in H2. split; assumption.
Qed.

Lemma binary_round_aux_sign (sx : bool) (m e : Z) (l : location) :
  match binary_round_aux prec emax sx m e l with
  | S754_zero s | S754_infinity s | S754_finite s _ _ => s = sx
  | S754_nan => True
  end.
Proof.
  unfold binary_round_aux.
  destruct (shr_fexp prec emax m e l) as [mrs1 e1].
  destruct (shr_fexp prec emax _ e1 loc_Exact) as [mrs2 e2].
  destruct (shr_m mrs2); [reflexivity| |exact I].
  destruct (e2 <=? emax - prec); reflexivity.
Qed.

Lemma leb_zero_finite_pos (m : positive) (e : Z) :
  leb (of_Z 0) (S754_finite false m e) = true.
Proof. reflexivity. Qed.

(** [k <= t * n], stated at one pair of shifts, holds at every pair. *)
Lemma quotient_hypothesis (mt mk mn : positive) (et ek en es : Z) :
  es + et <= ek -> es <= en ->
  Zpos mk * 2 ^ (ek - (es + et)) <= Zpos mt * Zpos mn * 2 ^ (en - es) ->
  forall b, b <= ek - en -> b <= et ->
    Zpos mk * 2 ^ (ek - en - b) <= Zpos mt * Zpos mn * 2 ^ (et - b).
Proof.
  intros Hek Hen Hle b Hb1 Hb2.
  assert (P1 : 0 < 2 ^ (en - es)) by (apply Z.pow_pos_nonneg; lia).
  assert (P2 : 0 < 2 ^ (et - b)) by (apply Z.pow_pos_nonneg; lia).
  assert (E : 2 ^ (ek - en - b) * 2 ^ (en - es)
              = 2 ^ (ek - (es + et)) * 2 ^ (et - b)).
  { rewrite <- !pow2_split by lia. f_equal. lia. }
  apply (Z.mul_le_mono_pos_r _ _ (2 ^ (en - es)) P1).
  replace (Zpos mk * 2 ^ (ek - en - b) * 2 ^ (en - es))
    with (Zpos mk * 2 ^ (ek - (es + et)) * 2 ^ (et - b))
    by (rewrite <- !Z.mul_assoc; f_equal; symmetry; exact E).
  replace (Zpos mt * Zpos mn * 2 ^ (et - b) * 2 ^ (en - es))
    with (Zpos mt * Zpos mn * 2 ^ (en - es) * 2 ^ (et - b)) by ring.
  apply Z.mul_le_mono_nonneg_r; lia.
Qed.

(** The last two steps of the rule: if [k <= t * n] over the rationals,
    then [t - k / n], as computed, is neither negative nor above [t].  The
    hypothesis is stated over the integers, [es] being any exponent that
    makes the two shifts non-negative. *)
Lemma quotient_then_difference (mt mk mn : positive) (et ek en es : Z) :
  fexp64 (digits (Zpos mt) + et) = et -> et <= emax - prec ->
  es + et <= ek -> es <= en ->
  Zpos mk * 2 ^ (ek - (es + et)) <= Zpos mt * Zpos mn * 2 ^ (en - es) ->
  let out := sub (S754_finite false mt et)
               (div (S754_finite false mk ek) (S754_finite false mn en)) in
  leb (of_Z 0) out = true /\ leb out (S754_finite false mt et) = true.
Proof.
  intros Ct Mt Hek Hen Hle out. subst out.
  pose proof (div_le mk mn mt ek en et Ct Mt
                (quotient_hypothesis mt mk mn et ek en es Hek Hen Hle)) as Hq.
  destruct (div (S754_finite false mk ek) (S754_finite false mn en))
    as [sq|sq| |sq mq eq]; try contradiction.
  - unfold sub. cbn [SFsub]. split; [reflexivity|apply leb_refl_finite].
  - destruct Hq as (-> & Heq & Hmq).
    exact (sub_le mt mq et eq Ct Mt Heq Hmq).
Qed.

(** When the sum overflows the quotient is [+0] and the output is the
    token reserve itself. *)
Lemma quotient_by_infinity (mt mk : positive) (et ek : Z) :
  let out := sub (S754_finite false mt et)
               (div (S754_finite false mk ek) (S754_infinity false)) in
  leb (of_Z 0) out = true /\ leb out (S754_finite false mt et) = true.
Proof.
  cbn zeta. unfold div, sub. cbn [SFdiv SFsub xorb].
  split; [reflexivity|apply leb_refl_finite].
Qed.

Lemma expected_tokens_within_reserve
    (amountIn solReserve tokenReserve : number) :
  valid solReserve = true -> is_finite_pos solReserve = true ->
  valid tokenReserve = true -> is_finite_pos tokenReserve = true ->
  is_finite_nonneg amountIn = true ->
  product_is_exact solReserve tokenReserve = true ->
  let out := calculateExpectedTokens amountIn solReserve tokenReserve in
  leb (of_Z 0) out = true /\ leb out tokenReserve = true.
Proof.
  intros Vs Ps Vt Pt Pa Hex out. subst out.
  destruct solReserve as [| | |[|] ms es]; try discriminate Ps.
  destruct tokenReserve as [| | |[|] mt et]; try discriminate Pt.
  destruct (valid_finite _ _ _ Vs) as [Cs _].
  destruct (valid_finite _ _ _ Vt) as [Ct Mt].
  unfold calculateExpectedTokens.
  unfold product_is_exact in Hex.
  pose proof (binary_round_aux_sign (xorb false false) (Zpos (ms * mt)) (es + et)
                loc_Exact) as Sk.
  change (binary_round_aux prec emax (xorb false false) (Zpos (ms * mt)) (es + et)
            loc_Exact)
    with (mul (S754_finite false ms es) (S754_finite false mt et)) in Sk.
  destruct (mul (S754_finite false ms es) (S754_finite false mt et))
    as [| | |sk mk ek]; try discriminate Hex.
  cbn [xorb] in Sk. subst sk.
  apply andb_true_iff in Hex as [Hek Hmk].
  apply Z.leb_le in Hek. apply Z.eqb_eq in Hmk.
  assert (Hn : match add (S754_finite false ms es) amountIn with
               | S754_finite s m e =>
                   s = false /\ es <= e /\ Zpos ms <= Zpos m * 2 ^ (e - es)
               | S754_infinity s => s = false
               | _ => False
               end).
  { destruct amountIn as [sa| | |[|] ma ea]; try discriminate Pa.
    - unfold add. cbn [SFadd]. rewrite Z.sub_diag, Z.pow_0_r. repeat split; lia.
    - apply add_ge; [exact Cs|lia|].
      assert (0 < 2 ^ (ea - Z.min es ea)) by (apply Z.pow_pos_nonneg; lia).
      nia. }
  destruct (add (S754_finite false ms es) amountIn) as [|sn| |sn mn en];
    try contradiction.
  - subst sn. apply quotient_by_infinity.
  - destruct Hn as (-> & Hen & Hmn).
    apply (quotient_then_difference mt mk mn et ek en es); try assumption.
    rewrite Hmk.
    assert (0 < 2 ^ (en - es)) by (apply Z.pow_pos_nonneg; lia). nia.
Qed.

(** *** Integers below 2^53 *)

(** Rounding moves a value up by less than one unit of the exponent the
    format wants for it. *)
Lemma binary_round_aux_within_a_unit (sx : bool) (mx ex : Z) (lx : location) :
  0 < mx -> ex <= fexp64 (digits mx + ex) ->
  match binary_round_aux prec emax sx mx ex lx with
  | S754_finite _ m e =>
      ex <= e
      /\ Zpos m * 2 ^ (e - ex) <= mx + 2 ^ (fexp64 (digits mx + ex) - ex)
  | _ => True
  end.
Proof.
  intros Hmx HP.
  unfold binary_round_aux.
  pose proof (shr_fexp_spec mx ex lx ltac:(lia)) as S1. cbn zeta in S1.
  destruct (shr_fexp prec emax mx ex lx) as [mrs1 e1]. cbn [fst snd] in S1.
  destruct S1 as (P1 & Z1 & N1).
  set (n1 := fexp64 (digits mx + ex) - ex) in *.
  set (m1 := shr_m mrs1) in *.
  assert (Hp1 : 0 < 2 ^ n1) by (apply Z.pow_pos_nonneg; lia).
  assert (I1 : e1 = ex + n1 /\ m1 * 2 ^ n1 <= mx).
  { destruct (Z.eq_dec n1 0) as [E0|NE].
    - destruct Z1 as (Em & Ee & _); [lia|]. fold m1 in Em.
      rewrite Em, Ee, E0, Z.pow_0_r. lia.
    - destruct N1 as (Em & Ee & _); [lia|]. fold m1 in Em.
      split; [exact Ee|]. rewrite Em.
      pose proof (Z.mul_div_le mx (2 ^ n1) Hp1). lia. }
  destruct I1 as [He1 B1].
  pose proof (round_nearest_even_bounds m1 (loc_of_shr_record mrs1)) as [R2 _].
  set (m2 := round_nearest_even m1 (loc_of_shr_record mrs1)) in *.
  pose proof (shr_fexp_spec m2 e1 loc_Exact ltac:(lia)) as S2. cbn zeta in S2.
  destruct (shr_fexp prec emax m2 e1 loc_Exact) as [mrs2 e2]. cbn [fst snd] in S2.
  destruct S2 as (P2 & Z2 & N2).
  set (n2 := fexp64 (digits m2 + e1) - e1) in *.
  assert (I3 : e1 <= e2 /\ shr_m mrs2 * 2 ^ (e2 - e1) <= m2).
  { destruct (Z_le_gt_dec n2 0) as [Hn|Hn].
    - destruct (Z2 Hn) as (-> & -> & _). rewrite Z.sub_diag, Z.pow_0_r. lia.
    - destruct N2 as (-> & -> & _); [lia|].
      replace (e1 + n2 - e1) with n2 by lia.
      assert (0 < 2 ^ n2) by (apply Z.pow_pos_nonneg; lia).
      pose proof (Z.mul_div_le m2 (2 ^ n2) ltac:(lia)). lia. }
  destruct I3 as [He2 B3].
  destruct (shr_m mrs2) as [|m|m]; [exact I| |exact I].
  destruct (e2 <=? emax - prec); [|exact I].
  split; [lia|].
  replace (e2 - ex) with ((e2 - e1) + n1) by lia.
  rewrite pow2_split by lia.
  assert (0 < 2 ^ (e2 - e1)) by (apply Z.pow_pos_nonneg; lia).
  nia.
Qed.

(** A canonical number is left alone by the rounding. *)
Lemma binary_round_aux_canonical (sx : bool) (m : positive) (e : Z) :
  fexp64 (digits (Zpos m) + e) = e -> e <= emax - prec ->
  binary_round_aux prec emax sx (Zpos m) e loc_Exact = S754_finite sx m e.
Proof.
  intros Hcan Hmax. unfold binary_round_aux.
  pose proof (shr_fexp_spec (Zpos m) e loc_Exact ltac:(lia)) as S1. cbn zeta in S1.
  destruct (shr_fexp prec emax (Zpos m) e loc_Exact) as [mrs1 e1].
  cbn [fst snd] in S1. destruct S1 as (_ & Z1 & _).
  destruct Z1 as (Em & -> & El); [lia|].
  rewrite Em, El. cbn [round_nearest_even].
  pose proof (shr_fexp_spec (Zpos m) e loc_Exact ltac:(lia)) as S2. cbn zeta in S2.
  destruct (shr_fexp prec emax (Zpos m) e loc_Exact) as [mrs2 e2].
  cbn [fst snd] in S2. destruct S2 as (_ & Z2 & _).
  destruct Z2 as (-> & -> & _); [lia|].
  destruct (Z.leb_spec e (emax - prec)); [reflexivity|lia].
Qed.

(** A positive integer below 2^53 is a number, exactly: 53 significant
    bits at the exponent that its size calls for. *)
Lemma of_Z_exact (z : Z) :
  0 < z < 2 ^ 53 ->
  exists m : positive,
    of_Z z = S754_finite false m (digits z - 53)
    /\ Zpos m = z * 2 ^ (53 - digits z)
    /\ digits (Zpos m) = 53
    /\ fexp64 (digits (Zpos m) + (digits z - 53)) = digits z - 53
    /\ 1 <= digits z <= 53.
Proof.
  intros [Hz Hlt]. destruct z as [|p|p]; try lia.
  assert (Hd : 1 <= digits (Zpos p) <= 53).
  { split; [apply digits_pos_ge_1|]. apply digits_le_of_lt_pow2; lia. }
  unfold of_Z. cbn [binary_normalize].
  destruct (binary_round_aligned false p 0) as (mz & ez & -> & Hez & Hmz & Hdz).
  rewrite Z.add_0_r, fexp64_eq in Hez.
  assert (Ez : ez = digits (Zpos p) - 53) by lia. clear Hez. subst ez.
  assert (Hcan : fexp64 (digits (Zpos mz) + (digits (Zpos p) - 53))
                 = digits (Zpos p) - 53).
  { rewrite Hdz, Z.add_0_r, fexp64_eq. lia. }
  exists mz. split; [|split; [|split; [|split]]].
  - apply binary_round_aux_canonical; [exact Hcan|]. unfold emax, prec. lia.
  - rewrite Hmz. f_equal. f_equal. lia.
  - lia.
  - exact Hcan.
  - exact Hd.
Qed.

Lemma of_Z_valid (z : Z) :
  0 < z < 2 ^ 53 -> valid (of_Z z) = true /\ is_finite_pos (of_Z z) = true.
Proof.
  intros Hz. destruct (of_Z_exact z Hz) as (m & -> & _ & _ & Hcan & Hd).
  split; [|reflexivity].
  unfold valid. cbn [valid_binary]. unfold bounded, canonical_mantissa.
  apply andb_true_iff. split.
  - apply Z.eqb_eq. exact Hcan.
  - apply Z.leb_le. unfold emax, prec. lia.
Qed.

Lemma pow2_le_mono (a b : Z) : 0 <= a <= b -> 2 ^ a <= 2 ^ b.
Proof. intros. apply Z.pow_le_mono_r; lia. Qed.

(** The sum of two positive numbers is not above a number, of an exponent
    that the format accepts for it, that their exact sum is not above. *)
Lemma add_le (ms ma mg : positive) (es ea eg : Z) :
  fexp64 (digits (Zpos mg) + eg) <= eg -> eg <= emax - prec ->
  Z.min es ea <= eg ->
  Zpos ms * 2 ^ (es - Z.min es ea) + Zpos ma * 2 ^ (ea - Z.min es ea)
    <= Zpos mg * 2 ^ (eg - Z.min es ea) ->
  match add (S754_finite false ms es) (S754_finite false ma ea) with
  | S754_zero s => s = false
  | S754_finite s m e => s = false /\ e <= eg /\ Zpos m <= Zpos mg * 2 ^ (eg - e)
  | _ => False
  end.
Proof.
  intros Hcan Hmax Hezg Hle. unfold add. cbn [SFadd cond_Zopp].
  set (ez := Z.min es ea) in *.
  destruct (shl_align_spec ms es ez) as [As _].
  destruct (As ltac:(unfold ez; lia)) as [As1 _].
  destruct (shl_align_spec ma ea ez) as [Aa _].
  destruct (Aa ltac:(unfold ez; lia)) as [Aa1 _].
  rewrite As1, Aa1.
  set (S := Zpos ms * 2 ^ (es - ez) + Zpos ma * 2 ^ (ea - ez)) in *.
  assert (Hp1 : 0 < 2 ^ (es - ez)) by (apply Z.pow_pos_nonneg; unfold ez; lia).
  assert (Hp2 : 0 < 2 ^ (ea - ez)) by (apply Z.pow_pos_nonneg; unfold ez; lia).
  assert (HS : 0 < S) by (unfold S; nia).
  destruct S as [|S'|S'] eqn:ES; [lia| |lia].
  cbn [binary_normalize].
  destruct (binary_round_aligned false S' ez) as (mz & ez' & -> & Hez' & Hmz & Hdz).
  assert (Hez : ez' <= ez) by lia.
  assert (HP : ez' <= fexp64 (digits (Zpos mz) + ez')) by (rewrite Hdz; lia).
  assert (Hbound : Zpos mz <= Zpos mg * 2 ^ (eg - ez')).
  { rewrite Hmz. replace (eg - ez') with ((eg - ez) + (ez - ez')) by lia.
    rewrite pow2_split, Z.mul_assoc by lia.
    apply Z.mul_le_mono_nonneg_r; [apply Z.pow_nonneg; lia|exact Hle]. }
  pose proof (binary_round_aux_le false (Zpos mz) ez' loc_Exact mg eg
                ltac:(lia) HP Hcan Hmax ltac:(lia) Hbound (fun _ => eq_refl)) as RU.
  destruct (binary_round_aux prec emax false (Zpos mz) ez' loc_Exact)
    as [so|so| |so mo eo]; try contradiction.
  - exact RU.
  - destruct RU as (-> & Heo & Hmo). split; [reflexivity|]. split; [lia|exact Hmo].
Qed.

(** The quotient of two positive numbers is at least the power of two
    just below the quotient of their leading powers of two. *)
Lemma div_ge_pow2 (mk mn : positive) (ek en : Z) :
  let d := digits (Zpos mk) + ek - (digits (Zpos mn) + en) in
  -1074 <= d - 53 ->
  match div (S754_finite false mk ek) (S754_finite false mn en) with
  | S754_finite s m e =>
      s = false /\ d - 53 <= e /\ 2 ^ 52 <= Zpos m * 2 ^ (e - (d - 53))
  | S754_infinity s => s = false
  | _ => False
  end.
Proof.
  intros d Hd. unfold div. cbn [SFdiv xorb].
  unfold SFdiv_core_binary. fold (digits (Zpos mk)). fold (digits (Zpos mn)).
  fold (fexp64 (digits (Zpos mk) + ek - (digits (Zpos mn) + en))).
  fold d.
  assert (Fd : fexp64 d = d - 53) by (rewrite fexp64_eq; lia).
  set (e' := Z.min (fexp64 d) (ek - en)).
  assert (He' : e' <= d - 53 /\ e' <= ek - en) by (unfold e'; lia).
  set (s := ek - en - e').
  assert (Hs : 0 <= s) by (unfold s; lia).
  set (m' := match s with Zpos _ => Z.shiftl (Zpos mk) s | 0 => Zpos mk | Zneg _ => 0 end).
  assert (Hm' : m' = Zpos mk * 2 ^ s).
  { unfold m'. destruct s as [|p|p] eqn:Es.
    - rewrite Z.pow_0_r. lia.
    - apply Z.shiftl_mul_pow2. lia.
    - lia. }
  clearbody m'.
  destruct (Z.div_eucl m' (Zpos mn)) as [q r] eqn:Hqr.
  assert (Hq : q = m' / Zpos mn) by (unfold Z.div; now rewrite Hqr).
  pose proof (digits_bounds (Zpos mk) ltac:(lia)) as [Lk _].
  pose proof (digits_bounds (Zpos mn) ltac:(lia)) as [_ Un].
  pose proof (digits_pos_ge_1 mk) as Dk. pose proof (digits_pos_ge_1 mn) as Dn.
  assert (Hc : 52 <= d - 1 - e') by lia.
  assert (Hge : 2 ^ (d - 1 - e') <= q).
  { rewrite Hq. apply Z.div_le_lower_bound; [lia|]. rewrite Hm'.
    assert (E : 2 ^ (digits (Zpos mk) - 1) * 2 ^ s
                = 2 ^ (d - 1 - e') * 2 ^ digits (Zpos mn)).
    { rewrite <- !pow2_split by lia. f_equal. unfold d, s. lia. }
    assert (0 < 2 ^ (d - 1 - e')) by (apply Z.pow_pos_nonneg; lia).
    assert (0 < 2 ^ s) by (apply Z.pow_pos_nonneg; lia).
    apply Z.le_trans with (2 ^ (d - 1 - e') * 2 ^ digits (Zpos mn)).
    - rewrite (Z.mul_comm (Zpos mn)). apply Z.mul_le_mono_nonneg_l; lia.
    - rewrite <- E. apply Z.mul_le_mono_nonneg_r; lia. }
  assert (Hq0 : 0 < q).
  { assert (0 < 2 ^ (d - 1 - e')) by (apply Z.pow_pos_nonneg; lia). lia. }
  pose proof (digits_ge_of_ge_pow2 q _ Hge ltac:(lia)) as Hdq.
  assert (HP : e' <= fexp64 (digits q + e')).
  { pose proof (fexp64_mono d (digits q + e') ltac:(lia)). lia. }
  apply (binary_round_aux_ge q e' (new_location (Zpos mn) r) (2 ^ 52)%positive
           (d - 53) Hq0 HP).
  - change (digits (Zpos (2 ^ 52))) with 53.
    replace (53 + (d - 53)) with d by lia. exact Fd.
  - lia.
  - change (Zpos (2 ^ 52)) with (2 ^ 52). rewrite <- pow2_split by lia.
    replace (52 + (d - 53 - e')) with (d - 1 - e') by lia. exact Hge.
Qed.

(** Subtracting from a canonical positive number a positive number that is
    not above it and not below one unit of its exponent gives a number
    strictly below it. *)
Lemma sub_lt (mt mq : positive) (et eq : Z) :
  fexp64 (digits (Zpos mt) + et) = et -> et <= emax - prec ->
  eq <= et -> Zpos mq <= Zpos mt * 2 ^ (et - eq) -> 2 ^ (et - eq) <= Zpos mq ->
  ltb (sub (S754_finite false mt et) (S754_finite false mq eq))
      (S754_finite false mt et) = true.
Proof.
  intros Hcan Hmax Heq Hle Hge. unfold sub. cbn [SFsub cond_Zopp].
  replace (Z.min et eq) with eq by lia.
  destruct (shl_align_spec mt et eq) as [At _]. destruct (At Heq) as [At1 _].
  destruct (shl_align_spec mq eq eq) as [_ Aq]. rewrite (Aq (Z.le_refl eq)).
  cbn [fst]. rewrite At1.
  assert (Hp : 0 < 2 ^ (et - eq)) by (apply Z.pow_pos_nonneg; lia).
  set (D := Zpos mt * 2 ^ (et - eq) - Zpos mq).
  assert (HD : 0 <= D <= (Zpos mt - 1) * 2 ^ (et - eq)) by (unfold D; lia).
  destruct D as [|D'|D'] eqn:ED; [reflexivity| |lia].
  cbn [binary_normalize].
  assert (Hmt : 1 < Zpos mt) by nia.
  assert (Epred : Zpos (Pos.pred mt) = Zpos mt - 1) by lia.
  destruct (binary_round_aligned false D' eq) as (mz & ez & -> & Hez' & Hmz & Hdz).
  assert (Hez : ez <= eq) by lia.
  assert (HP : ez <= fexp64 (digits (Zpos mz) + ez)) by (rewrite Hdz; lia).
  assert (Hbound : Zpos mz <= Zpos (Pos.pred mt) * 2 ^ (et - ez)).
  { rewrite Hmz, Epred. replace (et - ez) with ((et - eq) + (eq - ez)) by lia.
    rewrite pow2_split, Z.mul_assoc by lia.
    apply Z.mul_le_mono_nonneg_r; [apply Z.pow_nonneg; lia|lia]. }
  assert (Hcan' : fexp64 (digits (Zpos (Pos.pred mt)) + et) <= et).
  { rewrite <- Hcan at 2. apply fexp64_mono.
    pose proof (digits_mono (Zpos (Pos.pred mt)) (Zpos mt) ltac:(lia)). lia. }
  pose proof (binary_round_aux_le false (Zpos mz) ez loc_Exact (Pos.pred mt) et
                ltac:(lia) HP Hcan' Hmax ltac:(lia) Hbound (fun _ => eq_refl)) as RU.
  destruct (binary_round_aux prec emax false (Zpos mz) ez loc_Exact)
    as [so|so| |so mo eo]; try contradiction.
  - subst so. reflexivity.
  - destruct RU as (-> & Heo & Hmo).
    unfold ltb, SFltb. cbn [SFcompare].
    destruct (Z.compare_spec eo et) as [E|L|G]; [|reflexivity|lia].
    subst eo. rewrite Z.sub_diag, Z.pow_0_r, Z.mul_1_r in Hmo.
    rewrite Pos.compare_cont_spec. cbn [Pos.switch_Eq].
    destruct (Pos.compare_spec mo mt); try reflexivity; lia.
Qed.

(** If moreover [k] is larger than [n] by more than the exponent of [t] in
    magnitude, the computed [t - k / n] is strictly below [t]. *)
Lemma quotient_then_difference_strict (mt mk mn : positive) (et ek en es : Z) :
  fexp64 (digits (Zpos mt) + et) = et -> et <= emax - prec ->
  es + et <= ek -> es <= en ->
  Zpos mk * 2 ^ (ek - (es + et)) <= Zpos mt * Zpos mn * 2 ^ (en - es) ->
  -1074 <= et - 52 ->
  et + 1 <= digits (Zpos mk) + ek - (digits (Zpos mn) + en) ->
  ltb (sub (S754_finite false mt et)
         (div (S754_finite false mk ek) (S754_finite false mn en)))
      (S754_finite false mt et) = true.
Proof.
  intros Ct Mt Hek Hen Hle Hnorm Hd.
  pose proof (div_le mk mn mt ek en et Ct Mt
                (quotient_hypothesis mt mk mn et ek en es Hek Hen Hle)) as Hq.
  pose proof (div_ge_pow2 mk mn ek en ltac:(lia)) as Hq'. cbn zeta in Hq'.
  set (d := digits (Zpos mk) + ek - (digits (Zpos mn) + en)) in *.
  destruct (div (S754_finite false mk ek) (S754_finite false mn en))
    as [sq|sq| |sq mq eq]; try contradiction.
  destruct Hq as (-> & Heq & Hmq). destruct Hq' as (_ & Heq' & Hmq').
  apply sub_lt; try assumption.
  (* 2^52 <= mq * 2^c with c = eq - (d - 53) <= 52 - (et - eq) *)
  set (c := eq - (d - 53)) in *.
  assert (Hc : 0 <= c /\ et - eq + c <= 52) by (unfold c; lia).
  assert (Hpc : 0 < 2 ^ c) by (apply Z.pow_pos_nonneg; lia).
  assert (E : 2 ^ (et - eq) * 2 ^ c <= 2 ^ 52).
  { rewrite <- pow2_split by lia. apply Z.pow_le_mono_r; lia. }
  apply (Z.mul_le_mono_pos_r _ _ (2 ^ c) Hpc). lia.
Qed.

(** The product of two integers below 2^53, as numbers with 53-bit
    mantissas: finite, within one unit of the exact product, and of the
    magnitude of the exact product at least. *)
Lemma product_of_integers (ms mt : positive) (es et : Z) :
  digits (Zpos ms) = 53 -> digits (Zpos mt) = 53 ->
  -52 <= es <= 0 -> -52 <= et <= 0 ->
  exists (mk : positive) (ek : Z),
    mul (S754_finite false ms es) (S754_finite false mt et)
    = S754_finite false mk ek
    /\ es + et <= ek
    /\ Zpos mk * 2 ^ (ek - (es + et)) <= Zpos ms * Zpos mt + 2 ^ 53
    /\ 105 + es + et <= digits (Zpos mk) + ek.
Proof.
  intros Dms Dmt Hes Het.
  assert (Hprod : 2 ^ 104 <= Zpos ms * Zpos mt < 2 ^ 106).
  { pose proof (digits_bounds (Zpos ms) ltac:(lia)) as [L1 U1].
    pose proof (digits_bounds (Zpos mt) ltac:(lia)) as [L2 U2].
    rewrite Dms in L1, U1. rewrite Dmt in L2, U2.
    change (53 - 1) with 52 in *.
    change (2 ^ 104) with (2 ^ 52 * 2 ^ 52). change (2 ^ 106) with (2 ^ 53 * 2 ^ 53).
    split.
    - apply Z.mul_le_mono_nonneg; lia.
    - apply Z.mul_lt_mono_nonneg; lia. }
  assert (Dk : 105 <= digits (Zpos ms * Zpos mt) <= 106).
  { split.
    - apply (digits_ge_of_ge_pow2 _ 104); lia.
    - apply digits_le_of_lt_pow2; lia. }
  set (M := digits (Zpos ms * Zpos mt) + (es + et)).
  assert (Fk : fexp64 (digits (Zpos (ms * mt)) + (es + et)) = M - 53).
  { rewrite Pos2Z.inj_mul, fexp64_eq. unfold M. lia. }
  assert (HP : es + et <= fexp64 (digits (Zpos (ms * mt)) + (es + et)))
    by (rewrite Fk; unfold M; lia).
  pose proof (binary_round_aux_within_a_unit false (Zpos (ms * mt)) (es + et)
                loc_Exact ltac:(lia) HP) as Hk.
  pose proof (binary_round_aux_sign false (Zpos (ms * mt)) (es + et) loc_Exact) as Sk.
  pose proof (binary_round_aux_le false (Zpos (ms * mt)) (es + et) loc_Exact
                (2 ^ 52)%positive 54 ltac:(lia) HP
                ltac:(apply Z.eq_le_incl; reflexivity)
                ltac:(unfold emax, prec; lia) ltac:(lia)) as Hfin.
  pose proof (binary_round_aux_ge (Zpos (ms * mt)) (es + et) loc_Exact
                (2 ^ 52)%positive (M - 53) ltac:(lia) HP) as Hlow.
  change (mul (S754_finite false ms es) (S754_finite false mt et))
    with (binary_round_aux prec emax false (Zpos (ms * mt)) (es + et) loc_Exact).
  assert (Hfin' : Zpos (ms * mt) <= Zpos (2 ^ 52) * 2 ^ (54 - (es + et))
                  /\ (Zpos (ms * mt) = Zpos (2 ^ 52) * 2 ^ (54 - (es + et))
                      -> loc_Exact = loc_Exact)).
  { split; [|reflexivity]. rewrite Pos2Z.inj_mul.
    change (Zpos (2 ^ 52)) with (2 ^ 52). rewrite <- pow2_split by lia.
    eapply Z.le_trans; [apply Z.lt_le_incl, (proj2 Hprod)|].
    apply pow2_le_mono. lia. }
  specialize (Hfin (proj1 Hfin') (proj2 Hfin')).
  assert (Hlow' : fexp64 (digits (Zpos (2 ^ 52)) + (M - 53)) = M - 53
                  /\ es + et <= M - 53
                  /\ Zpos (2 ^ 52) * 2 ^ (M - 53 - (es + et)) <= Zpos (ms * mt)).
  { change (digits (Zpos (2 ^ 52))) with 53.
    split; [rewrite fexp64_eq; unfold M; lia|]. split; [unfold M; lia|].
    change (Zpos (2 ^ 52)) with (2 ^ 52). rewrite <- pow2_split by (unfold M; lia).
    replace (52 + (M - 53 - (es + et))) with (digits (Zpos ms * Zpos mt) - 1)
      by (unfold M; lia).
    rewrite Pos2Z.inj_mul. apply digits_bounds. lia. }
  destruct Hlow' as (L1 & L2 & L3). specialize (Hlow L1 L2 L3).
  destruct (binary_round_aux prec emax false (Zpos (ms * mt)) (es + et) loc_Exact)
    as [sk|sk| |sk mk ek]; try contradiction.
  subst sk. destruct Hk as [Hek Hmk]. destruct Hlow as (_ & Hek' & Hmk').
  exists mk, ek. split; [reflexivity|]. split; [exact Hek|]. split.
  - eapply Z.le_trans; [exact Hmk|]. rewrite Fk, Pos2Z.inj_mul.
    apply Z.add_le_mono_l. apply pow2_le_mono. unfold M. lia.
  - assert (H53 : 53 <= digits (Zpos mk * 2 ^ (ek - (M - 53)))).
    { apply (digits_ge_of_ge_pow2 _ 52); [|lia].
      change (Zpos (2 ^ 52)) with (2 ^ 52) in Hmk'. exact Hmk'. }
    rewrite digits_shift in H53 by lia. unfold M in *. lia.
Qed.

Lemma expected_tokens_on_integers (amountIn solReserve tokenReserve : Z) :
  0 < solReserve < 2 ^ 52 -> 0 < tokenReserve < 2 ^ 53 -> 0 < amountIn < 2 ^ 53 ->
  let out := calculateExpectedTokens
               (of_Z amountIn) (of_Z solReserve) (of_Z tokenReserve) in
  leb (of_Z 0) out = true
  /\ leb out (of_Z tokenReserve) = true
  /\ (amountIn < 2 ^ 50 -> ltb out (of_Z tokenReserve) = true).
Proof.
  intros HS HT HA out. subst out.
  destruct (of_Z_exact solReserve ltac:(lia)) as (ms & -> & Ems & Dms & Cs & Ds).
  destruct (of_Z_exact tokenReserve HT) as (mt & -> & Emt & Dmt & Ct & Dt).
  destruct (of_Z_exact amountIn HA) as (ma & -> & Ema & Dma & Ca & Da).
  destruct (of_Z_exact (solReserve + 1) ltac:(lia)) as (mg & _ & Emg & Dmg & Cg & Dg).
  set (es := digits solReserve - 53) in *.
  set (et := digits tokenReserve - 53) in *.
  set (ea := digits amountIn - 53) in *.
  set (eg := digits (solReserve + 1) - 53) in *.
  assert (Hs52 : digits solReserve <= 52) by (apply digits_le_of_lt_pow2; lia).
  assert (Hesg : es <= eg).
  { unfold es, eg. pose proof (digits_mono solReserve (solReserve + 1) ltac:(lia)). lia. }
  assert (Hez : Z.min es ea <= es /\ Z.min es ea <= ea /\ Z.min es ea <= 0)
    by (unfold es, ea; lia).
  set (ez := Z.min es ea) in *.
  assert (Hpz : 0 < 2 ^ (- ez)) by (apply Z.pow_pos_nonneg; lia).
  assert (Es : Zpos ms * 2 ^ (es - ez) = solReserve * 2 ^ (- ez)).
  { rewrite Ems. replace (53 - digits solReserve) with (- es) by (unfold es; lia).
    rewrite <- Z.mul_assoc, <- pow2_split by (unfold es in *; lia).
    f_equal. f_equal. lia. }
  assert (Ea : Zpos ma * 2 ^ (ea - ez) = amountIn * 2 ^ (- ez)).
  { rewrite Ema. replace (53 - digits amountIn) with (- ea) by (unfold ea; lia).
    rewrite <- Z.mul_assoc, <- pow2_split by (unfold ea in *; lia).
    f_equal. f_equal. lia. }
  assert (Eg : Zpos mg * 2 ^ (eg - ez) = (solReserve + 1) * 2 ^ (- ez)).
  { rewrite Emg. replace (53 - digits (solReserve + 1)) with (- eg) by (unfold eg; lia).
    rewrite <- Z.mul_assoc, <- pow2_split by (unfold eg in *; lia).
    f_equal. f_equal. lia. }
  unfold calculateExpectedTokens.
  (* the sum is at least solReserve + 1 *)
  pose proof (add_ge ms ma mg es ea eg Cg ltac:(lia)) as Hn. fold ez in Hn.
  rewrite Es, Ea, Eg in Hn.
  specialize (Hn ltac:(rewrite <- Z.mul_add_distr_r;
                       apply Z.mul_le_mono_nonneg_r; lia)).
  (* and, for an amount below 2^50, at most 2^(digits solReserve + 50) *)
  pose proof (add_le ms ma (2 ^ 52)%positive es ea (es + 51)
                ltac:(apply Z.eq_le_incl; change (digits (Zpos (2 ^ 52))) with 53;
                      rewrite fexp64_eq; unfold es; lia)
                ltac:(unfold emax, prec, es; lia) ltac:(lia)) as Hn'.
  fold ez in Hn'. rewrite Es, Ea in Hn'.
  (* the product *)
  destruct (product_of_integers ms mt es et Dms Dmt)
    as (mk & ek & -> & Hek & Hmk & Hmag);
    [unfold es; lia|unfold et; lia|].
  assert (Hmax : et <= emax - prec) by (unfold emax, prec, et; lia).
  destruct (add (S754_finite false ms es) (S754_finite false ma ea))
    as [|sn| |sn mn en]; try contradiction.
  - (* the sum overflows *)
    destruct (Z_lt_ge_dec amountIn (2 ^ 50)) as [Hsmall|Hbig].
    + exfalso. apply Hn'.
      change (Zpos (2 ^ 52)) with (2 ^ 52).
      rewrite <- Z.mul_add_distr_r, <- pow2_split by lia.
      replace (52 + (es + 51 - ez)) with ((digits solReserve + 50) + (- ez))
        by (unfold es; lia).
      rewrite pow2_split by lia. apply Z.mul_le_mono_nonneg_r; [lia|].
      pose proof (digits_bounds solReserve ltac:(lia)) as [_ US].
      rewrite pow2_split by lia.
      assert (2 <= 2 ^ digits solReserve).
      { change 2 with (2 ^ 1) at 1. apply pow2_le_mono. lia. }
      nia.
    + destruct (quotient_by_infinity mt mk et ek) as [O1 O2]. subst sn.
      split; [exact O1|]. split; [exact O2|]. lia.
  - destruct Hn as (-> & Hen & Hmn).
    assert (Hg : Zpos ms + 2 ^ (- es) <= Zpos mn * 2 ^ (en - es)).
    { assert (E1 : Zpos ms + 2 ^ (- es) = (solReserve + 1) * 2 ^ (- es)).
      { rewrite Ems. replace (53 - digits solReserve) with (- es) by (unfold es; lia).
        ring. }
      assert (E2 : Zpos mg * 2 ^ (eg - es) = (solReserve + 1) * 2 ^ (- es)).
      { rewrite Emg. replace (53 - digits (solReserve + 1)) with (- eg)
          by (unfold eg; lia).
        rewrite <- Z.mul_assoc, <- pow2_split by (unfold eg, es in *; lia).
        f_equal. f_equal. lia. }
      rewrite E1, <- E2.
      replace (en - es) with ((en - eg) + (eg - es)) by lia.
      rewrite pow2_split, Z.mul_assoc by lia.
      apply Z.mul_le_mono_nonneg_r; [apply Z.pow_nonneg; lia|exact Hmn]. }
    assert (Hunit : 2 ^ 53 <= Zpos mt * 2 ^ (- es)).
    { pose proof (digits_bounds (Zpos mt) ltac:(lia)) as [L2 _].
      rewrite Dmt in L2. change (53 - 1) with 52 in L2.
      assert (2 ^ 1 <= 2 ^ (- es)) by (apply pow2_le_mono; unfold es; lia).
      change (2 ^ 53) with (2 ^ 52 * 2 ^ 1).
      apply Z.mul_le_mono_nonneg; lia. }
    assert (Hle : Zpos mk * 2 ^ (ek - (es + et))
                  <= Zpos mt * Zpos mn * 2 ^ (en - es)).
    { eapply Z.le_trans; [exact Hmk|].
      apply Z.le_trans with (Zpos mt * (Zpos ms + 2 ^ (- es))).
      - rewrite Z.mul_add_distr_l. lia.
      - rewrite <- Z.mul_assoc. apply Z.mul_le_mono_nonneg_l; [lia|exact Hg]. }
    destruct (quotient_then_difference mt mk mn et ek en es Ct Hmax Hek
                ltac:(lia) Hle) as [O1 O2].
    split; [exact O1|]. split; [exact O2|].
    intros Hsmall.
    apply (quotient_then_difference_strict mt mk mn et ek en es Ct Hmax Hek
             ltac:(lia) Hle ltac:(unfold et; lia)).
    (* the magnitude of the sum is at most that of solReserve plus 51 *)
    destruct Hn' as (_ & Hen' & Hmn').
    { change (Zpos (2 ^ 52)) with (2 ^ 52).
      rewrite <- Z.mul_add_distr_r, <- pow2_split by lia.
      replace (52 + (es + 51 - ez)) with ((digits solReserve + 50) + (- ez))
        by (unfold es; lia).
      rewrite pow2_split by lia. apply Z.mul_le_mono_nonneg_r; [lia|].
      pose proof (digits_bounds solReserve ltac:(lia)) as [_ US].
      rewrite pow2_split by lia.
      assert (2 <= 2 ^ digits solReserve).
      { change 2 with (2 ^ 1) at 1. apply pow2_le_mono. lia. }
      nia. }
    pose proof (digits_le_grid (Zpos mn) (2 ^ 52)%positive (es + 51) en Hen'
                  ltac:(lia)) as Hdn.
    change (digits (Zpos (2 ^ 52))) with 53 in Hdn.
    lia.
Qed.

Example scenario_product_is_exact :
  product_is_exact (of_Z 30000000000) (of_Z 1000000000000) = true.
Proof. vm_compute. reflexivity. Qed.

Example rounded_product :
  product_is_exact (of_Z 30001000000) (of_Z 1000000000000) = false.
Proof. vm_compute. reflexivity. Qed.

(** *** The buy output on integer arguments *)

(** Counterexample to C7 as stated.  With reserves 30_001_000_000 and
    10^12 the product of the reserves is rounded up, the quotient by the
    unchanged SOL reserve lands above the token reserve, and a buy of
    nothing yields -2^-13, below zero.  With both reserves 1 and a buy of
    2^54 the quotient is absorbed by the rounding of the difference, and
    the output is the whole token reserve. *)
Lemma buy_output_below_zero :
  calculateExpectedTokens (of_Z 0) (of_Z 30001000000) (of_Z 1000000000000)
  = S754_finite true 4503599627370496 (-65)
  /\ leb (of_Z 0)
       (calculateExpectedTokens
          (of_Z 0) (of_Z 30001000000) (of_Z 1000000000000)) = false
  /\ calculateExpectedTokens (of_Z (2 ^ 54)) (of_Z 1) (of_Z 1) = of_Z 1
  /\ ltb (calculateExpectedTokens (of_Z (2 ^ 54)) (of_Z 1) (of_Z 1)) (of_Z 1)
     = false
  /\ ~ buy_output_is_bounded.
Proof.
  split; [vm_compute; reflexivity|]. split; [vm_compute; reflexivity|].
  split; [vm_compute; reflexivity|]. split; [vm_compute; reflexivity|].
  intros H.
  destruct (H 0 30001000000 1000000000000 ltac:(lia) ltac:(lia) ltac:(lia))
    as [E _].
  vm_compute in E. discriminate E.
Qed.

(** C7, as amended.  The pricing engine applies no clamp.  On integer
    arguments with a SOL reserve below 2^52, a token reserve below 2^53 and
    an amount below 2^53, the buy output is at least zero and at most the
    token reserve as soon as the amount is positive or the product of the
    two reserves is exactly representable; and it is strictly below the
    token reserve for a positive amount below 2^50. *)
Theorem buy_output_within_reserve (amountIn solReserve tokenReserve : Z) :
  0 < solReserve < 2 ^ 52 -> 0 < tokenReserve < 2 ^ 53 ->
  0 <= amountIn < 2 ^ 53 ->
  let out := calculateExpectedTokens
               (of_Z amountIn) (of_Z solReserve) (of_Z tokenReserve) in
  (0 < amountIn
   \/ product_is_exact (of_Z solReserve) (of_Z tokenReserve) = true ->
   leb (of_Z 0) out = true /\ leb out (of_Z tokenReserve) = true)
  /\ (0 < amountIn < 2 ^ 50 -> ltb out (of_Z tokenReserve) = true).
Proof.
  intros HS HT HA out. subst out. split.
  - intros [Hpos|Hex].
    + destruct (expected_tokens_on_integers amountIn solReserve tokenReserve
                  HS HT ltac:(lia)) as (H1 & H2 & _).
      split; assumption.
    + destruct (of_Z_valid solReserve ltac:(lia)) as [Vs Ps].
      destruct (of_Z_valid tokenReserve HT) as [Vt Pt].
      apply expected_tokens_within_reserve; try assumption.
      destruct (Z.eq_dec amountIn 0) as [->|Hne]; [reflexivity|].
      destruct (of_Z_valid amountIn ltac:(lia)) as [_ Pa].
      destruct (of_Z amountIn) as [| | |[|] ma ea]; try discriminate Pa.
      reflexivity.
  - intros Hlt.
    destruct (expected_tokens_on_integers amountIn solReserve tokenReserve
                HS HT ltac:(lia)) as (_ & _ & H3).
    apply H3. lia.
Qed.

(** ** The claims on concrete inputs *)

(** C7 on the scenario of the specification: the output of a buy of 1 SOL
    against reserves of 30 SOL and 10^12 token units is at least zero and
    strictly below the token reserve. *)
Lemma buy_output_within_reserve_witness :
  let out := calculateExpectedTokens
               (of_Z 1000000000) (of_Z 30000000000) (of_Z 1000000000000) in
  leb (of_Z 0) out = true
  /\ leb out (of_Z 1000000000000) = true
  /\ ltb out (of_Z 1000000000000) = true.
Proof.
  destruct (buy_output_within_reserve 1000000000 30000000000 1000000000000
              ltac:(lia) ltac:(lia) ltac:(lia)) as [H1 H2].
  assert (Hpos : 0 < 1000000000) by lia.
  destruct (H1 (or_introl Hpos)) as [L1 L2].
  split; [exact L1|]. split; [exact L2|]. apply H2. lia.
Defined.

Lemma buy_over_limit_fails_offline_witness :
  gtb (of_Z 2) (maxBuyAmount Examples.the_config) = true
  /\ Examples.the_buy (Some Examples.the_wallet) Examples.the_token (of_Z 2) []
     = (inr (failed (limit_exceeded Examples.show (of_Z 1)) (of_Z 2)), []).
Proof.
  split; [reflexivity|].
  exact (buy_over_limit_fails_offline Examples.system_program
           Examples.token_program (of_Z 1000000000) Examples.the_config
           Examples.show Examples.range_message Examples.parse_key
           Examples.derive_ata Examples.create_ata Examples.node
           Examples.the_wallet Examples.the_token (of_Z 2) [] eq_refl).
Defined.

(** A buy within the limit, with the wallet loaded and the node answering:
    three requests, in this order. *)
Example buy_within_limit :
  exists r tx tx',
    Examples.the_buy (Some Examples.the_wallet) Examples.the_token (of_Z 1) []
    = (inr r,
       [getAccountInfo Examples.trader_ata; getLatestBlockhash;
        sendAndConfirmTransaction tx tx'])
    /\ success r = true
    /\ amountOut r = Some (div scenario_out (of_Z 1000000)).
Proof. do 3 eexists. split; [vm_compute; reflexivity|]. split; reflexivity. Qed.

Lemma payload_is_24_bytes_witness :
  to_integer (of_Z 30645161290) = Some 30645161290
  /\ to_integer (of_Z 1000000000) = Some 1000000000
  /\ (exists ins,
        buildBuyInstruction Examples.system_program Examples.token_program
          Examples.trader Examples.coin Examples.curve Examples.curve_ata
          Examples.trader_ata (of_Z 1000000000) (of_Z 30645161290) = inr ins
        /\ length (data ins) = 24%nat
        /\ le_value (slice (data ins) 8 16) = 30645161290
        /\ le_value (slice (data ins) 16 24) = 1000000000).
Proof.
  split; [reflexivity|]. split; [reflexivity|].
  destruct (payload_is_24_bytes Examples.system_program Examples.token_program
              Examples.trader Examples.coin Examples.curve Examples.curve_ata
              Examples.trader_ata (of_Z 30645161290) (of_Z 1000000000)
              30645161290 1000000000 eq_refl eq_refl
              ltac:(split; [discriminate|reflexivity])
              ltac:(split; [discriminate|reflexivity]))
    as [(ins & E & L & _ & _ & _ & V1 & V2) _].
  exists ins. repeat split; assumption.
Defined.

Lemma account_list_is_fixed_witness :
  let entries (ins : TransactionInstruction) :=
    map (fun k => (toBase58 (pubkey k), isSigner k, isWritable k)) (keys ins) in
  let expected :=
    [ ("4wTV1YmiEkRvAtNtsSGPtUrqRYQMe5SKy2uB4Jjaxnjf", false, false);
      ("CebN5WGQ4jvEPvsVU4EoHEpgzq1VV7AbCJtGpGYKLXYi", false, true);
      ("coin", false, false);
      ("curve", false, true);
      ("curve-ata", false, true);
      ("trader-ata", false, true);
      ("trader", true, true);
      ("11111111111111111111111111111111", false, false);
      ("TokenkegQfeZyiNwAJbNbGKPFXCWuBvf9Ss623VQ5DA", false, false) ] in
  (exists ins,
      buildBuyInstruction Examples.system_program Examples.token_program
        Examples.trader Examples.coin Examples.curve Examples.curve_ata
        Examples.trader_ata (of_Z 1000000000) (of_Z 30645161290) = inr ins
      /\ entries ins = expected)
  /\ (exists ins,
      buildSellInstruction Examples.system_program Examples.token_program
        Examples.trader Examples.coin Examples.curve Examples.curve_ata
        Examples.trader_ata (of_Z 30645161290) (of_Z 1000000000) = inr ins
      /\ entries ins = expected).
Proof.
  cbn zeta.
  destruct (account_list_is_fixed Examples.system_program
              Examples.token_program Examples.trader Examples.coin
              Examples.curve Examples.curve_ata Examples.trader_ata)
    as (_ & _ & Emits).
  destruct (Emits (of_Z 30645161290) (of_Z 1000000000)
              30645161290 1000000000 eq_refl eq_refl
              ltac:(split; [discriminate|reflexivity])
              ltac:(split; [discriminate|reflexivity]))
    as [(buy & Eb & Kb) (sell & Es & Ks)].
  split.
  - exists buy. split; [exact Eb|]. rewrite Kb. reflexivity.
  - exists sell. split; [exact Es|]. rewrite Ks. reflexivity.
Defined.

(** Counterexample to C6 as stated: the connection drops, which arms the
    first reconnect timer; the owner then disconnects; the timer is still
    armed, fires, and the client opens a second socket. *)
Lemma disconnect_leaves_the_timer_armed :
  let dropped :=
    Examples.run_events boot [call_connect; socket_open; socket_close] in
  let l' := Examples.run_events dropped [call_disconnect] in
  timers dropped = [2000]
  /\ ws (self l') = None
  /\ timers l' = [2000]
  /\ opened l' = 1%nat
  /\ opened (Examples.run_events l' [timer_fires]) = 2%nat
  /\ ws (self (Examples.run_events l' [timer_fires])) = Some 1%nat
  /\ ~ disconnect_is_final.
Proof.
  cbn zeta. do 6 (split; [reflexivity|]).
  intros H.
  destruct (H Examples.parse Examples.open_sockets
              (Examples.run_events boot [call_connect; socket_open; socket_close])
              []) as [Ht _].
  discriminate Ht.
Qed.

Lemma disconnect_drops_the_socket_witness :
  let l := Examples.run_events boot [call_connect; socket_open; socket_close] in
  let l' := dispatch Examples.parse Examples.open_sockets l call_disconnect in
  ws (self l) = Some 0%nat
  /\ ws (self l') = None
  /\ isConnected (self l') = false
  /\ timers l' = [2000].
Proof.
  cbn zeta. split; [reflexivity|].
  destruct (disconnect_drops_the_socket Examples.parse Examples.open_sockets
              (Examples.run_events boot [call_connect; socket_open; socket_close]))
    as (W & C & _ & _ & _ & _ & _ & _ & S & T & _).
  rewrite S, T. split; [exact W|]. split; [|reflexivity].
  exact (proj1 (C 0%nat eq_refl)).
Defined.

Lemma reconnect_backoff_witness :
  let l :=
    dispatch_all Examples.parse Examples.open_sockets boot
      [call_connect; socket_open] in
  let retry l :=
    dispatch_all Examples.parse Examples.open_sockets l failed_attempt in
  let l5 :=
    retry (retry (retry (retry (retry
      (dispatch Examples.parse Examples.open_sockets l socket_close))))) in
  reconnectAttempts (self l) = 0 /\ timers l = []
  /\ timers l5 = [] /\ opened l5 = 6%nat
  /\ opened (dispatch_all Examples.parse Examples.open_sockets l5
               [socket_close; socket_error; timer_fires]) = 6%nat.
Proof.
  cbn zeta. split; [reflexivity|]. split; [reflexivity|].
  destruct (reconnect_backoff Examples.parse Examples.open_sockets)
    as (_ & _ & _ & _ & _ & _ & Run).
  destruct (Run (dispatch_all Examples.parse Examples.open_sockets boot
                   [call_connect; socket_open])
              eq_refl eq_refl)
    as (_ & _ & _ & _ & _ & T5 & _ & O5 & Stable).
  split; [exact T5|]. split; [exact O5|].
  destruct (Stable [socket_close; socket_error; timer_fires] eq_refl) as [_ ->].
  exact O5.
Defined.

Lemma bad_frames_are_dropped_witness :
  let c := self (Examples.run_events boot
                   [call_connect; socket_open;
                    call_subscribeToNewTokens (fun _ => None);
                    call_subscribeToToken "coin" (Some (fun _ => None))]) in
  Examples.parse "not json" = inl (Thrown true "Unexpected token")
  /\ on_message Examples.parse "not json" c
     = (c, [console_error "Error parsing WebSocket message:"])
  /\ Examples.parse "{txType:migrate}"
     = inr (Json_with (Some "migrate") "{txType:migrate}")
  /\ on_message Examples.parse "{txType:migrate}" c = (c, [])
  /\ isConnected c = true.
Proof.
  cbn zeta. split; [reflexivity|].
  split.
  - exact (proj1 (bad_frames_are_dropped Examples.parse Examples.open_sockets
                   "not json" _) _ eq_refl).
  - split; [reflexivity|]. split; [|reflexivity].
    exact (proj1 (proj2 (bad_frames_are_dropped Examples.parse
                           Examples.open_sockets
                           "{txType:migrate}" _))
             _ _ eq_refl eq_refl eq_refl eq_refl).
Defined.

(** The flag can be up while the socket held is not open.  The client
    connects; the owner disconnects, which leaves the timer of the first
    socket's close armed, and connects again; the timer fires and
    replaces the open socket by a third one, which is still connecting.
    A subscription is then recorded, the call to [send] throws, and
    nothing is sent or logged; on an open socket the same call sends the
    frame. *)
Lemma subscribe_without_handler_witness :
  let l :=
    dispatch_all Examples.parse Examples.third_socket_connecting boot
      [call_connect; socket_open; call_disconnect; socket_close;
       call_connect; socket_open; timer_fires] in
  let c := self l in
  let connecting := Examples.third_socket_connecting l in
  let open := Examples.open_sockets l in
  ws c = Some 2%nat /\ isConnected c = true
  /\ ("coin" ∈ subscribedTokens (fst (subscribeToToken connecting "coin" None c)))
  /\ snd (subscribeToToken connecting "coin" None c)
     = [throws (Thrown true "WebSocket is not open: readyState 0 (CONNECTING)")]
  /\ snd (subscribeToToken open "coin" None c)
     = [ws_send 2%nat (subscribeTokenTrade ["coin"]);
        console_log "Subscribed to trades for token: coin"].
Proof.
  cbn zeta. split; [reflexivity|]. split; [reflexivity|].
  set (l := dispatch_all Examples.parse Examples.third_socket_connecting boot
              [call_connect; socket_open; call_disconnect; socket_close;
               call_connect; socket_open; timer_fires]).
  destruct (subscribe_without_handler (Examples.third_socket_connecting l)
              "coin" (self l))
    as (In & _ & _ & _ & _ & _ & _ & _ & _ & Sends).
  split; [exact In|]. split.
  - exact (proj2 (Sends 2%nat eq_refl eq_refl) _ eq_refl).
  - destruct (subscribe_without_handler (Examples.open_sockets l)
                "coin" (self l))
      as (_ & _ & _ & _ & _ & _ & _ & _ & _ & Open).
    exact (proj1 (Open 2%nat eq_refl eq_refl) eq_refl).
Defined.

(** A recognised frame reaches the handler registered for it. *)
Example create_frame_is_dispatched :
  let c := self (Examples.run_events boot
                   [call_connect; socket_open;
                    call_subscribeToNewTokens (fun _ => None)]) in
  snd (on_message Examples.parse "{txType:create}" c)
  = [call_onNewToken (Json_with (Some "create") "{txType:create}")].
Proof. reflexivity. Qed.

(** * Further properties *)

(** ** Stream client *)

Section StreamInvariants.

Variable JSON_parse : string -> result JsonValue.
Variable socket_send : Loop -> Send.

Abbreviation step := (dispatch JSON_parse socket_send).
Abbreviation steps := (dispatch_all JSON_parse socket_send).

Lemma run_fields (m : Method) (l : Loop) :
  self (run m l) = fst (m (self l))
  /\ timers (run m l) = timers l ++ armed (snd (m (self l)))
  /\ opened (run m l) = opened l
  /\ trace (run m l) = trace l ++ snd (m (self l)).
Proof. unfold run. destruct (m (self l)) as [c effects]. repeat split. Qed.

Lemma run_connect_fields (l : Loop) :
  self (run_connect l) = set_ws (Some (opened l)) (self l)
  /\ timers (run_connect l) = timers l
  /\ opened (run_connect l) = S (opened l)
  /\ trace (run_connect l) = trace l ++ [new_WebSocket (opened l)].
Proof.
  unfold run_connect, run, connect. cbn [self timers opened trace armed omap].
  rewrite app_nil_r. repeat split.
Qed.

Lemma sent_app (xs ys : list Effect) : sent (xs ++ ys) = sent xs ++ sent ys.
Proof. unfold sent. apply List.filter_app. Qed.

Lemma steps_cons (l : Loop) (ev : Event) (evs : list Event) :
  steps l (ev :: evs) = steps (step l ev) evs.
Proof. reflexivity. Qed.

(** What the close listener does, in both cases of the guard. *)
Lemma on_close_fields (c : PumpFunWebSocket) :
  ws (fst (on_close c)) = ws c
  /\ isConnected (fst (on_close c)) = false
  /\ onNewToken (fst (on_close c)) = onNewToken c
  /\ onTrade (fst (on_close c)) = onTrade c
  /\ subscribedTokens (fst (on_close c)) = subscribedTokens c
  /\ sent (snd (on_close c)) = []
  /\ reconnectAttempts (fst (on_close c))
     = (if maxReconnectAttempts <=? reconnectAttempts c
        then reconnectAttempts c else reconnectAttempts c + 1)
  /\ armed (snd (on_close c))
     = (if maxReconnectAttempts <=? reconnectAttempts c
        then [] else [backoff_delay (reconnectAttempts c + 1)]).
Proof.
  unfold on_close, attemptReconnect.
  cbn [reconnectAttempts set_isConnected].
  destruct (maxReconnectAttempts <=? reconnectAttempts c); repeat split.
Qed.

Lemma on_message_sends_nothing (data : string) (c : PumpFunWebSocket) :
  sent (snd (on_message JSON_parse data c)) = [].
Proof.
  unfold on_message. destruct (JSON_parse data) as [e|m]; [reflexivity|].
  assert (H : sent (fst (handleMessage c m)) = []).
  { unfold handleMessage. destruct m as [|t raw]; [reflexivity|].
    destruct (txType_is "create" t), (onNewToken c);
      destruct (txType_is "buy" t || txType_is "sell" t), (onTrade c);
      reflexivity. }
  destruct (handleMessage c m) as [effects [e|]]; cbn [fst snd] in *.
  - now rewrite sent_app, H.
  - exact H.
Qed.

(** What [send] and the line after it leave behind: no timer, and a
    frame only when the call returned. *)
Lemma send_and_log_fields (send : Send) (sock : Socket) (frame : ControlFrame)
    (line : string) :
  armed (send_and_log send sock frame line) = []
  /\ sent (send_and_log send sock frame line)
     = match send sock frame with
       | None => [ws_send sock frame]
       | Some _ => []
       end.
Proof. unfold send_and_log. destruct (send sock frame); split; reflexivity. Qed.

(** The fields after each of the three subscription calls; what the
    socket does has no part in them. *)
Lemma subscribeToNewTokens_fields (send : Send) (callback : EventCallback)
    (c : PumpFunWebSocket) :
  let c' := fst (subscribeToNewTokens send callback c) in
  onNewToken c' = Some callback
  /\ onTrade c' = onTrade c
  /\ subscribedTokens c' = subscribedTokens c
  /\ ws c' = ws c /\ reconnectAttempts c' = reconnectAttempts c
  /\ armed (snd (subscribeToNewTokens send callback c)) = []
  /\ (ws c = None \/ isConnected c = false ->
      snd (subscribeToNewTokens send callback c) = []).
Proof.
  cbn zeta. unfold subscribeToNewTokens. cbn [set_onNewToken ws isConnected].
  destruct (ws c) as [sock|] eqn:Hw, (isConnected c) eqn:Hc;
    cbn [fst snd set_onNewToken set_onTrade set_subscribedTokens ws
         isConnected onNewToken onTrade subscribedTokens reconnectAttempts];
    rewrite ?Hw, ?Hc; repeat split;
    try exact (proj1 (send_and_log_fields _ _ _ _));
    try (intros [H|H]; discriminate H); reflexivity.
Qed.

Lemma subscribeToToken_fields (send : Send) (mintAddress : string)
    (callback : option EventCallback) (c : PumpFunWebSocket) :
  let c' := fst (subscribeToToken send mintAddress callback c) in
  onNewToken c' = onNewToken c
  /\ onTrade c' = match callback with Some _ => callback | None => onTrade c end
  /\ subscribedTokens c' = {[ mintAddress ]} ∪ subscribedTokens c
  /\ ws c' = ws c /\ reconnectAttempts c' = reconnectAttempts c
  /\ armed (snd (subscribeToToken send mintAddress callback c)) = []
  /\ (ws c = None \/ isConnected c = false ->
      snd (subscribeToToken send mintAddress callback c) = []).
Proof.
  cbn zeta. unfold subscribeToToken.
  destruct callback; cbn [set_onTrade set_subscribedTokens ws isConnected];
    destruct (ws c) as [sock|] eqn:Hw, (isConnected c) eqn:Hc;
    cbn [fst snd set_onNewToken set_onTrade set_subscribedTokens ws
         isConnected onNewToken onTrade subscribedTokens reconnectAttempts];
    rewrite ?Hw, ?Hc; repeat split;
    try exact (proj1 (send_and_log_fields _ _ _ _));
    try (intros [H|H]; discriminate H); reflexivity.
Qed.

Lemma unsubscribeFromToken_fields (send : Send) (mintAddress : string)
    (c : PumpFunWebSocket) :
  let c' := fst (unsubscribeFromToken send mintAddress c) in
  onNewToken c' = onNewToken c
  /\ onTrade c' = onTrade c
  /\ subscribedTokens c' = subscribedTokens c ∖ {[ mintAddress ]}
  /\ ws c' = ws c /\ isConnected c' = isConnected c
  /\ reconnectAttempts c' = reconnectAttempts c
  /\ armed (snd (unsubscribeFromToken send mintAddress c)) = []
  /\ (ws c = None \/ isConnected c = false ->
      snd (unsubscribeFromToken send mintAddress c) = []).
Proof.
  cbn zeta. unfold unsubscribeFromToken.
  cbn [set_subscribedTokens ws isConnected].
  destruct (ws c) as [sock|] eqn:Hw, (isConnected c) eqn:Hc;
    cbn [fst snd set_onNewToken set_onTrade set_subscribedTokens ws
         isConnected onNewToken onTrade subscribedTokens reconnectAttempts];
    rewrite ?Hw, ?Hc; repeat split;
    try exact (proj1 (send_and_log_fields _ _ _ _));
    try (intros [H|H]; discriminate H); reflexivity.
Qed.

(** *** The attempt counter and the armed delays *)

Lemma backoff_delay_range (n : Z) :
  1 <= n -> 2000 <= backoff_delay n <= 30000.
Proof.
  intros Hn. unfold backoff_delay.
  assert (2 ^ 1 <= 2 ^ n) by (apply Z.pow_le_mono_r; lia).
  change (2 ^ 1) with 2 in *. lia.
Qed.

Lemma step_keeps_the_counter_in_range (l : Loop) (ev : Event) :
  0 <= reconnectAttempts (self l) <= maxReconnectAttempts ->
  Forall (fun d => 2000 <= d <= 30000) (timers l) ->
  0 <= reconnectAttempts (self (step l ev)) <= maxReconnectAttempts
  /\ Forall (fun d => 2000 <= d <= 30000) (timers (step l ev)).
Proof.
  intros Hr Ht. unfold maxReconnectAttempts in *.
  destruct ev as [|frame| | | | | |cb|m cb|m|]; cbn [dispatch].
  - destruct (run_fields on_open l) as (-> & -> & _). cbn. rewrite app_nil_r.
    split; [lia|exact Ht].
  - destruct (run_fields (on_message JSON_parse frame) l) as (-> & -> & _).
    rewrite on_message_keeps_client, on_message_arms_nothing, app_nil_r.
    split; assumption.
  - destruct (run_fields on_close l) as (-> & -> & _).
    destruct (on_close_fields (self l)) as (_ & _ & _ & _ & _ & _ & -> & ->).
    unfold maxReconnectAttempts.
    destruct (Z.leb_spec 5 (reconnectAttempts (self l))).
    + rewrite app_nil_r. split; [lia|exact Ht].
    + split; [lia|]. apply Forall_app. split; [exact Ht|].
      constructor; [|constructor]. apply backoff_delay_range. lia.
  - destruct (run_fields on_error l) as (-> & -> & _). unfold on_error.
    cbn [fst snd]. destruct (negb (isConnected (self l)));
      cbn [armed omap]; rewrite app_nil_r; split; assumption.
  - destruct (timers l) as [|d rest] eqn:E; [split; [assumption|now rewrite E]|].
    match goal with |- context [run_connect ?x] =>
      destruct (run_connect_fields x) as (-> & -> & _) end.
    cbn [self timers set_ws reconnectAttempts]. split; [exact Hr|].
    now inversion Ht.
  - destruct (run_fields on_reconnect_rejected l) as (-> & -> & _).
    cbn. rewrite app_nil_r. split; assumption.
  - destruct (run_connect_fields l) as (-> & -> & _).
    cbn [set_ws reconnectAttempts]. split; assumption.
  - destruct (run_fields (subscribeToNewTokens (socket_send l) cb) l)
      as (-> & -> & _).
    destruct (subscribeToNewTokens_fields (socket_send l) cb (self l))
      as (_ & _ & _ & _ & -> & -> & _).
    rewrite app_nil_r. split; assumption.
  - destruct (run_fields (subscribeToToken (socket_send l) m cb) l)
      as (-> & -> & _).
    destruct (subscribeToToken_fields (socket_send l) m cb (self l))
      as (_ & _ & _ & _ & -> & -> & _).
    rewrite app_nil_r. split; assumption.
  - destruct (run_fields (unsubscribeFromToken (socket_send l) m) l)
      as (-> & -> & _).
    destruct (unsubscribeFromToken_fields (socket_send l) m (self l))
      as (_ & _ & _ & _ & _ & -> & -> & _).
    rewrite app_nil_r. split; assumption.
  - destruct (run_fields disconnect l) as (-> & -> & _).
    unfold disconnect. destruct (ws (self l)); cbn; rewrite app_nil_r;
      split; assumption.
Qed.

(** X1.  Whatever happens to a client that was created by [new], the attempt
    counter stays between 0 and [maxReconnectAttempts], and every armed
    reconnect delay lies between 2000 and 30000 ms. *)
Theorem attempts_stay_in_range (evs : list Event) :
  let l := steps boot evs in
  0 <= reconnectAttempts (self l) <= maxReconnectAttempts
  /\ Forall (fun d => 2000 <= d <= 30000) (timers l).
Proof.
  cbn zeta.
  assert (G : forall l,
             0 <= reconnectAttempts (self l) <= maxReconnectAttempts ->
             Forall (fun d => 2000 <= d <= 30000) (timers l) ->
             0 <= reconnectAttempts (self (steps l evs)) <= maxReconnectAttempts
             /\ Forall (fun d => 2000 <= d <= 30000) (timers (steps l evs))).
  { induction evs as [|ev evs IH]; intros l Hr Ht; [split; assumption|].
    rewrite steps_cons.
    destruct (step_keeps_the_counter_in_range l ev Hr Ht) as [Hr' Ht'].
    apply IH; assumption. }
  apply G; [unfold maxReconnectAttempts; cbn; lia|constructor].
Qed.

(** *** Control frames *)

Lemma step_without_subscription_call (l : Loop) (ev : Event) :
  subscription_call ev = false ->
  sent (trace (step l ev)) = sent (trace l)
  /\ subscribedTokens (self (step l ev)) = subscribedTokens (self l)
  /\ onNewToken (self (step l ev)) = onNewToken (self l)
  /\ onTrade (self (step l ev)) = onTrade (self l).
Proof.
  intros Hev.
  destruct ev as [|frame| | | | | |cb|m cb|m|]; try discriminate Hev;
    cbn [dispatch].
  - destruct (run_fields on_open l) as (-> & _ & _ & ->).
    rewrite sent_app. cbn. rewrite app_nil_r. repeat split.
  - destruct (run_fields (on_message JSON_parse frame) l) as (-> & _ & _ & ->).
    rewrite sent_app, on_message_sends_nothing, on_message_keeps_client,
      app_nil_r. repeat split.
  - destruct (run_fields on_close l) as (-> & _ & _ & ->).
    destruct (on_close_fields (self l)) as (_ & _ & -> & -> & -> & Hs & _).
    rewrite sent_app, Hs, app_nil_r. repeat split.
  - destruct (run_fields on_error l) as (-> & _ & _ & ->).
    rewrite sent_app. unfold on_error. cbn [fst snd].
    destruct (negb (isConnected (self l))); cbn; rewrite app_nil_r;
      repeat split.
  - destruct (timers l) as [|d rest]; [repeat split|].
    match goal with |- context [run_connect ?x] =>
      destruct (run_connect_fields x) as (-> & _ & _ & ->) end.
    rewrite sent_app. cbn. rewrite app_nil_r. repeat split.
  - destruct (run_fields on_reconnect_rejected l) as (-> & _ & _ & ->).
    rewrite sent_app. cbn. rewrite app_nil_r. repeat split.
  - destruct (run_connect_fields l) as (-> & _ & _ & ->).
    rewrite sent_app. cbn. rewrite app_nil_r. repeat split.
  - destruct (run_fields disconnect l) as (-> & _ & _ & ->).
    rewrite sent_app. unfold disconnect.
    destruct (ws (self l)); cbn; rewrite app_nil_r; repeat split.
Qed.

(** X2.  Only the three subscription calls ever send a control frame.
    Nothing else does: not [connect()], not a successful (re)connection,
    not a frame from the server, not a timer.  Across any such events the
    subscription set and the two handlers stay as they were, so after a
    reconnection the client still lists its mints as subscribed although
    it has sent nothing on the new socket. *)
Theorem reconnection_replays_nothing (l : Loop) (evs : list Event) :
  forallb (fun ev => negb (subscription_call ev)) evs = true ->
  sent (trace (steps l evs)) = sent (trace l)
  /\ subscribedTokens (self (steps l evs)) = subscribedTokens (self l)
  /\ onNewToken (self (steps l evs)) = onNewToken (self l)
  /\ onTrade (self (steps l evs)) = onTrade (self l).
Proof.
  revert l. induction evs as [|ev evs IH]; intros l Hall; [repeat split|].
  cbn [forallb] in Hall. apply andb_true_iff in Hall as [Hev Hall].
  apply negb_true_iff in Hev.
  rewrite steps_cons.
  destruct (IH (step l ev) Hall) as (-> & -> & -> & ->).
  apply step_without_subscription_call. exact Hev.
Qed.

(** X3.  While the client holds no socket or is not marked connected, no
    event makes it send a frame: a subscription requested then is recorded
    in the client but not transmitted. *)
Theorem offline_calls_send_nothing (l : Loop) (ev : Event) :
  ws (self l) = None \/ isConnected (self l) = false ->
  sent (trace (step l ev)) = sent (trace l)
  /\ forall mintAddress callback,
       ev = call_subscribeToToken mintAddress callback ->
       mintAddress ∈ subscribedTokens (self (step l ev)).
Proof.
  intros Hoff. split.
  - destruct (subscription_call ev) eqn:Hev;
      [|now apply step_without_subscription_call].
    destruct ev as [|frame| | | | | |cb|m cb|m|]; try discriminate Hev;
      cbn [dispatch].
    + destruct (run_fields (subscribeToNewTokens (socket_send l) cb) l)
        as (_ & _ & _ & ->).
      destruct (subscribeToNewTokens_fields (socket_send l) cb (self l))
        as (_ & _ & _ & _ & _ & _ & Off).
      now rewrite (Off Hoff), app_nil_r.
    + destruct (run_fields (subscribeToToken (socket_send l) m cb) l)
        as (_ & _ & _ & ->).
      destruct (subscribeToToken_fields (socket_send l) m cb (self l))
        as (_ & _ & _ & _ & _ & _ & Off).
      now rewrite (Off Hoff), app_nil_r.
    + destruct (run_fields (unsubscribeFromToken (socket_send l) m) l)
        as (_ & _ & _ & ->).
      destruct (unsubscribeFromToken_fields (socket_send l) m (self l))
        as (_ & _ & _ & _ & _ & _ & _ & Off).
      now rewrite (Off Hoff), app_nil_r.
  - intros m cb ->. cbn [dispatch].
    destruct (run_fields (subscribeToToken (socket_send l) m cb) l) as (-> & _).
    destruct (subscribeToToken_fields (socket_send l) m cb (self l))
      as (_ & _ & -> & _).
    apply elem_of_union; left; now apply elem_of_singleton.
Qed.

(** *** The subscription set *)

Lemma step_subscribedTokens (l : Loop) (ev : Event) :
  subscribedTokens (self (step l ev))
  = match ev with
    | call_subscribeToToken m _ => {[ m ]} ∪ subscribedTokens (self l)
    | call_unsubscribeFromToken m => subscribedTokens (self l) ∖ {[ m ]}
    | _ => subscribedTokens (self l)
    end.
Proof.
  destruct (subscription_call ev) eqn:Hev.
  - destruct ev as [|frame| | | | | |cb|m cb|m|]; try discriminate Hev;
      cbn [dispatch].
    + destruct (run_fields (subscribeToNewTokens (socket_send l) cb) l)
        as (-> & _).
      now destruct (subscribeToNewTokens_fields (socket_send l) cb (self l))
        as (_ & _ & -> & _).
    + destruct (run_fields (subscribeToToken (socket_send l) m cb) l)
        as (-> & _).
      now destruct (subscribeToToken_fields (socket_send l) m cb (self l))
        as (_ & _ & -> & _).
    + destruct (run_fields (unsubscribeFromToken (socket_send l) m) l)
        as (-> & _).
      now destruct (unsubscribeFromToken_fields (socket_send l) m (self l))
        as (_ & _ & -> & _).
  - destruct (step_without_subscription_call l ev Hev) as (_ & -> & _).
    destruct ev; try discriminate Hev; reflexivity.
Qed.

(** X4.  The subscription set is changed by the owner's calls only, and as
    a set: a mint that was subscribed stays in it through anything but an
    unsubscription of that mint (subscribing twice is subscribing once),
    and a mint that was unsubscribed stays out of it through anything but
    a new subscription of that mint. *)
Theorem subscription_set_follows_the_calls
    (l : Loop) (mintAddress : string) (evs : list Event) :
  (forall callback,
     forallb (fun ev => negb (unsubscribes mintAddress ev)) evs = true ->
     mintAddress
       ∈ subscribedTokens
           (self (steps (step l (call_subscribeToToken mintAddress callback))
                    evs)))
  /\ (forallb (fun ev => negb (subscribes mintAddress ev)) evs = true ->
      mintAddress
        ∉ subscribedTokens
            (self (steps (step l (call_unsubscribeFromToken mintAddress))
                     evs))).
Proof.
  split.
  - intros cb.
    assert (G : forall l',
               mintAddress ∈ subscribedTokens (self l') ->
               forallb (fun ev => negb (unsubscribes mintAddress ev)) evs = true ->
               mintAddress ∈ subscribedTokens (self (steps l' evs))).
    { induction evs as [|ev evs IH]; intros l' Hin Hall; [exact Hin|].
      cbn [forallb] in Hall. apply andb_true_iff in Hall as [Hev Hall].
      apply negb_true_iff in Hev. rewrite steps_cons. apply IH; [|exact Hall].
      rewrite step_subscribedTokens.
      destruct ev as [|frame| | | | | |cb'|m cb'|m|]; try exact Hin.
      - apply elem_of_union. right. exact Hin.
      - cbn [unsubscribes] in Hev. apply bool_decide_eq_false in Hev.
        apply elem_of_difference. split; [exact Hin|].
        rewrite elem_of_singleton. congruence. }
    apply G. rewrite step_subscribedTokens.
    apply elem_of_union. left. now apply elem_of_singleton.
  - assert (G : forall l',
               mintAddress ∉ subscribedTokens (self l') ->
               forallb (fun ev => negb (subscribes mintAddress ev)) evs = true ->
               mintAddress ∉ subscribedTokens (self (steps l' evs))).
    { induction evs as [|ev evs IH]; intros l' Hin Hall; [exact Hin|].
      cbn [forallb] in Hall. apply andb_true_iff in Hall as [Hev Hall].
      apply negb_true_iff in Hev. rewrite steps_cons. apply IH; [|exact Hall].
      rewrite step_subscribedTokens.
      destruct ev as [|frame| | | | | |cb'|m cb'|m|]; try exact Hin.
      - cbn [subscribes] in Hev. apply bool_decide_eq_false in Hev.
        rewrite elem_of_union, elem_of_singleton.
        intros [E|E]; [congruence|contradiction].
      - rewrite elem_of_difference. intros [E _]. contradiction. }
    apply G. rewrite step_subscribedTokens.
    rewrite elem_of_difference, elem_of_singleton. intros [_ E]. now apply E.
Qed.

(** *** Routing of frames *)

Lemma create_is_no_trade (txType : option string) :
  txType_is "create" txType = true ->
  txType_is "buy" txType || txType_is "sell" txType = false.
Proof.
  destruct txType as [s|]; [|discriminate]. unfold txType_is.
  intros H. apply bool_decide_eq_true in H. subst s. reflexivity.
Qed.

(** X5.  A parsed frame reaches at most one handler: a ["create"] frame the
    new-token handler and never the trade handler, a ["buy"] or ["sell"]
    frame the trade handler; with the matching handler missing the frame
    is dropped.  An exception thrown by the handler does not escape the
    listener: it is logged, once, and the client is left as it was. *)
Theorem frames_are_routed_by_txType
    (frame : string) (message : JsonValue) (c : PumpFunWebSocket) :
  JSON_parse frame = inr message ->
  handler_calls (snd (on_message JSON_parse frame c)) = routed c message
  /\ fst (on_message JSON_parse frame c) = c
  /\ (forall txType raw handler e,
        message = Json_with txType raw ->
        txType_is "create" txType = true ->
        onNewToken c = Some handler -> handler message = Some e ->
        on_message JSON_parse frame c
        = (c, [call_onNewToken message;
               console_error "Error parsing WebSocket message:"]))
  /\ (forall txType raw handler e,
        message = Json_with txType raw ->
        txType_is "create" txType = false ->
        txType_is "buy" txType || txType_is "sell" txType = true ->
        onTrade c = Some handler -> handler message = Some e ->
        on_message JSON_parse frame c
        = (c, [call_onTrade message;
               console_error "Error parsing WebSocket message:"])).
Proof.
  intros Hparse. unfold on_message. rewrite Hparse. repeat split.
  - unfold handleMessage, routed. destruct message as [|t raw]; [reflexivity|].
    destruct (txType_is "create" t) eqn:Hc.
    + rewrite (create_is_no_trade t Hc).
      destruct (onNewToken c) as [h|]; [|reflexivity].
      unfold invoke. destruct (h _); reflexivity.
    + destruct (onNewToken c) as [h|];
        destruct (txType_is "buy" t || txType_is "sell" t),
          (onTrade c) as [h'|];
        unfold invoke; try destruct (h' _); reflexivity.
  - destruct (handleMessage c message) as [effects [e|]]; reflexivity.
  - intros t raw h e -> Hc Hh He. unfold handleMessage. rewrite Hc, Hh.
    unfold invoke. rewrite He. reflexivity.
  - intros t raw h e -> Hc Hb Hh He. unfold handleMessage. rewrite Hc, Hb, Hh.
    destruct (onNewToken c); unfold invoke; rewrite He; reflexivity.
Qed.

(** X6.  The client keeps one trade handler for all mints and never looks
    at the mint of a frame.  A handler passed with a later subscription
    takes the place of the one passed with an earlier subscription, also
    for the mint subscribed earlier; and unsubscribing, even from every
    mint, leaves the handler registered, so that a trade frame that still
    arrives is delivered to it. *)
Theorem one_trade_handler_for_all_mints
    (send1 send2 send3 send4 : Send)
    (c : PumpFunWebSocket) (first second : string)
    (earlier later : EventCallback) :
  let c1 := fst (subscribeToToken send1 first (Some earlier) c) in
  let c2 := fst (subscribeToToken send2 second (Some later) c1) in
  let c3 := fst (unsubscribeFromToken send4 first
                   (fst (unsubscribeFromToken send3 second c2))) in
  onTrade c1 = Some earlier
  /\ onTrade c2 = Some later
  /\ (first ∈ subscribedTokens c2) /\ (second ∈ subscribedTokens c2)
  /\ onTrade c3 = Some later
  /\ (first ∉ subscribedTokens c3) /\ (second ∉ subscribedTokens c3)
  /\ forall frame txType raw,
       JSON_parse frame = inr (Json_with txType raw) ->
       txType_is "create" txType = false ->
       txType_is "buy" txType || txType_is "sell" txType = true ->
       handler_calls (snd (on_message JSON_parse frame c3))
       = [call_onTrade (Json_with txType raw)].
Proof.
  cbn zeta.
  destruct (subscribeToToken_fields send1 first (Some earlier) c)
    as (_ & S1 & S2 & _).
  destruct (subscribeToToken_fields send2 second (Some later)
              (fst (subscribeToToken send1 first (Some earlier) c)))
    as (_ & S3 & S4 & _).
  set (c2 := fst (subscribeToToken send2 second (Some later)
                    (fst (subscribeToToken send1 first (Some earlier) c))))
    in *.
  destruct (unsubscribeFromToken_fields send3 second c2) as (_ & U1 & U2 & _).
  destruct (unsubscribeFromToken_fields send4 first
              (fst (unsubscribeFromToken send3 second c2)))
    as (_ & U3 & U4 & _).
  set (c3 := fst (unsubscribeFromToken send4 first
                    (fst (unsubscribeFromToken send3 second c2)))) in *.
  split; [exact S1|]. split; [exact S3|].
  split; [rewrite S4, S2; apply elem_of_union; right;
          apply elem_of_union; left; now apply elem_of_singleton|].
  split; [rewrite S4; apply elem_of_union; left; now apply elem_of_singleton|].
  split; [now rewrite U3, U1|].
  split; [rewrite U4, elem_of_difference, elem_of_singleton;
          intros [_ E]; now apply E|].
  split; [rewrite U4, U2, !elem_of_difference, elem_of_singleton;
          intros [[_ E] _]; now apply E|].
  intros frame t raw Hparse Hc Hb.
  assert (T : onTrade c3 = Some later) by (now rewrite U3, U1).
  unfold on_message. rewrite Hparse. unfold handleMessage.
  rewrite Hc, Hb, T. unfold invoke.
  destruct (onNewToken c3), (later (Json_with t raw)); reflexivity.
Qed.

(** *** Disconnecting *)

(** X7.  [disconnect()] does not stop the reconnection: when the closed
    socket reports its ["close"], the listener arms a reconnect timer like
    for any other close, unless the five attempts are used up; and when
    that timer fires the client opens and holds a new socket. *)
Theorem disconnect_is_followed_by_a_reconnect (l : Loop) :
  reconnectAttempts (self l) < maxReconnectAttempts ->
  let closed := steps l [call_disconnect; socket_close] in
  ws (self closed) = None
  /\ timers closed
     = timers l ++ [backoff_delay (reconnectAttempts (self l) + 1)]
  /\ (timers l = [] ->
      let again := step closed timer_fires in
      ws (self again) = Some (opened l)
      /\ opened again = S (opened l)
      /\ timers again = []).
Proof.
  intros Hlt closed. subst closed. unfold maxReconnectAttempts in Hlt.
  cbn [dispatch_all fold_left].
  set (l1 := step l call_disconnect).
  assert (H1 : reconnectAttempts (self l1) = reconnectAttempts (self l)
               /\ ws (self l1) = None /\ timers l1 = timers l
               /\ opened l1 = opened l).
  { subst l1. cbn [dispatch].
    destruct (run_fields disconnect l) as (-> & -> & -> & _).
    unfold disconnect. destruct (ws (self l)) eqn:E; cbn;
      rewrite ?E, app_nil_r; repeat split. }
  destruct H1 as (Hr & Hw & Ht & Ho).
  destruct (step_close_counts JSON_parse socket_send l1 ltac:(lia))
    as (Ht2 & Hr2 & Ho2).
  assert (Hw2 : ws (self (step l1 socket_close)) = None).
  { cbn [dispatch]. destruct (run_fields on_close l1) as (-> & _).
    destruct (on_close_fields (self l1)) as (-> & _). exact Hw. }
  split; [exact Hw2|]. split; [now rewrite Ht2, Ht, Hr|].
  intros Hnil. cbn zeta.
  rewrite Ht, Hnil, Hr in Ht2. cbn [app] in Ht2.
  destruct (step_timer_connects JSON_parse socket_send _ _ _ Ht2)
    as (T1 & _ & T3 & T4).
  rewrite Ho2, Ho in T3, T4. repeat split; assumption.
Qed.

End StreamInvariants.

(** ** Instruction encoder and trade orchestrator *)

Section EncoderDomain.

Variables SystemProgram_programId TOKEN_PROGRAM_ID : PublicKey.

Abbreviation buildBuy := (buildBuyInstruction SystemProgram_programId TOKEN_PROGRAM_ID).
Abbreviation buildSell := (buildSellInstruction SystemProgram_programId TOKEN_PROGRAM_ID).

Lemma is_u64_inv (x : number) :
  is_u64 x = true -> exists n, to_integer x = Some n /\ 0 <= n < 2 ^ 64.
Proof.
  unfold is_u64. destruct (to_integer x) as [n|]; [|discriminate].
  intros H. apply andb_true_iff in H as [H1 H2].
  apply Z.leb_le in H1. apply Z.ltb_lt in H2. eauto.
Qed.

Lemma not_u64_inv (x : number) :
  is_u64 x = false ->
  to_integer x = None
  \/ exists n, to_integer x = Some n /\ (n < 0 \/ 2 ^ 64 <= n).
Proof.
  unfold is_u64. destruct (to_integer x) as [n|]; [|now left].
  intros H. right. exists n. split; [reflexivity|].
  apply andb_false_iff in H as [H|H];
    [apply Z.leb_gt in H|apply Z.ltb_ge in H]; lia.
Qed.

Lemma buildBuyInstruction_refuses
    (buyer mint bondingCurve associatedBondingCurve buyerAta : PublicKey)
    (solAmount minTokens : number) :
  is_u64 solAmount = false \/ is_u64 minTokens = false ->
  exists e,
    buildBuy buyer mint bondingCurve associatedBondingCurve buyerAta
      solAmount minTokens = inl e
    /\ ((exists x, e = RangeError_not_an_integer x)
        \/ e = RangeError_out_of_range "value").
Proof.
  intros H. unfold buildBuyInstruction, BigInt.
  destruct (is_u64 minTokens) eqn:Em.
  - destruct H as [H|H]; [|discriminate H].
    destruct (is_u64_inv _ Em) as (n & -> & Hn). cbn [bind].
    rewrite writeBigUInt64LE_in_range by (trivial; cbn; lia). cbn [bind].
    destruct (not_u64_inv _ H) as [->|(k & -> & Hk)]; cbn [bind]; [eauto|].
    rewrite writeBigUInt64LE_out_of_range by exact Hk. eauto.
  - destruct (not_u64_inv _ Em) as [->|(k & -> & Hk)]; cbn [bind]; [eauto|].
    rewrite writeBigUInt64LE_out_of_range by exact Hk. eauto.
Qed.

Lemma buildSellInstruction_refuses
    (seller mint bondingCurve associatedBondingCurve sellerAta : PublicKey)
    (tokenAmount minSol : number) :
  is_u64 tokenAmount = false \/ is_u64 minSol = false ->
  exists e,
    buildSell seller mint bondingCurve associatedBondingCurve sellerAta
      tokenAmount minSol = inl e
    /\ ((exists x, e = RangeError_not_an_integer x)
        \/ e = RangeError_out_of_range "value").
Proof.
  intros H. unfold buildSellInstruction, BigInt.
  destruct (is_u64 tokenAmount) eqn:Em.
  - destruct H as [H|H]; [discriminate H|].
    destruct (is_u64_inv _ Em) as (n & -> & Hn). cbn [bind].
    rewrite writeBigUInt64LE_in_range by (trivial; cbn; lia). cbn [bind].
    destruct (not_u64_inv _ H) as [->|(k & -> & Hk)]; cbn [bind]; [eauto|].
    rewrite writeBigUInt64LE_out_of_range by exact Hk. eauto.
  - destruct (not_u64_inv _ Em) as [->|(k & -> & Hk)]; cbn [bind]; [eauto|].
    rewrite writeBigUInt64LE_out_of_range by exact Hk. eauto.
Qed.

Lemma buildBuyInstruction_accepts_inv
    (buyer mint bondingCurve associatedBondingCurve buyerAta : PublicKey)
    (solAmount minTokens : number) (ins : TransactionInstruction) :
  buildBuy buyer mint bondingCurve associatedBondingCurve buyerAta
    solAmount minTokens = inr ins ->
  is_u64 solAmount = true /\ is_u64 minTokens = true.
Proof.
  intros E.
  destruct (is_u64 solAmount) eqn:Ha, (is_u64 minTokens) eqn:Hb;
    try (split; reflexivity);
    destruct (buildBuyInstruction_refuses buyer mint bondingCurve
                associatedBondingCurve buyerAta solAmount minTokens)
      as (e & E' & _); auto; congruence.
Qed.

Lemma buildSellInstruction_accepts_inv
    (seller mint bondingCurve associatedBondingCurve sellerAta : PublicKey)
    (tokenAmount minSol : number) (ins : TransactionInstruction) :
  buildSell seller mint bondingCurve associatedBondingCurve sellerAta
    tokenAmount minSol = inr ins ->
  is_u64 tokenAmount = true /\ is_u64 minSol = true.
Proof.
  intros E.
  destruct (is_u64 tokenAmount) eqn:Ha, (is_u64 minSol) eqn:Hb;
    try (split; reflexivity);
    destruct (buildSellInstruction_refuses seller mint bondingCurve
                associatedBondingCurve sellerAta tokenAmount minSol)
      as (e & E' & _); auto; congruence.
Qed.

(** X8.  Each encoder returns an instruction exactly when both amounts
    denote integers from 0 to 2^64 - 1.  On any other pair (a fraction, a
    negative number, 2^64 or more, NaN, an infinity) it throws a
    RangeError and returns nothing. *)
Theorem encoders_accept_exactly_u64
    (trader mint bondingCurve associatedBondingCurve ata : PublicKey)
    (a b : number) :
  ((exists ins,
      buildBuy trader mint bondingCurve associatedBondingCurve ata a b = inr ins)
   <-> is_u64 a = true /\ is_u64 b = true)
  /\ ((exists ins,
         buildSell trader mint bondingCurve associatedBondingCurve ata a b
         = inr ins)
      <-> is_u64 a = true /\ is_u64 b = true)
  /\ (forall e,
        buildBuy trader mint bondingCurve associatedBondingCurve ata a b = inl e
        \/ buildSell trader mint bondingCurve associatedBondingCurve ata a b
           = inl e ->
        (exists x, e = RangeError_not_an_integer x)
        \/ e = RangeError_out_of_range "value").
Proof.
  assert (Buy : is_u64 a = true -> is_u64 b = true ->
                exists ins,
                  buildBuy trader mint bondingCurve associatedBondingCurve ata
                    a b = inr ins).
  { intros Ha Hb. destruct (is_u64_inv _ Ha) as (x & Hx & Rx).
    destruct (is_u64_inv _ Hb) as (y & Hy & Ry).
    destruct (buildBuyInstruction_data SystemProgram_programId TOKEN_PROGRAM_ID
                trader mint bondingCurve associatedBondingCurve ata a b y x
                Hy Hx Ry Rx) as (ins & E & _).
    eauto. }
  assert (Sell : is_u64 a = true -> is_u64 b = true ->
                 exists ins,
                   buildSell trader mint bondingCurve associatedBondingCurve ata
                     a b = inr ins).
  { intros Ha Hb. destruct (is_u64_inv _ Ha) as (x & Hx & Rx).
    destruct (is_u64_inv _ Hb) as (y & Hy & Ry).
    destruct (buildSellInstruction_data SystemProgram_programId TOKEN_PROGRAM_ID
                trader mint bondingCurve associatedBondingCurve ata a b x y
                Hx Hy Rx Ry) as (ins & E & _).
    eauto. }
  assert (Cases : (is_u64 a = true /\ is_u64 b = true)
                  \/ (is_u64 a = false \/ is_u64 b = false))
    by (destruct (is_u64 a), (is_u64 b); auto).
  split; [|split].
  - split; [|intros [Ha Hb]; auto].
    intros [ins E]. destruct Cases as [Hyes|Hno]; [exact Hyes|].
    destruct (buildBuyInstruction_refuses trader mint bondingCurve
                associatedBondingCurve ata a b Hno) as (e & E' & _).
    congruence.
  - split; [|intros [Ha Hb]; auto].
    intros [ins E]. destruct Cases as [Hyes|Hno]; [exact Hyes|].
    destruct (buildSellInstruction_refuses trader mint bondingCurve
                associatedBondingCurve ata a b Hno) as (e & E' & _).
    congruence.
  - intros e [E|E]; destruct Cases as [[Ha Hb]|Hno].
    + destruct (Buy Ha Hb) as [ins E']. congruence.
    + destruct (buildBuyInstruction_refuses trader mint bondingCurve
                  associatedBondingCurve ata a b Hno) as (e' & E' & K).
      assert (e = e') by congruence. subst e'. exact K.
    + destruct (Sell Ha Hb) as [ins E']. congruence.
    + destruct (buildSellInstruction_refuses trader mint bondingCurve
                  associatedBondingCurve ata a b Hno) as (e' & E' & K).
      assert (e = e') by congruence. subst e'. exact K.
Qed.

End EncoderDomain.

Section TradeDiscipline.

Variables SystemProgram_programId TOKEN_PROGRAM_ID : PublicKey.
Variable LAMPORTS_PER_SOL : number.
Variable config : Config.
Variable number_toString : number -> string.
Variable RangeError_message : exn -> string.
Variable new_PublicKey : string -> result PublicKey.
Variable getAssociatedTokenAddress : PublicKey -> PublicKey -> result PublicKey.
Variable createAssociatedTokenAccountInstruction :
  PublicKey -> PublicKey -> PublicKey -> PublicKey -> TransactionInstruction.
Variable connection : RpcNode.

Abbreviation buy :=
  (buyToken SystemProgram_programId TOKEN_PROGRAM_ID LAMPORTS_PER_SOL config
     number_toString RangeError_message new_PublicKey
     getAssociatedTokenAddress createAssociatedTokenAccountInstruction
     connection).
Abbreviation sell :=
  (sellToken SystemProgram_programId TOKEN_PROGRAM_ID LAMPORTS_PER_SOL config
     RangeError_message new_PublicKey getAssociatedTokenAddress connection).

Ltac run_promise :=
  unfold try_catch, await, lift, request, ret;
  repeat match goal with
         | |- context [match ?r with inl _ => _ | inr _ => _ end] =>
             lazymatch r with
             | inl _ => fail
             | inr _ => fail
             | _ => let E := fresh "E" in destruct r eqn:E
             end
         end.

(** X9.  [buyToken] and [sellToken] never reject, whatever the libraries
    and the node do: they resolve with a result that echoes the requested
    amount and is either a success, with a signature and an output and no
    message, or a failure, with a message and neither of the two; and they
    only add to the requests sent so far. *)
Theorem trades_always_resolve
    (wallet : option Keypair) (token : PumpFunToken) (amount : number)
    (log : list NetworkCall) :
  (exists r calls,
      buy wallet token amount log = (inr r, log ++ calls)
      /\ amountIn r = amount /\ well_formed r)
  /\ (exists r calls,
         sell wallet token amount log = (inr r, log ++ calls)
         /\ amountIn r = amount /\ well_formed r).
Proof.
  split.
  - unfold buyToken. destruct wallet as [w|].
    + destruct (gtb amount (maxBuyAmount config)).
      * exists (failed (limit_exceeded number_toString (maxBuyAmount config))
                  amount), [].
        rewrite app_nil_r. unfold well_formed. cbn. repeat split; congruence.
      * run_promise;
          rewrite <- ?app_assoc;
          try (eexists; eexists; split; [reflexivity|]);
          try (eexists; exists []; rewrite app_nil_r; split; [reflexivity|]);
          unfold well_formed; cbn; repeat split; congruence.
    + eexists; exists []. rewrite app_nil_r. split; [reflexivity|].
      unfold well_formed. cbn. repeat split; congruence.
  - unfold sellToken. destruct wallet as [w|].
    + run_promise;
        rewrite <- ?app_assoc;
        try (eexists; eexists; split; [reflexivity|]);
        try (eexists; exists []; rewrite app_nil_r; split; [reflexivity|]);
        unfold well_formed; cbn; repeat split; congruence.
    + eexists; exists []. rewrite app_nil_r. split; [reflexivity|].
      unfold well_formed. cbn. repeat split; congruence.
Qed.

Ltac invert_promise H :=
  unfold try_catch, await, lift, request, ret in H;
  repeat match type of H with
         | context [match ?r with inl _ => _ | inr _ => _ end] =>
             lazymatch r with
             | inl _ => fail
             | inr _ => fail
             | _ => let E := fresh "E" in destruct r eqn:E
             end
         end.

(** X10.  A buy that reports success went through every step: the amount
    was within the limit, the three addresses parsed, the encoder accepted
    the lamports and the minimum output (both unsigned 64-bit integers),
    and exactly three requests were sent, in this order: the lookup of the
    buyer's token account, the latest blockhash, and one transaction.  The
    transaction is signed by the wallet alone, names the wallet as fee
    payer, and holds the buy instruction, preceded by the creation of the
    token account exactly when the lookup found none.  The reported output
    is the expected output divided by 10^6. *)
Theorem successful_buy
    (wallet : Keypair) (token : PumpFunToken) (solAmount : number)
    (log log' : list NetworkCall) (r : TradeResult) :
  buy (Some wallet) token solAmount log = (inr r, log') ->
  success r = true ->
  let lamports := floor (mul solAmount LAMPORTS_PER_SOL) in
  let expected :=
    calculateExpectedTokens lamports
      (virtual_sol_reserves token) (virtual_token_reserves token) in
  let minTokens := minimum_out (slippageBps config) expected in
  exists mintKey bondingCurve associatedBondingCurve ata ataInfo ins
         blockhash sig,
    gtb solAmount (maxBuyAmount config) = false
    /\ new_PublicKey (mint token) = inr mintKey
    /\ new_PublicKey (bonding_curve token) = inr bondingCurve
    /\ new_PublicKey (associated_bonding_curve token)
       = inr associatedBondingCurve
    /\ getAssociatedTokenAddress mintKey (publicKey wallet) = inr ata
    /\ answer_getAccountInfo connection ata = inr ataInfo
    /\ buildBuyInstruction SystemProgram_programId TOKEN_PROGRAM_ID
         (publicKey wallet) mintKey bondingCurve associatedBondingCurve ata
         lamports minTokens = inr ins
    /\ is_u64 lamports = true /\ is_u64 minTokens = true
    /\ let tx :=
         {| instructions :=
              match ataInfo with
              | None =>
                  [createAssociatedTokenAccountInstruction
                     (publicKey wallet) ata (publicKey wallet) mintKey]
              | Some _ => []
              end ++ [ins];
            recentBlockhash := Some blockhash;
            feePayer := Some (publicKey wallet) |} in
       answer_getLatestBlockhash connection = inr blockhash
       /\ answer_sendAndConfirmTransaction connection tx [wallet] = inr sig
       /\ log' = log ++ [getAccountInfo ata; getLatestBlockhash;
                         sendAndConfirmTransaction tx [wallet]]
       /\ r = {| success := true; signature := Some sig; error := None;
                 amountIn := solAmount;
                 amountOut := Some (div expected (of_Z 1000000)) |}.
Proof.
  intros H Hs. cbn zeta. unfold buyToken in H.
  destruct (gtb solAmount (maxBuyAmount config)) eqn:G;
    [inversion H; subst; discriminate Hs|].
  invert_promise H; inversion H; subst; try discriminate Hs.
  match goal with
  | E : buildBuyInstruction _ _ _ _ _ _ _ _ _ = inr _ |- _ =>
      pose proof (buildBuyInstruction_accepts_inv _ _ _ _ _ _ _ _ _ _ E)
        as [U1 U2]
  end.
  do 8 eexists. repeat split; try eassumption; try reflexivity.
  rewrite <- !app_assoc. reflexivity.
Qed.

(** X11.  Whatever happens, a buy sends at most one transaction, and it
    sends it only after the account lookup and the blockhash request: the
    requests of one call are an initial part of that sequence of three.
    The transaction, when sent, is signed by the wallet alone. *)
Theorem buy_sends_at_most_one_transaction
    (wallet : Keypair) (token : PumpFunToken) (solAmount : number)
    (log : list NetworkCall) :
  exists r calls,
    buy (Some wallet) token solAmount log = (inr r, log ++ calls)
    /\ (calls = []
        \/ exists ata,
             calls = [getAccountInfo ata]
             \/ calls = [getAccountInfo ata; getLatestBlockhash]
             \/ exists tx,
                  calls = [getAccountInfo ata; getLatestBlockhash;
                           sendAndConfirmTransaction tx [wallet]]
                  /\ feePayer tx = Some (publicKey wallet))
    /\ (success r = true -> length calls = 3%nat).
Proof.
  unfold buyToken.
  destruct (gtb solAmount (maxBuyAmount config)).
  - eexists; exists []. rewrite app_nil_r. split; [reflexivity|].
    split; [now left|discriminate].
  - run_promise; rewrite <- ?app_assoc; cbn [app];
      try (eexists; exists []; rewrite app_nil_r; split; [reflexivity|];
           split; [now left|discriminate]);
      (eexists; eexists; split; [reflexivity|]);
      (split; [right; eexists; eauto 6|]); try discriminate; reflexivity.
Qed.

(** X12.  A sell sends at most two requests, the blockhash request and then
    one transaction, and never looks up or creates the seller's token
    account: no account lookup is among its requests, and the transaction
    holds one instruction, which is the sell instruction that the encoder
    returns for the three addresses of the token, the seller's token
    address, the token amount in base units and the minimum output after
    slippage.  The transaction carries the blockhash that the node
    answered, is signed by the wallet alone and names it as fee payer.  A
    sell that reports success sent both requests, for amounts that are
    unsigned 64-bit integers; the reported output is the expected output
    divided by [LAMPORTS_PER_SOL].  No limit is applied to the amount. *)
Theorem sell_requests
    (wallet : Keypair) (token : PumpFunToken) (tokenAmount : number)
    (log : list NetworkCall) :
  let tokenLamports := floor (mul tokenAmount (of_Z 1000000)) in
  let expected :=
    calculateExpectedSol tokenLamports
      (virtual_sol_reserves token) (virtual_token_reserves token) in
  let minSol := minimum_out (slippageBps config) expected in
  exists r calls,
    sell (Some wallet) token tokenAmount log = (inr r, log ++ calls)
    /\ (forall address, ~ In (getAccountInfo address) calls)
    /\ (calls = [] \/ calls = [getLatestBlockhash]
        \/ exists mintKey bondingCurve associatedBondingCurve ata ins
                  blockhash,
             new_PublicKey (mint token) = inr mintKey
             /\ new_PublicKey (bonding_curve token) = inr bondingCurve
             /\ new_PublicKey (associated_bonding_curve token)
                = inr associatedBondingCurve
             /\ getAssociatedTokenAddress mintKey (publicKey wallet) = inr ata
             /\ buildSellInstruction SystemProgram_programId TOKEN_PROGRAM_ID
                  (publicKey wallet) mintKey bondingCurve
                  associatedBondingCurve ata tokenLamports minSol = inr ins
             /\ answer_getLatestBlockhash connection = inr blockhash
             /\ calls
                = [getLatestBlockhash;
                   sendAndConfirmTransaction
                     {| instructions := [ins];
                        recentBlockhash := Some blockhash;
                        feePayer := Some (publicKey wallet) |}
                     [wallet]])
    /\ (success r = true ->
        is_u64 tokenLamports = true /\ is_u64 minSol = true
        /\ length calls = 2%nat
        /\ amountOut r = Some (div expected LAMPORTS_PER_SOL)).
Proof.
  cbn zeta. unfold sellToken.
  run_promise; rewrite <- ?app_assoc; cbn [app];
    try (eexists; exists []; rewrite app_nil_r; split; [reflexivity|];
         split; [intros address []|]; split; [now left|discriminate]);
    (eexists; eexists; split; [reflexivity|]);
    (split; [intros address Hin; cbn [In] in Hin;
             repeat (destruct Hin as [Hin|Hin]; [discriminate Hin|]);
             exact Hin|]);
    (split;
     [first [ right; left; reflexivity
            | right; right; do 6 eexists;
              repeat split; try reflexivity; eassumption ]|]);
    try discriminate.
  intros _.
  match goal with
  | E : buildSellInstruction _ _ _ _ _ _ _ _ _ = inr _ |- _ =>
      pose proof (buildSellInstruction_accepts_inv _ _ _ _ _ _ _ _ _ _ E)
        as [U1 U2]
  end.
  repeat split; assumption.
Qed.

(** X13.  An amount whose lamports the encoder cannot take (not a number, an
    infinity, a negative amount, 2^64 lamports or more) never reaches the
    node as a transaction: the buy resolves with a failed result, having
    sent at most the account lookup, and no blockhash request. *)
Theorem unencodable_buy_sends_no_transaction
    (wallet : Keypair) (token : PumpFunToken) (solAmount : number)
    (log : list NetworkCall) :
  is_u64 (floor (mul solAmount LAMPORTS_PER_SOL)) = false ->
  exists r calls,
    buy (Some wallet) token solAmount log = (inr r, log ++ calls)
    /\ success r = false
    /\ (calls = [] \/ exists ata, calls = [getAccountInfo ata]).
Proof.
  intros Hu. unfold buyToken.
  destruct (gtb solAmount (maxBuyAmount config)).
  - eexists; exists []. rewrite app_nil_r. split; [reflexivity|].
    split; [reflexivity|now left].
  - run_promise; rewrite <- ?app_assoc; cbn [app];
      try (eexists; exists []; rewrite app_nil_r; split; [reflexivity|];
           split; [reflexivity|now left]);
      try (eexists; eexists; split; [reflexivity|];
           split; [reflexivity|right; eauto]);
      match goal with
      | E : buildBuyInstruction _ _ _ _ _ _ _ _ _ = inr _ |- _ =>
          pose proof (buildBuyInstruction_accepts_inv _ _ _ _ _ _ _ _ _ _ E)
            as [U1 U2]; congruence
      end.
Qed.

(** X14.  The limit guard refuses only what compares strictly above the
    limit.  An amount equal to the limit passes it, and so does whatever
    does not compare above it: zero, a negative amount, not-a-number.
    When the three addresses of the token parse and the token account can
    be derived, such a buy reaches the node with the account lookup. *)
Theorem amounts_not_above_the_limit_reach_the_node
    (wallet : Keypair) (token : PumpFunToken) (solAmount : number)
    (log : list NetworkCall)
    (mintKey bondingCurve associatedBondingCurve ata : PublicKey) :
  gtb solAmount (maxBuyAmount config) = false ->
  new_PublicKey (mint token) = inr mintKey ->
  new_PublicKey (bonding_curve token) = inr bondingCurve ->
  new_PublicKey (associated_bonding_curve token) = inr associatedBondingCurve ->
  getAssociatedTokenAddress mintKey (publicKey wallet) = inr ata ->
  (exists r calls,
      buy (Some wallet) token solAmount log
      = (inr r, log ++ getAccountInfo ata :: calls))
  /\ gtb (maxBuyAmount config) (maxBuyAmount config) = false
  /\ gtb S754_nan (maxBuyAmount config) = false.
Proof.
  intros G K1 K2 K3 A. split; [|split].
  - unfold buyToken. rewrite G.
    unfold try_catch, await, lift, request, ret.
    rewrite K1, K2, K3, A.
    repeat match goal with
           | |- context [match ?r with inl _ => _ | inr _ => _ end] =>
               lazymatch r with
               | inl _ => fail
               | inr _ => fail
               | _ => let E := fresh "E" in destruct r eqn:E
               end
           end;
      rewrite <- ?app_assoc; cbn [app]; eauto.
  - unfold gtb, SFltb.
    destruct (maxBuyAmount config) as [[|]|[|]| |[|] m e]; cbn [SFcompare];
      try reflexivity;
      rewrite Z.compare_refl, Pos.compare_cont_refl; reflexivity.
  - unfold gtb, SFltb. destruct (maxBuyAmount config); reflexivity.
Qed.

End TradeDiscipline.

(** ** Pricing engine *)

(** *** The sell output *)

(** X15.  The sell side of the pricing rule: for integer arguments with a
    token reserve below 2^52, a SOL reserve below 2^53 and a positive
    amount below 2^53, the expected SOL is at least zero and at most the
    SOL reserve, and strictly below it for an amount below 2^50. *)
Theorem sell_output_within_reserve (amountIn solReserve tokenReserve : Z) :
  0 < tokenReserve < 2 ^ 52 -> 0 < solReserve < 2 ^ 53 ->
  0 < amountIn < 2 ^ 53 ->
  let out := calculateExpectedSol
               (of_Z amountIn) (of_Z solReserve) (of_Z tokenReserve) in
  leb (of_Z 0) out = true
  /\ leb out (of_Z solReserve) = true
  /\ (amountIn < 2 ^ 50 -> ltb out (of_Z solReserve) = true).
Proof.
  intros HT HS HA out. subst out.
  assert (E : calculateExpectedSol
                (of_Z amountIn) (of_Z solReserve) (of_Z tokenReserve)
              = calculateExpectedTokens
                  (of_Z amountIn) (of_Z tokenReserve) (of_Z solReserve)).
  { unfold calculateExpectedSol, calculateExpectedTokens.
    now rewrite (mul_comm (of_Z solReserve) (of_Z tokenReserve)). }
  rewrite E.
  exact (expected_tokens_on_integers amountIn tokenReserve solReserve HT HS HA).
Qed.

(** *** The slippage bound *)

Lemma leb_of_grid (m mt : positive) (e et : Z) :
  e <= et -> Zpos m <= Zpos mt * 2 ^ (et - e) ->
  leb (S754_finite false m e) (S754_finite false mt et) = true.
Proof.
  intros He Hm. unfold leb, SFleb. cbn [SFcompare].
  destruct (Z.compare_spec e et) as [E|L|G]; [|reflexivity|lia].
  subst e. rewrite Z.sub_diag, Z.pow_0_r, Z.mul_1_r in Hm.
  rewrite Pos.compare_cont_spec. cbn [Pos.switch_Eq].
  destruct (Pos.compare_spec m mt); try reflexivity. lia.
Qed.

(** [sub_le], with the result located on the grid of the minuend. *)
Lemma sub_le_grid (mt mq : positive) (et eq : Z) :
  fexp64 (digits (Zpos mt) + et) = et -> et <= emax - prec ->
  eq <= et -> Zpos mq <= Zpos mt * 2 ^ (et - eq) ->
  match sub (S754_finite false mt et) (S754_finite false mq eq) with
  | S754_zero s => s = false
  | S754_finite s m e =>
      s = false /\ e <= et /\ Zpos m <= Zpos mt * 2 ^ (et - e)
  | _ => False
  end.
Proof.
  intros Hcan Hmax Heq Hle. unfold sub. cbn [SFsub cond_Zopp].
  replace (Z.min et eq) with eq by lia.
  destruct (shl_align_spec mt et eq) as [At _]. destruct (At Heq) as [At1 _].
  destruct (shl_align_spec mq eq eq) as [_ Aq]. rewrite (Aq (Z.le_refl eq)).
  cbn [fst]. rewrite At1.
  set (D := Zpos mt * 2 ^ (et - eq) - Zpos mq).
  assert (HD : 0 <= D) by (unfold D; lia).
  destruct D as [|D'|D'] eqn:ED; [reflexivity| |lia].
  cbn [binary_normalize].
  destruct (binary_round_aligned false D' eq) as (mz & ez & -> & Hez' & Hmz & Hdz).
  assert (Hez : ez <= eq) by lia.
  assert (HP : ez <= fexp64 (digits (Zpos mz) + ez)) by (rewrite Hdz; lia).
  assert (Hbound : Zpos mz <= Zpos mt * 2 ^ (et - ez)).
  { rewrite Hmz. replace (et - ez) with ((et - eq) + (eq - ez)) by lia.
    rewrite pow2_split by lia.
    assert (0 < 2 ^ (eq - ez)) by (apply Z.pow_pos_nonneg; lia).
    assert (Zpos D' <= Zpos mt * 2 ^ (et - eq)) by lia. nia. }
  pose proof (binary_round_aux_le false (Zpos mz) ez loc_Exact mt et
                ltac:(lia) HP (Z.eq_le_incl _ _ Hcan) Hmax ltac:(lia) Hbound
                (fun _ => eq_refl)) as RU.
  destruct (binary_round_aux prec emax false (Zpos mz) ez loc_Exact)
    as [so|so| |so mo eo]; try contradiction.
  - exact RU.
  - destruct RU as (-> & Heo & Hmo). repeat split; [lia|exact Hmo].
Qed.

(** For a slippage of 0 to 10000 basis points, the factor
    [1 - slippageBps / 10000] is +0 or a positive number not above 1. *)
Lemma slippage_factor_at_most_one (bps : Z) :
  0 <= bps <= 10000 ->
  match sub (of_Z 1) (div (of_Z bps) (of_Z 10000)) with
  | S754_zero s => s = false
  | S754_finite s m e => s = false /\ e <= 0 /\ Zpos m <= 2 ^ (- e)
  | _ => False
  end.
Proof.
  intros Hb.
  assert (G : match sub (of_Z 1) (div (of_Z bps) (of_Z 10000)) with
              | S754_zero s => s = false
              | S754_finite s m e =>
                  s = false /\ e <= -52
                  /\ Zpos m <= Zpos (2 ^ 52) * 2 ^ (-52 - e)
              | _ => False
              end).
  { destruct (Z.eq_dec bps 0) as [->|Hne].
    - vm_compute. repeat split; intros H; discriminate H.
    - destruct (of_Z_exact bps ltac:(lia)) as (mb & -> & Emb & Dmb & Cb & Db).
      change (of_Z 10000) with (S754_finite false 5497558138880000 (-39)).
      change (of_Z 1) with (S754_finite false (2 ^ 52) (-52)).
      assert (Hq : forall b, b <= digits bps - 53 - -39 -> b <= -52 ->
                     Zpos mb * 2 ^ (digits bps - 53 - -39 - b)
                     <= Zpos (2 ^ 52) * 5497558138880000 * 2 ^ (-52 - b)).
      { apply (quotient_hypothesis (2 ^ 52) mb 5497558138880000
                 (-52) (digits bps - 53) (-39) (-39)); [lia|lia|].
        rewrite Emb.
        replace (digits bps - 53 - (-39 + -52)) with (digits bps + 38) by lia.
        rewrite <- Z.mul_assoc, <- pow2_split by lia.
        replace (53 - digits bps + (digits bps + 38)) with 91 by lia.
        replace (-39 - -39) with 0 by lia.
        change (Zpos (2 ^ 52) * 5497558138880000 * 2 ^ 0) with (10000 * 2 ^ 91).
        assert (0 < 2 ^ 91) by (apply Z.pow_pos_nonneg; lia). nia. }
      pose proof (div_le mb 5497558138880000 (2 ^ 52)
                    (digits bps - 53) (-39) (-52) eq_refl
                    ltac:(unfold emax, prec; lia) Hq) as Q.
      destruct (div (S754_finite false mb (digits bps - 53))
                  (S754_finite false 5497558138880000 (-39)))
        as [sq|sq| |sq mq eq]; try contradiction.
      + subst sq. unfold sub. cbn [SFsub]. repeat split; lia.
      + destruct Q as (-> & Heq & Hmq).
        apply sub_le_grid; [reflexivity|unfold emax, prec; lia|exact Heq|].
        exact Hmq. }
  destruct (sub (of_Z 1) (div (of_Z bps) (of_Z 10000)))
    as [s|s| |s m e]; try contradiction; [exact G|].
  destruct G as (-> & He & Hm). repeat split; [lia|].
  replace (- e) with (52 + (-52 - e)) by lia. rewrite pow2_split by lia.
  exact Hm.
Qed.

(** Multiplying a canonical positive number by a positive number not above
    1 gives a number that is not above it. *)
Lemma mul_by_at_most_one (mx mf : positive) (ex ef : Z) :
  fexp64 (digits (Zpos mx) + ex) = ex -> ex <= emax - prec ->
  ef <= 0 -> Zpos mf <= 2 ^ (- ef) ->
  match mul (S754_finite false mx ex) (S754_finite false mf ef) with
  | S754_zero s => s = false
  | S754_finite s m e =>
      s = false /\ e <= ex /\ Zpos m <= Zpos mx * 2 ^ (ex - e)
  | _ => False
  end.
Proof.
  intros Hcan Hmax Hef Hmf. unfold mul. cbn [SFmul xorb].
  assert (HP : ex + ef <= fexp64 (digits (Zpos (mx * mf)) + (ex + ef))).
  { rewrite fexp64_eq in *.
    destruct (Z_le_gt_dec 53 (digits (Zpos mx))) as [Hn|Hs].
    - assert (digits (Zpos mx) <= digits (Zpos (mx * mf))).
      { apply digits_mono. rewrite Pos2Z.inj_mul. nia. }
      lia.
    - lia. }
  pose proof (binary_round_aux_le false (Zpos (mx * mf)) (ex + ef) loc_Exact
                mx ex ltac:(lia) HP (Z.eq_le_incl _ _ Hcan) Hmax ltac:(lia))
    as RU.
  replace (ex - (ex + ef)) with (- ef) in RU by lia.
  specialize (RU ltac:(rewrite Pos2Z.inj_mul; nia) (fun _ => eq_refl)).
  destruct (binary_round_aux prec emax false (Zpos (mx * mf)) (ex + ef)
              loc_Exact) as [s|s| |s m e]; try contradiction; [exact RU|].
  destruct RU as (-> & He & Hm). repeat split; [lia|exact Hm].
Qed.

(** [Math.floor] of a positive number that is not above a canonical number
    is not above it either. *)
Lemma floor_le_grid (m mt : positive) (e et : Z) :
  fexp64 (digits (Zpos mt) + et) = et -> et <= emax - prec ->
  e <= et -> Zpos m <= Zpos mt * 2 ^ (et - e) ->
  match floor (S754_finite false m e) with
  | S754_zero s => s = false
  | S754_finite s m' e' =>
      s = false /\ e' <= et /\ Zpos m' <= Zpos mt * 2 ^ (et - e')
  | _ => False
  end.
Proof.
  intros Hcan Hmax He Hm. unfold floor.
  destruct (Z.leb_spec 0 e) as [Hpos|Hneg]; [repeat split; assumption|].
  cbn [cond_Zopp].
  set (n := Zpos m / 2 ^ (- e)).
  assert (Hp : 0 < 2 ^ (- e)) by (apply Z.pow_pos_nonneg; lia).
  assert (Hn0 : 0 <= n) by (apply Z.div_pos; lia).
  assert (Hnm : n * 2 ^ (- e) <= Zpos m).
  { unfold n. rewrite Z.mul_comm. apply Z.mul_div_le. exact Hp. }
  destruct n as [|n'|n'] eqn:En; [reflexivity| |lia].
  cbn [binary_normalize].
  destruct (binary_round_aligned false n' 0) as (mz & ez & -> & Hez & Hmz & Hdz).
  rewrite Z.add_0_r in Hez, Hdz.
  (* the integer part, on the grid of the bound *)
  assert (Hgrid : ez <= et /\ Zpos mz <= Zpos mt * 2 ^ (et - ez)).
  { destruct (Z_le_gt_dec 0 et) as [Hge|Hlt].
    - split; [lia|].
      assert (B : Zpos n' <= Zpos mt * 2 ^ et).
      { assert (E2 : Zpos mt * 2 ^ (et - e) = Zpos mt * 2 ^ et * 2 ^ (- e)).
        { rewrite <- Z.mul_assoc, <- pow2_split by lia. f_equal; f_equal; lia. }
        assert (0 <= Zpos mt * 2 ^ et) by (apply Z.mul_nonneg_nonneg; [lia|apply Z.pow_nonneg; lia]).
        nia. }
      rewrite Hmz. replace (et - ez) with (et + (0 - ez)) by lia.
      rewrite pow2_split by lia.
      assert (0 < 2 ^ (0 - ez)) by (apply Z.pow_pos_nonneg; lia). nia.
    - assert (B : Zpos n' * 2 ^ (- et) <= Zpos mt).
      { assert (E2 : 2 ^ (- e) = 2 ^ (- et) * 2 ^ (et - e)).
        { rewrite <- pow2_split by lia. f_equal; lia. }
        assert (0 < 2 ^ (et - e)) by (apply Z.pow_pos_nonneg; lia).
        assert (0 < 2 ^ (- et)) by (apply Z.pow_pos_nonneg; lia).
        rewrite E2 in Hnm. nia. }
      assert (Hd : digits (Zpos n') <= digits (Zpos mt) + et).
      { assert (D1 : digits (Zpos n' * 2 ^ (- et)) <= digits (Zpos mt)).
        { apply digits_mono. split; [|exact B].
          assert (0 < 2 ^ (- et)) by (apply Z.pow_pos_nonneg; lia). nia. }
        rewrite digits_shift in D1 by lia. lia. }
      pose proof (fexp64_mono _ _ Hd) as Hf. rewrite Hcan in Hf.
      split; [lia|].
      rewrite Hmz. replace (0 - ez) with ((- et) + (et - ez)) by lia.
      rewrite pow2_split by lia.
      assert (0 < 2 ^ (et - ez)) by (apply Z.pow_pos_nonneg; lia). nia. }
  destruct Hgrid as [Hezt Hbound].
  assert (HP : ez <= fexp64 (digits (Zpos mz) + ez)) by (rewrite Hdz; lia).
  pose proof (binary_round_aux_le false (Zpos mz) ez loc_Exact mt et
                ltac:(lia) HP (Z.eq_le_incl _ _ Hcan) Hmax Hezt Hbound
                (fun _ => eq_refl)) as RU.
  destruct (binary_round_aux prec emax false (Zpos mz) ez loc_Exact)
    as [so|so| |so mo eo]; try contradiction; [exact RU|].
  destruct RU as (-> & Heo & Hmo). repeat split; [lia|exact Hmo].
Qed.

(** X16.  With a slippage of 0 to 10000 basis points and an expected output
    that is zero or a positive finite number, the minimum output that
    [buyToken] and [sellToken] encode is at least zero and never above the
    expected output. *)
Theorem minimum_out_within_expected (bps : Z) (expected : number) :
  0 <= bps <= 10000 ->
  valid expected = true -> is_finite_nonneg expected = true ->
  leb (of_Z 0) (minimum_out (of_Z bps) expected) = true
  /\ leb (minimum_out (of_Z bps) expected) expected = true.
Proof.
  intros Hb Hv Hx. unfold minimum_out.
  pose proof (slippage_factor_at_most_one bps Hb) as F.
  destruct (sub (of_Z 1) (div (of_Z bps) (of_Z 10000)))
    as [sf|sf| |sf mf ef]; try contradiction.
  - subst sf.
    destruct expected as [sx| | |[|] mx ex]; try discriminate Hx;
      split; reflexivity.
  - destruct F as (-> & Hef & Hmf).
    destruct expected as [sx| | |[|] mx ex]; try discriminate Hx.
    + split; reflexivity.
    + destruct (valid_finite _ _ _ Hv) as [Hcan Hmax].
      pose proof (mul_by_at_most_one mx mf ex ef Hcan Hmax Hef Hmf) as M.
      destruct (mul (S754_finite false mx ex) (S754_finite false mf ef))
        as [sp|sp| |sp mp ep]; try contradiction.
      * subst sp. split; reflexivity.
      * destruct M as (-> & Hep & Hmp).
        pose proof (floor_le_grid mp mx ep ex Hcan Hmax Hep Hmp) as Fl.
        destruct (floor (S754_finite false mp ep))
          as [so|so| |so mo eo]; try contradiction.
        -- subst so. split; reflexivity.
        -- destruct Fl as (-> & Heo & Hmo). split; [reflexivity|].
           apply leb_of_grid; assumption.
Qed.

(** ** Configuration, wallet and REST client *)

(** *** Start of the trade command *)

Section WalletProperties.

Variable bs58_decode : string -> result Buffer.
Variable Keypair_fromSecretKey : Buffer -> result Keypair.
Variable LAMPORTS_PER_SOL : number.
Variable new_PublicKey : string -> result PublicKey.
Variable getAssociatedTokenAddress : PublicKey -> PublicKey -> result PublicKey.
Variable parseFloat : string -> number.
Variable connection : BalanceNode.

Abbreviation initialize := (initializeWallet bs58_decode Keypair_fromSecretKey).
Abbreviation balance := (getBalance LAMPORTS_PER_SOL connection).
Abbreviation tokenBalance :=
  (getTokenBalance new_PublicKey getAssociatedTokenAddress parseFloat connection).

Lemma validateTradingConfig_returns (config : Credentials) :
  validateTradingConfig config = inr tt
  <-> anthropicApiKey config <> EmptyString
      /\ solanaPrivateKey config <> EmptyString.
Proof.
  unfold validateTradingConfig, validateConfig.
  destruct (bool_decide_reflect (anthropicApiKey config = EmptyString)) as [A|A];
    cbn [bind].
  - split; [discriminate|]. intros [H _]. contradiction.
  - destruct (bool_decide_reflect (solanaPrivateKey config = EmptyString))
      as [S|S].
    + split; [discriminate|]. intros [_ H]. contradiction.
    + split; [auto|reflexivity].
Qed.


(** X18.  The two balance queries treat failure differently.  [getBalance]
    sends exactly one request and rejects exactly when the node does, with
    the node's error; otherwise it resolves with the lamports divided by
    [LAMPORTS_PER_SOL].  [getTokenBalance] with a wallet never rejects: it
    sends at most one request, for the derived token account, and resolves
    with 0 as soon as the address does not parse, the derivation fails or
    the node rejects; a missing or empty amount is read as ["0"].  Without
    a wallet both reject before any request. *)
Theorem balance_queries
    (wallet : Keypair) (mintAddress : string) (log : list BalanceCall) :
  balance (Some wallet) log
  = (match answer_getBalance connection (publicKey wallet) with
     | inr lamports => inr (div lamports LAMPORTS_PER_SOL)
     | inl e => inl e
     end, log ++ [rpc_getBalance (publicKey wallet)])
  /\ balance None log = (inl (Thrown true "Wallet not initialized"), log)
  /\ tokenBalance None mintAddress log
     = (inl (Thrown true "Wallet not initialized"), log)
  /\ exists r calls,
       tokenBalance (Some wallet) mintAddress log = (inr r, log ++ calls)
       /\ (calls = [] /\ r = of_Z 0
           \/ exists mint ata,
                new_PublicKey mintAddress = inr mint
                /\ getAssociatedTokenAddress mint (publicKey wallet) = inr ata
                /\ calls = [rpc_getTokenAccountBalance ata]
                /\ match answer_getTokenAccountBalance connection ata with
                   | inl _ => r = of_Z 0
                   | inr None => r = parseFloat "0"
                   | inr (Some s) =>
                       r = parseFloat (if bool_decide (s = EmptyString)
                                       then "0" else s)
                   end).
Proof.
  split; [|split; [reflexivity|split; [reflexivity|]]].
  - unfold getBalance, and_then, perform, resolve.
    destruct (answer_getBalance connection (publicKey wallet)); reflexivity.
  - unfold getTokenBalance, catching, and_then, settle, perform, resolve.
    destruct (new_PublicKey mintAddress) as [e|mint] eqn:P.
    { exists (of_Z 0), []. rewrite app_nil_r. split; [reflexivity|now left]. }
    destruct (getAssociatedTokenAddress mint (publicKey wallet))
      as [e|ata] eqn:A.
    { exists (of_Z 0), []. rewrite app_nil_r. split; [reflexivity|now left]. }
    destruct (answer_getTokenAccountBalance connection ata) as [e|[s|]] eqn:B;
      eexists; eexists; (split; [reflexivity|]); right;
      exists mint, ata; rewrite B; repeat split; assumption.
Qed.

End WalletProperties.

(** *** REST client *)

Section ApiProperties.

Variable Body : Type.
Variable empty_array : Body.
Variable baseUrl : string.
Variable number_toString : number -> string.
Variable encodeURIComponent : string -> result string.
Variable http : string -> result (Response Body).

Ltac run_api :=
  unfold console_error_with, fetch;
  unfold catching, and_then, settle, perform, resolve, reject; cbn beta;
  repeat match goal with
         | |- context [match ?r with inl _ => _ | inr _ => _ end] =>
             lazymatch r with
             | inl _ => fail
             | inr _ => fail
             | _ => let E := fresh "E" in destruct r eqn:E
             end
         | |- context [if negb (ok ?r) then _ else _] =>
             let E := fresh "E" in destruct (ok r) eqn:E; cbn [negb]
         end.

Ltac listing :=
  intros done; run_api; rewrite <- ?app_assoc; cbn [app];
  eexists; eexists; (split; [reflexivity|]);
  first [ left; eexists; eexists; repeat split; eassumption
        | right; split; [reflexivity|]; eexists; eexists; eauto ].


(** X20.  [getToken] never rejects and sends exactly one request, for
    [baseUrl/coins/mintAddress] with the address put in as it is.  It
    resolves with a token only for a response that was [ok] and whose body
    parsed; in every other case it resolves with [null].  A 404 is the one
    failure that is not written to the error console. *)
Theorem getToken_outcomes (mintAddress : string) (done : list ApiEffect) :
  let url := baseUrl +:+ "/coins/" +:+ mintAddress in
  exists r logged,
    getToken Body baseUrl http mintAddress done
    = (inr r, done ++ api_fetch url :: logged)
    /\ (forall body,
          r = Some body <->
          exists response,
            http url = inr response /\ ok response = true
            /\ json response = inr body)
    /\ (logged = []
        <-> (exists body, r = Some body)
            \/ exists response,
                 http url = inr response /\ ok response = false
                 /\ status response = 404)
    /\ (logged = []
        \/ exists error,
             logged = [api_console_error
                         ("Error fetching token " +:+ mintAddress +:+ ":")
                         error]).
Proof.
  cbn zeta. unfold getToken.
  unfold console_error_with, fetch.
  unfold catching, and_then, settle, perform, resolve, reject. cbn beta.
  destruct (http (baseUrl +:+ "/coins/" +:+ mintAddress))
    as [e|response] eqn:H.
  - eexists; eexists. rewrite <- app_assoc. split; [reflexivity|].
    repeat split; try discriminate; eauto.
    + intros (response & E & _). discriminate E.
    + intros [[body E]|(response & E & _)]; discriminate E.
  - destruct (ok response) eqn:O; cbn [negb].
    + destruct (json response) as [e|body] eqn:J.
      * eexists; eexists. rewrite <- app_assoc. split; [reflexivity|].
        repeat split; try discriminate; eauto.
        -- intros (response' & E & _ & J'). congruence.
        -- intros [[body E]|(response' & E & O' & _)]; [discriminate E|].
           congruence.
      * exists (Some body), []. split; [reflexivity|].
        repeat split; eauto.
        -- intros E. exists response. inversion E; subst. auto.
        -- intros (response' & E & _ & J'). congruence.
    + destruct (Z.eqb_spec (status response) 404) as [S|S].
      * exists None, []. split; [reflexivity|].
        repeat split; try discriminate; eauto.
        intros (response' & E & O' & _). congruence.
      * eexists; eexists. rewrite <- app_assoc. split; [reflexivity|].
        repeat split; try discriminate; eauto.
        -- intros (response' & E & O' & _). congruence.
        -- intros [[body E]|(response' & E & _ & S')]; [discriminate E|].
           congruence.
Qed.

End ApiProperties.

(** *** The spot price *)

Lemma binary_round_aux_is_a_number (sx : bool) (mx ex : Z) (lx : location) :
  0 <= mx -> is_nan (binary_round_aux prec emax sx mx ex lx) = false.
Proof.
  intros Hm. unfold binary_round_aux.
  pose proof (shr_fexp_spec mx ex lx Hm) as [P1 _].
  destruct (shr_fexp prec emax mx ex lx) as [mrs1 e1]. cbn [fst] in P1.
  pose proof (round_nearest_even_bounds (shr_m mrs1) (loc_of_shr_record mrs1))
    as [[B _] _].
  pose proof (shr_fexp_spec
                (round_nearest_even (shr_m mrs1) (loc_of_shr_record mrs1))
                e1 loc_Exact ltac:(lia)) as [P2 _].
  destruct (shr_fexp prec emax _ e1 loc_Exact) as [mrs2 e2]. cbn [fst] in P2.
  destruct (shr_m mrs2); [reflexivity| |lia].
  destruct (e2 <=? emax - prec); reflexivity.
Qed.

Lemma div_finite_is_a_number (sx sy : bool) (mx my : positive) (ex ey : Z) :
  is_nan (div (S754_finite sx mx ex) (S754_finite sy my ey)) = false.
Proof.
  unfold div. cbn [SFdiv]. unfold SFdiv_core_binary.
  match goal with
  | |- context [Z.div_eucl ?a ?b] =>
      assert (Ha : 0 <= a);
      [|pose proof (Z.div_pos a b Ha ltac:(lia)) as Hq;
        unfold Z.div in Hq; destruct (Z.div_eucl a b) as [q r]]
  end.
  - match goal with
    | |- 0 <= match ?s with _ => _ end => destruct s
    end; [lia| |lia].
    rewrite Z.shiftl_mul_pow2 by lia.
    apply Z.mul_nonneg_nonneg; [lia|apply Z.pow_nonneg; lia].
  - apply binary_round_aux_is_a_number. exact Hq.
Qed.

(** X21.  [calculatePrice] never divides by zero: a token reserve that is
    zero, of either sign, gives the price +0 whatever the SOL reserve is,
    and for reserves that are zero or finite the price is a number (not
    NaN), and not below zero when neither reserve is.  The market cap of a
    token with a zero token reserve and a finite supply is zero. *)
Theorem price_is_a_number (token : ListedToken) :
  (is_zero (virtual_token_reserves token) = true ->
   calculatePrice token = of_Z 0
   /\ (is_finite (total_supply token) = true ->
       is_zero (calculateMarketCapSol token) = true))
  /\ (is_finite (virtual_sol_reserves token) = true ->
      is_finite (virtual_token_reserves token) = true ->
      is_nan (calculatePrice token) = false
      /\ (is_finite_nonneg (virtual_sol_reserves token) = true ->
          is_finite_nonneg (virtual_token_reserves token) = true ->
          leb (of_Z 0) (calculatePrice token) = true)).
Proof.
  unfold calculateMarketCapSol, calculatePrice. split.
  - intros Hz. rewrite Hz. split; [reflexivity|].
    destruct (total_supply token) as [s| | |s m e]; try discriminate;
      reflexivity.
  - intros Hs Ht.
    destruct (virtual_token_reserves (listed token)) as [st| | |st mt et];
      try discriminate Ht.
    + split; reflexivity.
    + replace (is_zero (S754_finite st mt et)) with false
        by (destruct st; reflexivity).
      destruct (virtual_sol_reserves (listed token)) as [ss| | |ss ms es];
        try discriminate Hs.
      * split; [reflexivity|]. intros _ _. reflexivity.
      * split; [apply div_finite_is_a_number|].
        intros Ps Pt. destruct ss, st; try discriminate.
        pose proof (div_finite_is_a_number false false ms mt es et) as N.
        pose proof (binary_round_aux_sign false) as S.
        unfold div in *. cbn [SFdiv xorb] in *.
        destruct (SFdiv_core_binary prec emax (Zpos ms) es (Zpos mt) et)
          as [[q e'] l].
        specialize (S q e' l).
        destruct (binary_round_aux prec emax false q e' l) as [s|s| |s m e];
          try discriminate N; subst s; reflexivity.
Qed.

(** ** Token analysis *)

Section AnalyzerProperties.

Variable Json : Type.
Variable JSON_parse : string -> result Json.
Variable own_properties : Json -> gmap string Json.
Variable analysis_prompt : PumpFunToken -> string.
Variable question_prompt : PumpFunToken -> string -> string.
Variable comparison_prompt : list PumpFunToken -> string.
Variable client : AnalyzerCall -> result (list ContentBlock).

Abbreviation analyze :=
  (analyzeToken Json JSON_parse own_properties analysis_prompt client).
Abbreviation ask := (askAboutToken question_prompt client).
Abbreviation compare := (compareTokens comparison_prompt client).

Lemma fallback_has_a_token (token : PumpFunToken) :
  is_Some (fallback_analysis Json token !! "token").
Proof. unfold fallback_analysis. rewrite lookup_insert. eauto. Qed.

Lemma spread_over_token (token : PumpFunToken) (answer : Json) :
  (forall key, key <> "token" ->
     ((of_json <$> own_properties answer) ∪ {[ "token" := of_token token ]})
       !! key
     = of_json <$> own_properties answer !! key)
  /\ ((of_json <$> own_properties answer) ∪ {[ "token" := of_token token ]})
       !! "token"
     = Some (match own_properties answer !! "token" with
             | Some value => of_json value
             | None => of_token token
             end).
Proof.
  split.
  - intros key Hkey.
    rewrite lookup_union, lookup_fmap, lookup_singleton_ne by congruence.
    destruct (own_properties answer !! key); reflexivity.
  - rewrite lookup_union, lookup_fmap, lookup_singleton.
    destruct (own_properties answer !! "token"); reflexivity.
Qed.

(** X22.  Each of the three analyzer calls sends exactly one request and
    rejects when that request does.  [analyzeToken] rejects in no other
    case: an answer without a first block, with a first block that is not
    text, or whose text does not parse gives the fallback analysis (risk
    score 5, neutral).  An answer that parses is copied into the result as
    it is: no member is checked, a member that the answer lacks is missing
    in the result, and the [token] member is the analysed token unless the
    answer has a [token] member of its own, which then takes its place.
    [askAboutToken] and [compareTokens] have no fallback for an empty
    answer: they reject on an answer without a first block, give a fixed
    sentence for a first block that is not text, and return a text block
    as it is. *)
Theorem analyzer_outcomes
    (token : PumpFunToken) (question : string) (tokens : list PumpFunToken)
    (done : list AnalyzerCall) :
  let analysed :=
    messages_create "claude-sonnet-4-20250514" 1500 (analysis_prompt token) in
  let asked :=
    messages_create "claude-sonnet-4-20250514" 1000
      (question_prompt token question) in
  let compared :=
    messages_create "claude-sonnet-4-20250514" 2000
      (comparison_prompt tokens) in
  match client analysed with
  | inl e => analyze token done = (inl e, done ++ [analysed])
  | inr content =>
      exists analysis,
        analyze token done = (inr analysis, done ++ [analysed])
        /\ match content with
           | block :: _ =>
               if bool_decide (type block = "text") then
                 match JSON_parse (text block) with
                 | inr answer =>
                     (forall key, key <> "token" ->
                        analysis !! key
                        = of_json <$> own_properties answer !! key)
                     /\ analysis !! "token"
                        = Some (match own_properties answer !! "token" with
                                | Some value => of_json value
                                | None => of_token token
                                end)
                 | inl _ => analysis = fallback_analysis Json token
                 end
               else analysis = fallback_analysis Json token
           | [] => analysis = fallback_analysis Json token
           end
        /\ is_Some (analysis !! "token")
  end
  /\ ask token question done
     = (match client asked with
        | inl e => inl e
        | inr [] => inl (Thrown true "Cannot read properties of undefined")
        | inr (block :: _) =>
            inr (if bool_decide (type block = "text") then text block
                 else "Unable to generate response")
        end, done ++ [asked])
  /\ compare tokens done
     = (match client compared with
        | inl e => inl e
        | inr [] => inl (Thrown true "Cannot read properties of undefined")
        | inr (block :: _) =>
            inr (if bool_decide (type block = "text") then text block
                 else "Unable to generate comparison")
        end, done ++ [compared]).
Proof.
  cbn zeta. split; [|split].
  - unfold analyzeToken, catching, and_then, settle, perform, resolve, reject.
    cbn beta.
    destruct (client _) as [e|content]; [reflexivity|].
    destruct content as [|block rest]; cbn [first_block].
    + eexists. split; [reflexivity|]. split; [reflexivity|].
      apply fallback_has_a_token.
    + destruct (bool_decide (type block = "text")); cbn [negb].
      * destruct (JSON_parse (text block)) as [e|answer].
        -- eexists. split; [reflexivity|]. split; [reflexivity|].
           apply fallback_has_a_token.
        -- eexists. split; [reflexivity|].
           destruct (spread_over_token token answer) as [S1 S2].
           split; [split; assumption|]. rewrite S2. eauto.
      * eexists. split; [reflexivity|]. split; [reflexivity|].
        apply fallback_has_a_token.
  - unfold askAboutToken, and_then, settle, perform, resolve. cbn beta.
    destruct (client _) as [e|[|block rest]]; cbn [first_block];
      try reflexivity.
    destruct (bool_decide (type block = "text")); reflexivity.
  - unfold compareTokens, and_then, settle, perform, resolve. cbn beta.
    destruct (client _) as [e|[|block rest]]; cbn [first_block];
      try reflexivity.
    destruct (bool_decide (type block = "text")); reflexivity.
Qed.

End AnalyzerProperties.

(** ** The further properties on concrete inputs *)

(** A connected client with one subscription loses its connection and
    reconnects: the frame sent before is the only one ever sent, and the
    mint is still listed. *)
Lemma reconnection_replays_nothing_witness :
  let l := Examples.run_events boot
             [call_connect; socket_open; call_subscribeToToken "coin" None] in
  let evs := [socket_close; timer_fires; socket_open] in
  let l' := dispatch_all Examples.parse Examples.open_sockets l evs in
  sent (trace l') = sent (trace l)
  /\ subscribedTokens (self l') = subscribedTokens (self l)
  /\ onNewToken (self l') = onNewToken (self l)
  /\ onTrade (self l') = onTrade (self l).
Proof.
  exact (reconnection_replays_nothing Examples.parse Examples.open_sockets
           (Examples.run_events boot
              [call_connect; socket_open; call_subscribeToToken "coin" None])
           [socket_close; timer_fires; socket_open] eq_refl).
Defined.

(** A subscription requested before [connect()]. *)
Lemma offline_calls_send_nothing_witness :
  ws (self boot) = None
  /\ sent (trace (dispatch Examples.parse Examples.open_sockets boot
                    (call_subscribeToToken "coin" None)))
     = sent (trace boot)
  /\ "coin" ∈ subscribedTokens
                (self (dispatch Examples.parse Examples.open_sockets boot
                         (call_subscribeToToken "coin" None))).
Proof.
  split; [reflexivity|].
  destruct (offline_calls_send_nothing Examples.parse Examples.open_sockets
              boot (call_subscribeToToken "coin" None) (or_introl eq_refl))
    as [H1 H2].
  split; [exact H1|]. exact (H2 "coin" None eq_refl).
Defined.

(** A ["create"] frame on a client with both handlers registered. *)
Lemma frames_are_routed_by_txType_witness :
  let c := self (Examples.run_events boot
                   [call_connect; socket_open;
                    call_subscribeToNewTokens (fun _ => None);
                    call_subscribeToToken "coin" (Some (fun _ => None))]) in
  let message := Json_with (Some "create") "{txType:create}" in
  Examples.parse "{txType:create}" = inr message
  /\ handler_calls (snd (on_message Examples.parse "{txType:create}" c))
     = routed c message
  /\ routed c message = [call_onNewToken message].
Proof.
  cbn zeta. split; [reflexivity|]. split; [|reflexivity].
  exact (proj1 (frames_are_routed_by_txType Examples.parse "{txType:create}"
                  (Json_with (Some "create") "{txType:create}") _ eq_refl)).
Defined.

(** The owner disconnects a connected client; the socket reports its
    close; the timer fires. *)
Lemma disconnect_is_followed_by_a_reconnect_witness :
  let l := Examples.run_events boot [call_connect; socket_open] in
  let closed :=
    dispatch_all Examples.parse Examples.open_sockets l
      [call_disconnect; socket_close] in
  let again :=
    dispatch Examples.parse Examples.open_sockets closed timer_fires in
  reconnectAttempts (self l) = 0
  /\ ws (self closed) = None
  /\ timers closed
     = timers l ++ [backoff_delay (reconnectAttempts (self l) + 1)]
  /\ ws (self again) = Some (opened l).
Proof.
  cbn zeta. split; [reflexivity|].
  destruct (disconnect_is_followed_by_a_reconnect Examples.parse
              Examples.open_sockets
              (Examples.run_events boot [call_connect; socket_open])
              ltac:(reflexivity)) as (H1 & H2 & H3).
  split; [exact H1|]. split; [exact H2|].
  exact (proj1 (H3 eq_refl)).
Defined.

(** The buy of 1 SOL of the scenario. *)
Lemma successful_buy_witness :
  match Examples.the_buy (Some Examples.the_wallet) Examples.the_token
          (of_Z 1) [] with
  | (inr r, log') =>
      success r = true
      /\ gtb (of_Z 1) (maxBuyAmount Examples.the_config) = false
      /\ is_u64 (floor (mul (of_Z 1) (of_Z 1000000000))) = true
      /\ length log' = 3%nat
  | _ => False
  end.
Proof.
  destruct (Examples.the_buy (Some Examples.the_wallet) Examples.the_token
              (of_Z 1) []) as [[e|r] log'] eqn:E;
    [vm_compute in E; discriminate E|].
  assert (Hs : success r = true)
    by (vm_compute in E; inversion E; reflexivity).
  destruct (successful_buy Examples.system_program Examples.token_program
              (of_Z 1000000000) Examples.the_config Examples.show
              Examples.range_message Examples.parse_key Examples.derive_ata
              Examples.create_ata Examples.node Examples.the_wallet
              Examples.the_token (of_Z 1) [] log' r E Hs)
    as (mintKey & bc & abc & ata & info & ins & blockhash & sig
        & G & _ & _ & _ & _ & _ & _ & U1 & _ & _ & _ & L & _).
  split; [exact Hs|]. split; [exact G|]. split; [exact U1|].
  rewrite L. reflexivity.
Defined.

(** The sale of 5 tokens of the scenario. *)
Lemma sell_requests_witness :
  let minSol :=
    minimum_out (slippageBps Examples.the_config)
      (calculateExpectedSol (of_Z 5000000)
         (of_Z 30000000000) (of_Z 1000000000000)) in
  exists r ins,
    buildSellInstruction Examples.system_program Examples.token_program
      Examples.trader Examples.coin Examples.curve Examples.curve_ata
      Examples.trader_ata (of_Z 5000000) minSol = inr ins
    /\ Examples.the_sell (Some Examples.the_wallet) Examples.the_token
         (of_Z 5) []
       = (inr r,
          [getLatestBlockhash;
           sendAndConfirmTransaction
             {| instructions := [ins];
                recentBlockhash := Some "blockhash";
                feePayer := Some Examples.trader |}
             [Examples.the_wallet]])
    /\ success r = true.
Proof.
  cbn zeta.
  destruct (sell_requests Examples.system_program Examples.token_program
              (of_Z 1000000000) Examples.the_config Examples.range_message
              Examples.parse_key Examples.derive_ata Examples.node
              Examples.the_wallet Examples.the_token (of_Z 5) [])
    as (r & calls & E & _ & Shape & _).
  destruct Shape
    as [->|[->|(mintKey & bondingCurve & associatedBondingCurve & ata & ins
                & blockhash & E1 & E2 & E3 & E4 & E5 & E6 & ->)]];
    [vm_compute in E; discriminate E|vm_compute in E; discriminate E|].
  injection E1 as <-. injection E2 as <-. injection E3 as <-.
  injection E4 as <-. injection E6 as <-.
  exists r, ins. split; [exact E5|]. split; [exact E|].
  vm_compute in E. injection E as <- _. reflexivity.
Defined.

(** An amount that is not a number. *)
Lemma unencodable_buy_sends_no_transaction_witness :
  is_u64 (floor (mul S754_nan (of_Z 1000000000))) = false
  /\ exists r calls,
       Examples.the_buy (Some Examples.the_wallet) Examples.the_token
         S754_nan [] = (inr r, [] ++ calls)
       /\ success r = false
       /\ (calls = [] \/ exists ata, calls = [getAccountInfo ata]).
Proof.
  split; [reflexivity|].
  exact (unencodable_buy_sends_no_transaction Examples.system_program
           Examples.token_program (of_Z 1000000000) Examples.the_config
           Examples.show Examples.range_message Examples.parse_key
           Examples.derive_ata Examples.create_ata Examples.node
           Examples.the_wallet Examples.the_token S754_nan [] eq_refl).
Defined.

(** A buy of exactly the limit of 1 SOL. *)
Lemma amounts_not_above_the_limit_reach_the_node_witness :
  gtb (of_Z 1) (maxBuyAmount Examples.the_config) = false
  /\ exists r calls,
       Examples.the_buy (Some Examples.the_wallet) Examples.the_token
         (of_Z 1) []
       = (inr r, [] ++ getAccountInfo Examples.trader_ata :: calls).
Proof.
  split; [reflexivity|].
  exact (proj1 (amounts_not_above_the_limit_reach_the_node
                  Examples.system_program Examples.token_program
                  (of_Z 1000000000) Examples.the_config Examples.show
                  Examples.range_message Examples.parse_key
                  Examples.derive_ata Examples.create_ata Examples.node
                  Examples.the_wallet Examples.the_token (of_Z 1) []
                  {| toBase58 := "coin" |} {| toBase58 := "curve" |}
                  {| toBase58 := "curve-ata" |} Examples.trader_ata
                  eq_refl eq_refl eq_refl eq_refl eq_refl)).
Defined.

(** A sale of 10^9 token units against the reserves of the scenario. *)
Lemma sell_output_within_reserve_witness :
  let out := calculateExpectedSol
               (of_Z 1000000000) (of_Z 30000000000) (of_Z 1000000000000) in
  leb (of_Z 0) out = true
  /\ leb out (of_Z 30000000000) = true
  /\ ltb out (of_Z 30000000000) = true.
Proof.
  destruct (sell_output_within_reserve 1000000000 30000000000 1000000000000
              ltac:(lia) ltac:(lia) ltac:(lia)) as (H1 & H2 & H3).
  split; [exact H1|]. split; [exact H2|]. apply H3. lia.
Defined.

(** The default slippage of 500 basis points on the expected output of the
    scenario. *)
Lemma minimum_out_within_expected_witness :
  valid scenario_out = true
  /\ leb (of_Z 0) (minimum_out (of_Z 500) scenario_out) = true
  /\ leb (minimum_out (of_Z 500) scenario_out) scenario_out = true.
Proof.
  split; [vm_compute; reflexivity|].
  exact (minimum_out_within_expected 500 scenario_out ltac:(lia)
           ltac:(vm_compute; reflexivity) ltac:(vm_compute; reflexivity)).
Defined.
